(** * jvn::Graph (Graph.h): a shallow embedding and its verified properties

    The container keeps its vertices in a singly linked list of
    [VertexNode] records and, per vertex, its outgoing edges in a singly
    linked list of [EdgeNode] records.  With a symmetric equality
    predicate (lemma [addVertex_spec]) records are only ever linked at the
    tail of a list and never unlinked before the whole graph is torn down,
    so in this development

    - a linked list reachable from its head is the Rocq list of its
      records in link order ([next] is the list structure, [nullptr] is
      the empty list);
    - a [VertexNode*] is the position of the record in the vertex list
      ([None] is [nullptr]);
    - an [EdgeNode*] is the pair of the position of the owning vertex
      record and the position in that record's edge list.

    Dereferencing a pointer that designates no record has no defined
    behaviour in C++; the embedding makes it the outcome [Undefined],
    distinct from a thrown [std::runtime_error].

    The template parameters [Directed] and [Weighted] are boolean
    arguments of the functions whose specialisations they select; [V] and
    [VerEq] are section variables. *)

From Stdlib Require Import ZArith Lia.
From Stdlib Require String.
Import String.StringSyntax.
From stdpp Require Import base option list.

Local Open Scope Z_scope.
Local Open Scope string_scope.

(** ** Outcomes of a call *)

Inductive result (A : Type) : Type :=
| Ok (a : A)
| Throw (what : String.string)
| Undefined.

Arguments Ok {A} a.
Arguments Throw {A} what.
Arguments Undefined {A}.

Definition rbind {A B : Type} (c : result A) (k : A -> result B) : result B :=
  match c with
  | Ok a => k a
  | Throw what => Throw what
  | Undefined => Undefined
  end.

Notation "'let*' p ':=' c 'in' k" :=
  (rbind c (fun x => match x with p => k end))
  (at level 10, p pattern at level 0, c at level 100, k at level 200,
   format "'[v' 'let*'  p  ':='  c  'in' '/' k ']'").

(** ** Machine integers *)

(** [size_type] is [size_t], 64 bits wide; [++m_size] wraps around. *)
Definition size_type_modulus : Z := 2 ^ 64.
Definition size_incr (n : Z) : Z := (n + 1) mod size_type_modulus.

(** The weight argument of [addEdgeHelper] is an [int]; the callers pass a
    [std::intptr_t], which is converted by truncation to 32 bits. *)
Definition is_int (z : Z) : Prop := - 2 ^ 31 <= z < 2 ^ 31.
Definition int_of_intptr (z : Z) : Z := (z + 2 ^ 31) mod 2 ^ 32 - 2 ^ 31.

(** ** Pointers and cursors *)

Definition VertexNodePtr : Type := option nat.
Definition EdgeNodePtr : Type := option (nat * nat).

Definition vptr_eqb (p q : VertexNodePtr) : bool :=
  match p, q with
  | Some i, Some j => Nat.eqb i j
  | None, None => true
  | _, _ => false
  end.

Definition eptr_eqb (p q : EdgeNodePtr) : bool :=
  match p, q with
  | Some (f, k), Some (f', k') => Nat.eqb f f' && Nat.eqb k k'
  | None, None => true
  | _, _ => false
  end.

(** [VertexIter::m_vertex_node]; the name without prefix is the field of
    [EdgeIter]. *)
Record VertexIter : Type := mkVertexIter { vi_vertex_node : VertexNodePtr }.

Record EdgeIter : Type := mkEdgeIter {
  m_vertex_node : VertexNodePtr;
  m_edge_node : EdgeNodePtr
}.

(** [operator==] of the two cursor classes; the edge cursor compares the
    edge record only. *)
Definition VertexIter_eq (lhs rhs : VertexIter) : bool :=
  vptr_eqb (vi_vertex_node lhs) (vi_vertex_node rhs).
Definition EdgeIter_eq (lhs rhs : EdgeIter) : bool :=
  eptr_eqb (m_edge_node lhs) (m_edge_node rhs).

Definition getStartVertex (e : EdgeIter) : VertexIter :=
  mkVertexIter (m_vertex_node e).

(** [Graph::end()] and [Graph::edge_end()] *)
Definition vertex_end : VertexIter := mkVertexIter None.
Definition edge_end : EdgeIter := mkEdgeIter None None.

(** ** Records *)

(** [EdgeNodeConditional<Weighted>]. The unweighted specialisation has no
    [weight] member: there the field keeps the value 0 and is never read. *)
Record EdgeNode : Type := mkEdgeNode {
  weight : Z;
  vertex_node : VertexNodePtr
}.

Section GraphModel.

Context {V : Type}.

(** [VerEq{}(a, b)], the injected predicate. *)
Variable vertex_equal : V -> V -> bool.

(** [std::intptr_t(v)] for a vertex value: the unweighted graph casts the
    last tuple component, a vertex value, before discarding it. *)
Variable intptr_of : V -> Z.

Record VertexNode : Type := mkVertexNode {
  vertex : V;
  edge_list : list EdgeNode
}.

Record Graph : Type := mkGraph {
  m_vertex_node_list : list VertexNode;
  m_size : Z
}.

(** [edge_type]: [std::tuple<V, V>] or [std::tuple<V, V, int>]. *)
Inductive edge_type : Type :=
| Edge2 (from to : V)
| Edge3 (from to : V) (w : Z).

Definition get0 (edge : edge_type) : V :=
  match edge with Edge2 a _ => a | Edge3 a _ _ => a end.
Definition get1 (edge : edge_type) : V :=
  match edge with Edge2 _ b => b | Edge3 _ b _ => b end.
(** [std::intptr_t(std::get<std::tuple_size<edge_type>::value - 1>(edge))] *)
Definition get_last_intptr (edge : edge_type) : Z :=
  match edge with Edge2 _ b => intptr_of b | Edge3 _ _ w => w end.

(** A member function that may modify the graph returns its value
    together with the graph it leaves; a [const] member function returns
    its value only. *)
Definition M (A : Type) : Type := Graph -> result (A * Graph).

(** ** Dereferencing *)

Definition at_vertex (g : Graph) (p : VertexNodePtr) : result (nat * VertexNode) :=
  match p with
  | Some i =>
      match m_vertex_node_list g !! i with
      | Some n => Ok (i, n)
      | None => Undefined
      end
  | None => Undefined
  end.

Definition at_edge (g : Graph) (p : EdgeNodePtr) : result (nat * nat * EdgeNode) :=
  match p with
  | Some (f, k) =>
      let* (_, n) := at_vertex g (Some f) in
      match edge_list n !! k with
      | Some e => Ok (f, k, e)
      | None => Undefined
      end
  | None => Undefined
  end.

(** The value of the [next] field of the record at position [i] of [l]. *)
Definition next_of {A : Type} (l : list A) (i : nat) : option nat :=
  match l !! S i with
  | Some _ => Some (S i)
  | None => None
  end.

(** [p->next = q] for a fresh record [q]: whatever followed [p] is
    unlinked and [q] becomes the record after [p]. *)
Definition link_next {A : Type} (l : list A) (i : nat) (q : A) : list A :=
  take (S i) l ++ [q].

(** ** Vertex cursor *)

Definition VertexIter_incr (g : Graph) (it : VertexIter) : result VertexIter :=
  match vi_vertex_node it with
  | None => Throw "End of iteration reached"
  | Some _ =>
      let* (i, _) := at_vertex g (vi_vertex_node it) in
      Ok (mkVertexIter (next_of (m_vertex_node_list g) i))
  end.

Definition VertexIter_deref (g : Graph) (it : VertexIter) : result V :=
  match vi_vertex_node it with
  | None => Throw "Invalid iterator"
  | Some _ =>
      let* (_, n) := at_vertex g (vi_vertex_node it) in
      Ok (vertex n)
  end.

Definition getEdges (g : Graph) (it : VertexIter) : result EdgeIter :=
  let* (i, n) := at_vertex g (vi_vertex_node it) in
  Ok (mkEdgeIter (vi_vertex_node it)
                 (match edge_list n with [] => None | _ :: _ => Some (i, 0%nat) end)).

(** ** Edge cursor *)

Definition EdgeIter_incr (g : Graph) (it : EdgeIter) : result EdgeIter :=
  match m_edge_node it with
  | None => Throw "End of iteration reached"
  | Some _ =>
      let* (f, k, _) := at_edge g (m_edge_node it) in
      let* (_, n) := at_vertex g (Some f) in
      Ok (mkEdgeIter (m_vertex_node it)
                     (match next_of (edge_list n) k with
                      | Some k' => Some (f, k')
                      | None => None
                      end))
  end.

Definition getTuple (Weighted : bool) (g : Graph) (it : EdgeIter) : result edge_type :=
  let* (_, src) := at_vertex g (m_vertex_node it) in
  let* (_, _, e) := at_edge g (m_edge_node it) in
  let* (_, dst) := at_vertex g (vertex_node e) in
  Ok (if Weighted then Edge3 (vertex src) (vertex dst) (weight e)
      else Edge2 (vertex src) (vertex dst)).

Definition EdgeIter_deref (Weighted : bool) (g : Graph) (it : EdgeIter) : result edge_type :=
  match m_edge_node it with
  | None => Throw "Invalid iterator"
  | Some _ => getTuple Weighted g it
  end.

(** ** Graph: lookup *)

(** The [while] loop of [findVertexHelper], started at the record at
    position [search], the head of [l]. *)
Fixpoint findVertexHelper_loop (value : V) (search : nat) (l : list VertexNode)
  : VertexNodePtr :=
  match l with
  | [] => None
  | n :: rest =>
      match rest with
      | [] => Some search
      | _ :: _ =>
          if negb (vertex_equal value (vertex n))
          then findVertexHelper_loop value (S search) rest
          else Some search
      end
  end.

Definition findVertexHelper (g : Graph) (value : V) : VertexNodePtr :=
  match m_vertex_node_list g with
  | [] => None
  | _ :: _ => findVertexHelper_loop value 0 (m_vertex_node_list g)
  end.

Definition findVertex (g : Graph) (value : V) : result VertexIter :=
  let search := findVertexHelper g value in
  match search with
  | None => Ok vertex_end
  | Some _ =>
      let* (_, n) := at_vertex g search in
      if negb (vertex_equal (vertex n) value) then Ok vertex_end
      else Ok (mkVertexIter search)
  end.

(** The [while] loop of [findEdgeHelper] over the edge list [l], started
    at position [search]. *)
Fixpoint findEdgeHelper_loop (to : VertexNodePtr) (search : nat) (l : list EdgeNode)
  : option nat :=
  match l with
  | [] => None
  | e :: rest =>
      match rest with
      | [] => Some search
      | _ :: _ =>
          if negb (vptr_eqb (vertex_node e) to)
          then findEdgeHelper_loop to (S search) rest
          else Some search
      end
  end.

Definition findEdgeHelper (g : Graph) (from to : VertexNodePtr) : result EdgeNodePtr :=
  match from, to with
  | Some _, Some _ =>
      let* (f, n) := at_vertex g from in
      Ok (match findEdgeHelper_loop to 0 (edge_list n) with
          | Some k => Some (f, k)
          | None => None
          end)
  | _, _ => Ok None
  end.

Definition findEdge (g : Graph) (edge : edge_type) : result EdgeIter :=
  let* vi_from := findVertex g (get0 edge) in
  let from := vi_vertex_node vi_from in
  let* vi_to := findVertex g (get1 edge) in
  let to := vi_vertex_node vi_to in
  let* edge_search := findEdgeHelper g from to in
  match edge_search with
  | None => Ok (mkEdgeIter from edge_search)
  | Some _ =>
      let* (_, _, e) := at_edge g edge_search in
      if negb (vptr_eqb (vertex_node e) to) then Ok edge_end
      else Ok (mkEdgeIter from edge_search)
  end.

(** [Graph::begin()] *)
Definition vertex_begin (g : Graph) : VertexIter :=
  mkVertexIter (match m_vertex_node_list g with [] => None | _ :: _ => Some 0%nat end).

(** ** Graph: insertion *)

Definition addVertex (value : V) : M (VertexIter * bool) := fun g =>
  match m_vertex_node_list g with
  | [] =>
      Ok (mkVertexIter (Some 0%nat), true,
          mkGraph [mkVertexNode value []] (size_incr (m_size g)))
  | _ :: _ =>
      let search := findVertexHelper g value in
      let* (i, n) := at_vertex g search in
      if vertex_equal (vertex n) value then Ok (mkVertexIter search, false, g)
      else
        Ok (mkVertexIter (Some (S i)), true,
            mkGraph (link_next (m_vertex_node_list g) i (mkVertexNode value []))
                    (size_incr (m_size g)))
  end.

(** [addVertex(std::initializer_list<vertex_type>)] *)
Fixpoint addVertex_list (list : list V) : M unit := fun g =>
  match list with
  | [] => Ok (tt, g)
  | value :: rest =>
      let* (_, g1) := addVertex value g in
      addVertex_list rest g1
  end.

(** [setEdgeWeight<Weighted>]: the unweighted record has no weight. *)
Definition setEdgeWeight (Weighted : bool) (edge : EdgeNode) (w : Z) : EdgeNode :=
  if Weighted then mkEdgeNode w (vertex_node edge) else edge.

(** The vertex record at position [f] gets [es] as its edge list. *)
Definition store_edge_list (g : Graph) (f : nat) (n : VertexNode) (es : list EdgeNode)
  : Graph :=
  mkGraph (<[f := mkVertexNode (vertex n) es]> (m_vertex_node_list g)) (m_size g).

Definition addEdgeHelper (Weighted : bool) (from to : VertexNodePtr) (w : Z)
  : M (EdgeIter * bool) := fun g =>
  let* (f, n) := at_vertex g from in
  match edge_list n with
  | [] =>
      Ok (mkEdgeIter from (Some (f, 0%nat)), true,
          store_edge_list g f n [setEdgeWeight Weighted (mkEdgeNode 0 to) w])
  | _ :: _ =>
      let* edge_search := findEdgeHelper g from to in
      let* (_, k, e) := at_edge g edge_search in
      if vptr_eqb (vertex_node e) to then Ok (mkEdgeIter from edge_search, false, g)
      else
        Ok (mkEdgeIter from (Some (f, S k)), true,
            store_edge_list g f n
              (link_next (edge_list n) k (setEdgeWeight Weighted (mkEdgeNode 0 to) w)))
  end.

(** [addEdgeCaller<Directed>] *)
Definition addEdgeCaller (Directed Weighted : bool) (edge : edge_type)
  : M (EdgeIter * bool) := fun g =>
  let* (vi_from, _, g1) := addVertex (get0 edge) g in
  let vertex_from_node := vi_vertex_node vi_from in
  let* (vi_to, _, g2) := addVertex (get1 edge) g1 in
  let vertex_to_node := vi_vertex_node vi_to in
  if Directed then
    addEdgeHelper Weighted vertex_from_node vertex_to_node
      (int_of_intptr (get_last_intptr edge)) g2
  else
    let* (_, g3) := addEdgeHelper Weighted vertex_to_node vertex_from_node
                      (int_of_intptr (get_last_intptr edge)) g2 in
    addEdgeHelper Weighted vertex_from_node vertex_to_node
      (int_of_intptr (get_last_intptr edge)) g3.

Definition addEdge (Directed Weighted : bool) (edge : edge_type) : M (EdgeIter * bool) :=
  addEdgeCaller Directed Weighted edge.

(** [addEdge(std::initializer_list<edge_type>)] *)
Fixpoint addEdge_list (Directed Weighted : bool) (list : list edge_type) : M unit :=
  fun g =>
  match list with
  | [] => Ok (tt, g)
  | edge :: rest =>
      let* (_, g1) := addEdge Directed Weighted edge g in
      addEdge_list Directed Weighted rest g1
  end.

(** ** Construction, copy, teardown *)

(** [destroyGraph], also the body of [~Graph()]: the two loops release
    every edge record and every vertex record, of which the embedding
    keeps no trace; head and count are reset. *)
Definition destroyGraph : M unit := fun _ => Ok (tt, mkGraph [] 0).

(** [Graph()] *)
Definition Graph_ctor : Graph := mkGraph [] 0.

(** [Graph(std::initializer_list<edge_type>)] *)
Definition Graph_ctor_list (Directed Weighted : bool) (list : list edge_type)
  : result Graph :=
  let* (_, g) := addEdge_list Directed Weighted list Graph_ctor in Ok g.

(** The inner loop of [operator=]: the edge cursor runs over the edge
    records at positions [k], [k+1], ... of the vertex record at position
    [i] of the source [src]. *)
Fixpoint assign_edges (Directed Weighted : bool) (src : Graph) (i k : nat)
  (records : list EdgeNode) : M unit := fun g =>
  match records with
  | [] => Ok (tt, g)
  | _ :: rest =>
      let* edge := EdgeIter_deref Weighted src (mkEdgeIter (Some i) (Some (i, k))) in
      let* (_, g1) := addEdge Directed Weighted edge g in
      assign_edges Directed Weighted src i (S k) rest g1
  end.

(** The outer loop of [operator=] over the vertex records of [src] from
    position [i] on. *)
Fixpoint assign_vertices (Directed Weighted : bool) (src : Graph) (i : nat)
  (records : list VertexNode) : M unit := fun g =>
  match records with
  | [] => Ok (tt, g)
  | n :: rest =>
      let* (_, g1) := assign_edges Directed Weighted src i 0 (edge_list n) g in
      assign_vertices Directed Weighted src (S i) rest g1
  end.

(** The right-hand side of an assignment is another graph object or the
    assigned object itself. *)
Inductive graph_ref : Type :=
| Other (g : Graph)
| This.

(** [operator=(const Graph&)] *)
Definition operator_assign (Directed Weighted : bool) (rhs : graph_ref) : M unit :=
  fun this =>
  let* (_, this1) := destroyGraph this in
  let src := match rhs with Other g => g | This => this1 end in
  assign_vertices Directed Weighted src 0 (m_vertex_node_list src) this1.

(** [Graph(const Graph&)] *)
Definition Graph_ctor_copy (Directed Weighted : bool) (g : Graph) : result Graph :=
  let* (_, this) := operator_assign Directed Weighted (Other g) Graph_ctor in Ok this.

(** ** The public operations that modify a graph *)

Inductive public_op : Type :=
| op_addVertex (value : V)
| op_addVertex_list (values : list V)
| op_addEdge (edge : edge_type)
| op_addEdge_list (edges : list edge_type)
| op_assign (rhs : graph_ref)
| op_destroy.

Definition run_op (Directed Weighted : bool) (o : public_op) : M unit := fun g =>
  match o with
  | op_addVertex value => let* (_, g') := addVertex value g in Ok (tt, g')
  | op_addVertex_list values => addVertex_list values g
  | op_addEdge edge => let* (_, g') := addEdge Directed Weighted edge g in Ok (tt, g')
  | op_addEdge_list edges => addEdge_list Directed Weighted edges g
  | op_assign rhs => operator_assign Directed Weighted rhs g
  | op_destroy => destroyGraph g
  end.

(** A sequence of public operations, run in order. *)
Fixpoint run_ops (Directed Weighted : bool) (ops : list public_op) : M unit := fun g =>
  match ops with
  | [] => Ok (tt, g)
  | o :: rest =>
      let* (_, g1) := run_op Directed Weighted o g in
      run_ops Directed Weighted rest g1
  end.

(** The operations that insert, and the edge tuples they are given. *)
Definition is_insertion (o : public_op) : bool :=
  match o with
  | op_assign _ | op_destroy => false
  | _ => true
  end.

Definition inserted_edges_of (o : public_op) : list edge_type :=
  match o with
  | op_addEdge edge => [edge]
  | op_addEdge_list edges => edges
  | _ => []
  end.

Definition inserted_edges (ops : list public_op) : list edge_type :=
  flat_map inserted_edges_of ops.

(** The operations that insert vertices only, and the values they are
    given. *)
Definition is_vertex_insertion (o : public_op) : bool :=
  match o with
  | op_addVertex _ | op_addVertex_list _ => true
  | _ => false
  end.

Definition inserted_values_of (o : public_op) : list V :=
  match o with
  | op_addVertex value => [value]
  | op_addVertex_list values => values
  | _ => []
  end.

Definition inserted_values (ops : list public_op) : list V :=
  flat_map inserted_values_of ops.

(** ** Loops over cursors *)

(** A loop written with the cursor operations runs for at most [fuel]
    rounds; [None] tells that the rounds did not suffice. *)
Definition and_then {A B : Type} (c : result A) (k : A -> option (result B))
  : option (result B) :=
  match c with
  | Ok a => k a
  | Throw what => Some (Throw what)
  | Undefined => Some Undefined
  end.

(** [for (auto v = start; v != g.end(); ++v) out.push_back( *v );] *)
Fixpoint collect_vertices (fuel : nat) (g : Graph) (v : VertexIter)
  : option (result (list V)) :=
  if VertexIter_eq v vertex_end then Some (Ok [])
  else
    match fuel with
    | O => None
    | S fuel' =>
        and_then (VertexIter_deref g v) (fun value =>
        and_then (VertexIter_incr g v) (fun v' =>
        match collect_vertices fuel' g v' with
        | Some r => Some (let* values := r in Ok (value :: values))
        | None => None
        end))
    end.

(** [for (auto e = start; e != g.edge_end(); ++e) out.push_back( *e );] *)
Fixpoint collect_edges (Weighted : bool) (fuel : nat) (g : Graph) (e : EdgeIter)
  : option (result (list edge_type)) :=
  if EdgeIter_eq e edge_end then Some (Ok [])
  else
    match fuel with
    | O => None
    | S fuel' =>
        and_then (EdgeIter_deref Weighted g e) (fun edge =>
        and_then (EdgeIter_incr g e) (fun e' =>
        match collect_edges Weighted fuel' g e' with
        | Some r => Some (let* edges := r in Ok (edge :: edges))
        | None => None
        end))
    end.

(** The two loops of [operator=] as the source writes them:
    [for (auto e = v.getEdges(); e != g.edge_end(); ++e) addEdge( *e );] *)
Fixpoint assign_edge_loop (Directed Weighted : bool) (fuel : nat) (src : Graph)
  (e : EdgeIter) (this : Graph) : option (result (unit * Graph)) :=
  if EdgeIter_eq e edge_end then Some (Ok (tt, this))
  else
    match fuel with
    | O => None
    | S fuel' =>
        and_then (EdgeIter_deref Weighted src e) (fun edge =>
        and_then (addEdge Directed Weighted edge this) (fun r =>
        and_then (EdgeIter_incr src e) (fun e' =>
        assign_edge_loop Directed Weighted fuel' src e' (snd r))))
    end.

(** [for (auto v = g.begin(); v != g.end(); ++v) ...] *)
Fixpoint assign_vertex_loop (Directed Weighted : bool) (fuel fuel_edges : nat)
  (src : Graph) (v : VertexIter) (this : Graph) : option (result (unit * Graph)) :=
  if VertexIter_eq v vertex_end then Some (Ok (tt, this))
  else
    match fuel with
    | O => None
    | S fuel' =>
        and_then (getEdges src v) (fun e =>
        match assign_edge_loop Directed Weighted fuel_edges src e this with
        | Some r =>
            and_then r (fun r1 =>
            and_then (VertexIter_incr src v) (fun v' =>
            assign_vertex_loop Directed Weighted fuel' fuel_edges src v' (snd r1)))
        | None => None
        end)
    end.

(** [operator=(const Graph&)] with its loops over cursors. *)
Definition operator_assign_loops (Directed Weighted : bool) (fuel fuel_edges : nat)
  (rhs : graph_ref) (this : Graph) : option (result (unit * Graph)) :=
  and_then (destroyGraph this) (fun r =>
  let this1 := snd r in
  let src := match rhs with Other g => g | This => this1 end in
  assign_vertex_loop Directed Weighted fuel fuel_edges src (vertex_begin src) this1).

End GraphModel.

Arguments Edge2 {V} from to.
Arguments Edge3 {V} from to w.
Arguments Other {V} g.
Arguments This {V}.

(** ** Observations used in the statements *)

Definition is_throw {A : Type} (r : result A) : bool :=
  match r with Throw _ => true | _ => false end.

(** A cursor compares equal to the end cursor. *)
Definition vertex_at_end (it : VertexIter) : bool := VertexIter_eq it vertex_end.
Definition edge_at_end (it : EdgeIter) : bool := EdgeIter_eq it edge_end.

(** Number of distinct elements of [l] under the relation [same]: an
    element is counted where it occurs for the last time. *)
Fixpoint count_distinct {A : Type} (same : A -> A -> bool) (l : list A) : nat :=
  match l with
  | [] => 0%nat
  | x :: rest =>
      ((if existsb (same x) rest then 0 else 1) + count_distinct same rest)%nat
  end.

(** The same count, of the elements that are not [present] already, each
    distinct element counted [w] times. *)
Fixpoint count_new {A : Type} (w : A -> nat) (same : A -> A -> bool)
  (present : A -> bool) (l : list A) : nat :=
  match l with
  | [] => 0%nat
  | x :: rest =>
      ((if present x || existsb (same x) rest then 0 else w x)
       + count_new w same present rest)%nat
  end.

(** The elements of [l] that no earlier element of [l] and no element of
    [seen] equals, in the order of [l]. *)
Fixpoint first_occurrences {A : Type} (same : A -> A -> bool) (seen l : list A)
  : list A :=
  match l with
  | [] => []
  | x :: rest =>
      if existsb (same x) seen then first_occurrences same seen rest
      else x :: first_occurrences same (seen ++ [x]) rest
  end.

(** Position of the first element satisfying [p]. *)
Fixpoint first_index {A : Type} (p : A -> bool) (l : list A) : option nat :=
  match l with
  | [] => None
  | x :: rest => if p x then Some 0%nat else option_map S (first_index p rest)
  end.

Section Observations.

Context {V : Type}.
Variable vertex_equal : V -> V -> bool.

(** Position of the first vertex record that [value] equals, the
    predicate applied as the scan of [findVertexHelper] applies it. *)
Definition vertex_pos (value : V) (l : list (VertexNode (V:=V))) : option nat :=
  first_index (fun n => vertex_equal value (vertex n)) l.

(** Position of the first edge record whose destination is [to]. *)
Definition edge_pos (to : VertexNodePtr) (es : list EdgeNode) : option nat :=
  first_index (fun e => vptr_eqb (vertex_node e) to) es.

(** The first edge record from the vertex record at position [i] to the
    one at position [j]. *)
Definition edge_between (l : list (VertexNode (V:=V))) (i j : nat) : option EdgeNode :=
  match l !! i with
  | Some n =>
      match edge_pos (Some j) (edge_list n) with
      | Some k => edge_list n !! k
      | None => None
      end
  | None => None
  end.

(** The record pointer that [findEdge] reports for the endpoints [a], [b]:
    null when an endpoint or the edge is missing. *)
Definition edge_cursor (l : list (VertexNode (V:=V))) (f t : nat) : EdgeNodePtr :=
  match l !! f with
  | Some n =>
      match edge_pos (Some t) (edge_list n) with
      | Some k => Some (f, k)
      | None => None
      end
  | None => None
  end.

Definition find_edge_ptr (l : list (VertexNode (V:=V))) (a b : V) : EdgeNodePtr :=
  match vertex_pos a l, vertex_pos b l with
  | Some f, Some t => edge_cursor l f t
  | _, _ => None
  end.

(** [findEdge] succeeds for the endpoints of [edge]. *)
Definition has_edge (l : list (VertexNode (V:=V))) (edge : edge_type (V:=V)) : bool :=
  match find_edge_ptr l (get0 edge) (get1 edge) with
  | Some _ => true
  | None => false
  end.

(** Two tuples denote the same unordered pair of endpoints. *)
Definition same_edge (e1 e2 : edge_type (V:=V)) : bool :=
  (vertex_equal (get0 e1) (get0 e2) && vertex_equal (get1 e1) (get1 e2))
  || (vertex_equal (get0 e1) (get1 e2) && vertex_equal (get1 e1) (get0 e2)).

Definition is_loop (e : edge_type (V:=V)) : bool :=
  vertex_equal (get0 e) (get1 e).

(** Number of records an undirected graph ends up storing for an edge:
    the insertion of the mirror image of a self-loop is the self-loop
    itself. *)
Definition records_per_edge (e : edge_type (V:=V)) : nat :=
  if is_loop e then 1%nat else 2%nat.

(** An edge record joins the vertex records at positions [i] and [j]. *)
Definition linked (l : list (VertexNode (V:=V))) (i j : nat) : bool :=
  match edge_between l i j with Some _ => true | None => false end.

(** The self-loops of a sequence of tuples, and the other tuples. *)
Definition loops (edges : list (edge_type (V:=V))) : list (edge_type (V:=V)) :=
  List.filter is_loop edges.
Definition proper_edges (edges : list (edge_type (V:=V))) : list (edge_type (V:=V)) :=
  List.filter (fun e => negb (is_loop e)) edges.

(** The tuple of the mirror edge. *)
Definition mirror_edge (e : edge_type (V:=V)) : edge_type (V:=V) :=
  match e with
  | Edge2 a b => Edge2 b a
  | Edge3 a b w => Edge3 b a w
  end.

(** The tuple that dereferencing a cursor at the edge record [e] of the
    vertex record [n] yields, when [e] points at a record of [l]. *)
Definition record_tuple (Weighted : bool) (l : list (VertexNode (V:=V)))
  (n : VertexNode (V:=V)) (e : EdgeNode) : option (edge_type (V:=V)) :=
  match vertex_node e with
  | Some t =>
      match l !! t with
      | Some m =>
          Some (if Weighted then Edge3 (vertex n) (vertex m) (weight e)
                else Edge2 (vertex n) (vertex m))
      | None => None
      end
  | None => None
  end.

Fixpoint record_tuples (Weighted : bool) (l : list (VertexNode (V:=V)))
  (n : VertexNode (V:=V)) (es : list EdgeNode) : option (list (edge_type (V:=V))) :=
  match es with
  | [] => Some []
  | e :: rest =>
      match record_tuple Weighted l n e, record_tuples Weighted l n rest with
      | Some t, Some ts => Some (t :: ts)
      | _, _ => None
      end
  end.

(** The tuples of all edge records, vertex by vertex, in list order. *)
Fixpoint graph_tuples_from (Weighted : bool) (l : list (VertexNode (V:=V)))
  (records : list (VertexNode (V:=V))) : option (list (edge_type (V:=V))) :=
  match records with
  | [] => Some []
  | n :: rest =>
      match record_tuples Weighted l n (edge_list n),
            graph_tuples_from Weighted l rest with
      | Some ts, Some ts' => Some (ts ++ ts')
      | _, _ => None
      end
  end.

Definition graph_tuples (Weighted : bool) (g : Graph (V:=V))
  : option (list (edge_type (V:=V))) :=
  graph_tuples_from Weighted (m_vertex_node_list g) (m_vertex_node_list g).

(** The cursor at position [i] of a list, the end cursor past its last
    record. *)
Definition cursor_at {A : Type} (l : list A) (i : nat) : option nat :=
  match l !! i with Some _ => Some i | None => None end.

(** The vertex values an edge sequence mentions, in order. *)
Definition endpoints (edges : list (edge_type (V:=V))) : list V :=
  flat_map (fun e => [get0 e; get1 e]) edges.

(** Two tuples denote the same ordered pair of endpoints. *)
Definition same_ordered (e1 e2 : edge_type (V:=V)) : bool :=
  vertex_equal (get0 e1) (get0 e2) && vertex_equal (get1 e1) (get1 e2).

(** [value] equals an endpoint of the tuple [e]. *)
Definition touches (value : V) (e : edge_type (V:=V)) : bool :=
  vertex_equal value (get0 e) || vertex_equal value (get1 e).


(** [l'] holds the records of [l] at the same positions, with the same
    values and with edge lists that start with the old ones. *)
Definition extends (l l' : list (VertexNode (V:=V))) : Prop :=
  forall i n, l !! i = Some n ->
    exists n', l' !! i = Some n' /\ vertex n' = vertex n /\
               forall k e, edge_list n !! k = Some e -> edge_list n' !! k = Some e.

(** Every edge record points at a vertex record of the list. *)
Definition targets_valid (l : list (VertexNode (V:=V))) : Prop :=
  forall i n k e, l !! i = Some n -> edge_list n !! k = Some e ->
    exists t m, vertex_node e = Some t /\ l !! t = Some m.

(** Number of edge records stored in the whole graph. *)
Definition edge_records (g : Graph (V:=V)) : nat :=
  sum_list_with (fun n => length (edge_list n)) (m_vertex_node_list g).

(** The count field tells the number of vertex records linked from the head. *)
Definition count_ok (g : Graph (V:=V)) : Prop :=
  m_size g = Z.of_nat (length (m_vertex_node_list g)).

(** No two vertex records hold values that the predicate equates. *)
Definition unique_vertices (l : list (VertexNode (V:=V))) : Prop :=
  forall i j ni nj, l !! i = Some ni -> l !! j = Some nj ->
    vertex_equal (vertex ni) (vertex nj) = true -> i = j.

(** Every edge has its mirror image, with the same weight. *)
Definition mirrored (l : list (VertexNode (V:=V))) : Prop :=
  forall i j, weight <$> edge_between l i j = weight <$> edge_between l j i.

(** What vertex insertion does to the vertex list, and where the value
    ends up. *)
Definition insert_vertex (value : V) (l : list (VertexNode (V:=V)))
  : nat * list (VertexNode (V:=V)) :=
  match vertex_pos value l with
  | Some i => (i, l)
  | None => (length l, l ++ [mkVertexNode value []])
  end.

(** What [addEdgeHelper] does to the vertex list. *)
Definition insert_edge (Weighted : bool) (f t : nat) (w : Z)
  (l : list (VertexNode (V:=V))) : list (VertexNode (V:=V)) :=
  match l !! f with
  | Some n =>
      match edge_pos (Some t) (edge_list n) with
      | Some _ => l
      | None =>
          <[f := mkVertexNode (vertex n)
                   (edge_list n ++ [mkEdgeNode (if Weighted then w else 0) (Some t)])]> l
      end
  | None => l
  end.

(** [value] equals some vertex record. *)
Definition has_vertex (l : list (VertexNode (V:=V))) (value : V) : bool :=
  match vertex_pos value l with Some _ => true | None => false end.

(** The count field holds the number of records as a [size_t] does. *)
Definition size_rep (g : Graph (V:=V)) : Prop :=
  m_size g = Z.of_nat (length (m_vertex_node_list g)) mod size_type_modulus.

(** The count field after the insertion of [value]. *)
Definition size_after (value : V) (l : list (VertexNode (V:=V))) (sz : Z) : Z :=
  match vertex_pos value l with
  | Some _ => sz
  | None => size_incr sz
  end.

End Observations.

(** ** Graphs that the public interface produces *)

Section Reachable.

Context {V : Type}.
Variable vertex_equal : V -> V -> bool.
Variable intptr_of : V -> Z.

Inductive reachable (Directed Weighted : bool) : Graph (V:=V) -> Prop :=
| reachable_ctor : reachable Directed Weighted Graph_ctor
| reachable_op (o : public_op) (g g' : Graph (V:=V)) :
    reachable Directed Weighted g ->
    run_op vertex_equal intptr_of Directed Weighted o g = Ok (tt, g') ->
    reachable Directed Weighted g'.

(** What every such graph satisfies. *)
Definition well_formed (Directed : bool) (g : Graph (V:=V)) : Prop :=
  size_rep g /\
  unique_vertices vertex_equal (m_vertex_node_list g) /\
  targets_valid (m_vertex_node_list g) /\
  (Directed = false -> mirrored (m_vertex_node_list g)).

End Reachable.

(** ** Two sentences of the specification, as it words them *)

Section AsSpecified.

Context {V : Type}.
Variable vertex_equal : V -> V -> bool.
Variable intptr_of : V -> Z.

(** "An undirected graph always carries exactly twice the edge records of
    its directed edge set": after the insertion of [edges] the number of
    edge records is twice the number of distinct unordered edges. *)
Definition records_twice_distinct (Weighted : bool) (edges : list (edge_type (V:=V)))
  : Prop :=
  forall g,
    Graph_ctor_list vertex_equal intptr_of false Weighted edges = Ok g ->
    edge_records g = (2 * count_distinct (same_edge vertex_equal) edges)%nat.

(** "After [addEdge((a,b,w))] both [findEdge((a,b))] and [findEdge((b,a))]
    return non-end cursors and both edges dereference to the same weight
    [w]", in a weighted undirected graph [g]. *)
Definition mirrored_with_given_weight (g : Graph (V:=V)) (a b : V) (w : Z) : Prop :=
  forall r g',
    addEdge vertex_equal intptr_of false true (Edge3 a b w) g = Ok (r, g') ->
    exists it_ab it_ba va vb va' vb',
      findEdge vertex_equal g' (Edge3 a b w) = Ok it_ab /\
      edge_at_end it_ab = false /\
      findEdge vertex_equal g' (Edge3 b a w) = Ok it_ba /\
      edge_at_end it_ba = false /\
      EdgeIter_deref true g' it_ab = Ok (Edge3 va vb w) /\
      EdgeIter_deref true g' it_ba = Ok (Edge3 vb' va' w).

End AsSpecified.

(** ** Sample graphs over integer vertices with [std::equal_to<int>] *)

(** Two vertices, no edge. *)
Definition sample_vertices : Graph (V:=Z) :=
  mkGraph [mkVertexNode 1 []; mkVertexNode 2 []] 2.

(** With the asymmetric predicate [<=]: the vertices 7 and 5. *)
Definition sample_descending : Graph (V:=Z) :=
  mkGraph [mkVertexNode 7 []; mkVertexNode 5 []] 2.

(** Undirected and weighted: the edge between 1 and 2 with weight 5. *)
Definition sample_weighted : Graph (V:=Z) :=
  mkGraph [mkVertexNode 1 [mkEdgeNode 5 (Some 1%nat)];
           mkVertexNode 2 [mkEdgeNode 5 (Some 0%nat)]] 2.

(** Directed and unweighted: the edge from 1 to 2, and the vertex 3 that
    no edge touches. *)
Definition sample_isolated : Graph (V:=Z) :=
  mkGraph [mkVertexNode 1 [mkEdgeNode 0 (Some 1%nat)];
           mkVertexNode 2 [];
           mkVertexNode 3 []] 3.

(** Undirected and weighted: the edges between 1 and 2 with weight 5 and
    between 1 and 3 with weight 7, inserted in that order. *)
Definition sample_star : Graph (V:=Z) :=
  mkGraph [mkVertexNode 1 [mkEdgeNode 5 (Some 1%nat); mkEdgeNode 7 (Some 2%nat)];
           mkVertexNode 2 [mkEdgeNode 5 (Some 0%nat)];
           mkVertexNode 3 [mkEdgeNode 7 (Some 0%nat)]] 3.

(** [std::intptr_t(v)] of an [int]. *)
Definition intptr_of_int (v : Z) : Z := v.

Lemma is_throw_rbind {A B : Type} (c : result A) (k : A -> result B) :
  is_throw c = false -> (forall a, is_throw (k a) = false) ->
  is_throw (rbind c k) = false.
Proof. intros Hc Hk. destruct c; cbn; [apply Hk | discriminate Hc | reflexivity]. Qed.

(** * Cursors *)

Section Cursors.

Context {V : Type}.
Implicit Types (g : Graph (V:=V)) (i f k : nat).

Lemma vertex_at_end_None (it : VertexIter) :
  vertex_at_end it = true <-> vi_vertex_node it = None.
Proof.
  destruct it as [[i|]]; cbn; split; intros H; congruence.
Qed.

Lemma edge_at_end_None (it : EdgeIter) :
  edge_at_end it = true <-> m_edge_node it = None.
Proof.
  destruct it as [v [[f k]|]]; cbn; split; intros H; congruence.
Qed.

Lemma at_vertex_Some g i n :
  m_vertex_node_list g !! i = Some n -> at_vertex g (Some i) = Ok (i, n).
Proof. intros H. cbn. now rewrite H. Qed.

Lemma at_vertex_not_throw g p : is_throw (at_vertex g p) = false.
Proof.
  destruct p as [i|]; cbn; [|reflexivity].
  now destruct (m_vertex_node_list g !! i).
Qed.

Lemma at_edge_Some g f k n e :
  m_vertex_node_list g !! f = Some n -> edge_list n !! k = Some e ->
  at_edge g (Some (f, k)) = Ok (f, k, e).
Proof. intros Hn He. cbn. rewrite Hn. cbn. now rewrite He. Qed.

Lemma at_edge_not_throw g p : is_throw (at_edge g p) = false.
Proof.
  destruct p as [[f k]|]; cbn; [|reflexivity].
  destruct (m_vertex_node_list g !! f) as [n|]; cbn; [|reflexivity].
  now destruct (edge_list n !! k).
Qed.

Lemma EdgeIter_deref_record (Weighted : bool) g f k n e t m :
  m_vertex_node_list g !! f = Some n -> edge_list n !! k = Some e ->
  vertex_node e = Some t -> m_vertex_node_list g !! t = Some m ->
  EdgeIter_deref Weighted g (mkEdgeIter (Some f) (Some (f, k)))
  = Ok (if Weighted then Edge3 (vertex n) (vertex m) (weight e)
        else Edge2 (vertex n) (vertex m)).
Proof.
  intros Hn He Ht Hm. unfold EdgeIter_deref, getTuple. cbn [m_edge_node m_vertex_node].
  rewrite (at_vertex_Some _ _ _ Hn). cbn [rbind].
  rewrite (at_edge_Some _ _ _ _ _ Hn He). cbn [rbind].
  rewrite Ht, (at_vertex_Some _ _ _ Hm). reflexivity.
Qed.

(** C7. Dereferencing a cursor at the end sentinel throws the
    invalid-state error and advancing it throws the end-of-iteration
    error, for vertex cursors and for edge cursors alike; a cursor that is
    not at the sentinel never makes either operation throw, and on a
    cursor that designates a record both operations return normally. *)
Theorem cursor_error_conditions (Weighted : bool) g :
  (forall it : VertexIter, vertex_at_end it = true ->
     VertexIter_deref g it = Throw "Invalid iterator" /\
     VertexIter_incr g it = Throw "End of iteration reached") /\
  (forall it : EdgeIter, edge_at_end it = true ->
     EdgeIter_deref Weighted g it = Throw "Invalid iterator" /\
     EdgeIter_incr g it = Throw "End of iteration reached") /\
  (forall it : VertexIter, vertex_at_end it = false ->
     is_throw (VertexIter_deref g it) = false /\
     is_throw (VertexIter_incr g it) = false) /\
  (forall it : EdgeIter, edge_at_end it = false ->
     is_throw (EdgeIter_deref Weighted g it) = false /\
     is_throw (EdgeIter_incr g it) = false) /\
  (forall i n, m_vertex_node_list g !! i = Some n ->
     VertexIter_deref g (mkVertexIter (Some i)) = Ok (vertex n) /\
     VertexIter_incr g (mkVertexIter (Some i))
       = Ok (mkVertexIter (next_of (m_vertex_node_list g) i))) /\
  (forall f k n e dst,
     m_vertex_node_list g !! f = Some n -> edge_list n !! k = Some e ->
     at_vertex g (vertex_node e) = Ok dst ->
     EdgeIter_deref Weighted g (mkEdgeIter (Some f) (Some (f, k)))
       = Ok (if Weighted then Edge3 (vertex n) (vertex dst.2) (weight e)
             else Edge2 (vertex n) (vertex dst.2)) /\
     EdgeIter_incr g (mkEdgeIter (Some f) (Some (f, k)))
       = Ok (mkEdgeIter (Some f)
               (match next_of (edge_list n) k with
                | Some k' => Some (f, k')
                | None => None
                end))).
Proof.
  repeat apply conj.
  - intros it H. apply vertex_at_end_None in H.
    unfold VertexIter_deref, VertexIter_incr. now rewrite H.
  - intros it H. apply edge_at_end_None in H.
    unfold EdgeIter_deref, EdgeIter_incr. now rewrite H.
  - intros [[i|]] H; [|discriminate H].
    unfold VertexIter_deref, VertexIter_incr; cbn.
    now destruct (m_vertex_node_list g !! i).
  - intros [v [[f k]|]] H; [|discriminate H]. split.
    + unfold EdgeIter_deref, getTuple; cbn [m_edge_node m_vertex_node].
      apply is_throw_rbind; [apply at_vertex_not_throw|]. intros [i0 src].
      apply is_throw_rbind; [apply at_edge_not_throw|]. intros [[f0 k0] e].
      apply is_throw_rbind; [apply at_vertex_not_throw|]. now intros [j0 dst].
    + unfold EdgeIter_incr; cbn [m_edge_node m_vertex_node].
      apply is_throw_rbind; [apply at_edge_not_throw|]. intros [[f0 k0] e].
      apply is_throw_rbind; [apply at_vertex_not_throw|]. now intros [j0 n].
  - intros i n H.
    unfold VertexIter_deref, VertexIter_incr; cbn. now rewrite H.
  - intros f k n e dst Hn He Hdst. split.
    + unfold EdgeIter_deref, getTuple. cbn -[at_vertex at_edge].
      rewrite (at_vertex_Some _ _ _ Hn). cbn -[at_vertex at_edge].
      rewrite (at_edge_Some _ _ _ _ _ Hn He). cbn -[at_vertex at_edge].
      rewrite Hdst. now destruct dst.
    + unfold EdgeIter_incr. cbn -[at_vertex at_edge].
      rewrite (at_edge_Some _ _ _ _ _ Hn He). cbn -[at_edge].
      now rewrite Hn.
Qed.

(** C10. [getEdges] has no sentinel check: on the end cursor it reads
    through the null record pointer, which is neither a normal return nor
    a thrown error, whereas dereference and advance throw there; on a
    cursor that designates a vertex record it returns an edge cursor for
    that vertex positioned at the head of the record's edge list. *)
Theorem getEdges_unguarded g :
  getEdges g vertex_end = Undefined /\
  is_throw (getEdges g vertex_end) = false /\
  is_throw (VertexIter_deref g vertex_end) = true /\
  is_throw (VertexIter_incr g vertex_end) = true /\
  (forall i n, m_vertex_node_list g !! i = Some n ->
     getEdges g (mkVertexIter (Some i))
       = Ok (mkEdgeIter (Some i)
               (match edge_list n with
                | [] => None
                | _ :: _ => Some (i, 0%nat)
                end)) /\
     (forall e, edge_list n !! 0%nat = Some e ->
        exists it, getEdges g (mkVertexIter (Some i)) = Ok it /\
                   getStartVertex it = mkVertexIter (Some i) /\
                   at_edge g (m_edge_node it) = Ok (i, 0%nat, e))).
Proof.
  repeat apply conj; try reflexivity.
  intros i n H. split.
  - unfold getEdges; cbn. now rewrite H.
  - intros e He. unfold getEdges; cbn. rewrite H.
    destruct (edge_list n) as [|e0 es] eqn:El; [discriminate He|].
    eexists; repeat split.
    cbn [m_edge_node]. rewrite El.
    apply (at_edge_Some g i 0 n e H). now rewrite El.
Qed.

End Cursors.

(** * Scans *)

Section FirstIndex.

Context {A : Type}.
Implicit Types (p q : A -> bool) (l : list A).

Lemma first_index_Some p l i :
  first_index p l = Some i ->
  (exists x, l !! i = Some x /\ p x = true) /\
  (forall j y, (j < i)%nat -> l !! j = Some y -> p y = false).
Proof.
  revert i. induction l as [|x l IH]; intros i H; cbn in H; [discriminate|].
  destruct (p x) eqn:Hp.
  - inversion H; subst. split; [exists x; auto | intros j y Hj; lia].
  - destruct (first_index p l) as [i'|]; [|discriminate].
    inversion H; subst. destruct (IH i' eq_refl) as [IH1 IH2]. split.
    + exact IH1.
    + intros [|j] y Hj Hy; cbn in Hy; [congruence|].
      apply (IH2 j); [lia | exact Hy].
Qed.

Lemma first_index_lt p l i : first_index p l = Some i -> (i < length l)%nat.
Proof.
  intros H. apply first_index_Some in H as [[x [Hx _]] _].
  eapply lookup_lt_Some; eauto.
Qed.

Lemma first_index_None p l :
  first_index p l = None <-> (forall i x, l !! i = Some x -> p x = false).
Proof.
  induction l as [|x l IH]; cbn.
  - split; [intros _ i y Hy; discriminate | auto].
  - destruct (p x) eqn:Hp.
    + split; [discriminate|]. intros H. specialize (H 0%nat x eq_refl). congruence.
    + destruct (first_index p l) as [i'|]; cbn.
      * split; [discriminate|]. intros H.
        assert (Some i' = None) as E; [|discriminate E].
        apply IH. intros i y Hy. apply (H (S i)). exact Hy.
      * split; [|reflexivity]. intros _ [|i] y Hy; cbn in Hy.
        -- congruence.
        -- destruct IH as [IH _]. eapply IH; eauto.
Qed.

Lemma first_index_found p l i x :
  l !! i = Some x -> p x = true ->
  exists j, first_index p l = Some j /\ (j <= i)%nat.
Proof.
  intros Hx Hp. destruct (first_index p l) as [j|] eqn:E.
  - exists j; split; [reflexivity|].
    destruct (Nat.le_gt_cases j i) as [?|Hlt]; [assumption|].
    apply first_index_Some in E as [_ E]. specialize (E i x Hlt Hx). congruence.
  - rewrite first_index_None in E. specialize (E i x Hx). congruence.
Qed.

Lemma first_index_app p l1 l2 :
  first_index p (l1 ++ l2) =
  match first_index p l1 with
  | Some i => Some i
  | None => option_map (fun k => (length l1 + k)%nat) (first_index p l2)
  end.
Proof.
  induction l1 as [|x l1 IH]; cbn.
  - now destruct (first_index p l2).
  - destruct (p x); [reflexivity|]. rewrite IH.
    destruct (first_index p l1); [reflexivity|].
    now destruct (first_index p l2).
Qed.

Lemma first_index_ext p q l :
  (forall i x, l !! i = Some x -> p x = q x) -> first_index p l = first_index q l.
Proof.
  induction l as [|x l IH]; intros H; cbn; [reflexivity|].
  rewrite (H 0%nat x eq_refl), IH; [reflexivity|].
  intros i y Hy. apply (H (S i)). exact Hy.
Qed.

Lemma last_record_lookup (x : A) (rest : list A) :
  exists y, (x :: rest) !! (length (x :: rest) - 1)%nat = Some y.
Proof. apply lookup_lt_is_Some_2. cbn. lia. Qed.

End FirstIndex.

(** * Counting distinct elements *)

Section Counting.

Context {A : Type}.
Variable same : A -> A -> bool.
Variable w : A -> nat.

Hypothesis same_sym : forall x y, same x y = true -> same y x = true.
Hypothesis same_trans :
  forall x y z, same x y = true -> same y z = true -> same x z = true.
Hypothesis w_same : forall x y, same x y = true -> w x = w y.

Lemma same_compat_l x y z : same x y = true -> same x z = same y z.
Proof using same_sym same_trans.
  intros H. destruct (same x z) eqn:Hx, (same y z) eqn:Hy; try reflexivity.
  - rewrite (same_trans y x z) in Hy; auto.
  - rewrite (same_trans x y z) in Hx; auto.
Qed.

Lemma same_compat_r x y z : same x y = true -> same z x = same z y.
Proof using same_sym same_trans.
  intros H. destruct (same z x) eqn:Hx, (same z y) eqn:Hy; try reflexivity.
  - rewrite (same_trans z x y) in Hy; auto.
  - rewrite (same_trans z y x) in Hx; auto.
Qed.

Lemma existsb_same_compat x y (r : list A) :
  same x y = true -> existsb (same x) r = existsb (same y) r.
Proof using same_sym same_trans.
  intros H. induction r as [|z r IH]; cbn; [reflexivity|].
  now rewrite IH, (same_compat_l x y z H).
Qed.

Lemma existsb_same_filter (q : A -> bool) x (r : list A) :
  (forall z, same x z = true -> q z = true) ->
  existsb (same x) (List.filter q r) = existsb (same x) r.
Proof.
  intros H. induction r as [|z r IH]; cbn; [reflexivity|].
  destruct (q z) eqn:Hq; cbn; rewrite IH; [reflexivity|].
  destruct (same x z) eqn:Hs; [|reflexivity].
  apply H in Hs. congruence.
Qed.

Lemma count_new_ext (present present' : A -> bool) (r : list A) :
  (forall x, present x = present' x) ->
  count_new w same present r = count_new w same present' r.
Proof.
  intros H. induction r as [|x r IH]; cbn; [reflexivity|]. now rewrite H, IH.
Qed.

(** Making one more element present removes it from the count. *)
Lemma count_new_extend (present present' : A -> bool) e (r : list A) :
  (forall x y, same x y = true -> present x = present y) ->
  (forall x, present' x = present x || same x e) ->
  present e = false ->
  count_new w same present r
  = (count_new w same present' r + (if existsb (same e) r then w e else 0))%nat.
Proof using same_sym same_trans w_same.
  intros Hc Hp He. induction r as [|x r IH]; cbn; [reflexivity|].
  rewrite IH, Hp. destruct (same x e) eqn:Hs.
  - rewrite (Hc x e Hs), He, (same_sym _ _ Hs), (existsb_same_compat x e r Hs),
      (w_same x e Hs).
    cbn. destruct (existsb (same e) r); lia.
  - assert (same e x = false) as ->.
    { destruct (same e x) eqn:Hs'; [|reflexivity].
      apply same_sym in Hs'. congruence. }
    rewrite orb_false_r. cbn. lia.
Qed.

(** The count over a sequence splits at any point, the second part being
    counted against what the first part made present. *)
Lemma count_new_app (present present' : A -> bool) (es r : list A) :
  (forall x y, same x y = true -> present x = present y) ->
  (forall x, present' x = present x || existsb (same x) es) ->
  count_new w same present (es ++ r)
  = (count_new w same present es + count_new w same present' r)%nat.
Proof using same_sym same_trans w_same.
  intros Hc. revert present'.
  induction es as [|e es IH]; intros present' Hp.
  - cbn. apply count_new_ext. intros x. rewrite Hp. cbn. now rewrite orb_false_r.
  - cbn [app count_new].
    set (mid := fun x => present x || existsb (same x) es).
    rewrite (IH mid) by reflexivity.
    assert (forall x y, same x y = true -> mid x = mid y) as Hmc.
    { intros x y Hxy. unfold mid.
      now rewrite (Hc x y Hxy), (existsb_same_compat x y es Hxy). }
    assert (forall x, present' x = mid x || same x e) as Hp'.
    { intros x. rewrite Hp. cbn [existsb]. unfold mid.
      destruct (present x), (same x e), (existsb (same x) es); reflexivity. }
    rewrite existsb_app, orb_assoc. fold (mid e).
    destruct (mid e) eqn:He; cbn [orb].
    + rewrite (count_new_ext present' mid); [lia|].
      intros x. rewrite Hp'. destruct (same x e) eqn:Hs; [|apply orb_false_r].
      now rewrite (Hmc x e Hs), He.
    + rewrite (count_new_extend mid present' e r Hmc Hp' He).
      destruct (existsb (same e) r); lia.
Qed.

End Counting.

Lemma count_new_distinct {A : Type} (same : A -> A -> bool) (l : list A) :
  count_new (fun _ => 1%nat) same (fun _ => false) l = count_distinct same l.
Proof. induction l as [|x l IH]; cbn; [reflexivity|]. now rewrite IH. Qed.

(** * The operations as functions on the vertex list *)

Section Operations.

Context {V : Type}.
Variable vertex_equal : V -> V -> bool.
Variable intptr_of : V -> Z.

Hypothesis veq_sym :
  forall a b, vertex_equal a b = true -> vertex_equal b a = true.

Local Abbreviation vpos := (vertex_pos vertex_equal).
Implicit Types (g : Graph (V:=V)) (l : list (VertexNode (V:=V))) (value : V).

Lemma findVertexHelper_loop_spec value s l :
  l <> [] ->
  findVertexHelper_loop vertex_equal value s l
  = Some (s + default (length l - 1) (vpos value l))%nat.
Proof.
  revert s. induction l as [|n rest IH]; intros s Hne; [congruence|].
  unfold vertex_pos. cbn [findVertexHelper_loop first_index].
  destruct rest as [|n' rest'].
  - destruct (vertex_equal value (vertex n)); cbn; f_equal; lia.
  - destruct (vertex_equal value (vertex n)); cbn [negb].
    + cbn. f_equal; lia.
    + rewrite IH by discriminate. unfold vertex_pos.
      destruct (first_index _ (n' :: rest')) as [i|]; cbn; f_equal; lia.
Qed.

Lemma findVertexHelper_spec g value :
  findVertexHelper vertex_equal g value
  = match m_vertex_node_list g with
    | [] => None
    | _ :: _ =>
        Some (default (length (m_vertex_node_list g) - 1)
                (vpos value (m_vertex_node_list g)))%nat
    end.
Proof.
  unfold findVertexHelper. destruct (m_vertex_node_list g) as [|n rest] eqn:E.
  - reflexivity.
  - now rewrite findVertexHelper_loop_spec.
Qed.

Lemma vertex_pos_Some value l i :
  vpos value l = Some i ->
  exists n, l !! i = Some n /\ vertex_equal value (vertex n) = true.
Proof. intros H. now apply first_index_Some in H as [H _]. Qed.

Lemma vertex_pos_None value l i n :
  vpos value l = None -> l !! i = Some n -> vertex_equal value (vertex n) = false.
Proof. intros H. apply (proj1 (first_index_None _ _) H). Qed.

Lemma addVertex_found g value i :
  vpos value (m_vertex_node_list g) = Some i ->
  addVertex vertex_equal value g = Ok (mkVertexIter (Some i), false, g).
Proof using veq_sym.
  intros H. unfold addVertex. rewrite findVertexHelper_spec.
  destruct (m_vertex_node_list g) as [|n0 rest] eqn:E; [discriminate H|].
  rewrite H. cbn [from_option id].
  destruct (vertex_pos_Some _ _ _ H) as [n [Hn Hv]].
  unfold at_vertex. rewrite E, Hn. cbn [rbind].
  now rewrite (veq_sym _ _ Hv).
Qed.

Lemma addVertex_fresh g value :
  vpos value (m_vertex_node_list g) = None ->
  addVertex vertex_equal value g
  = Ok (mkVertexIter (Some (length (m_vertex_node_list g))), true,
        mkGraph (m_vertex_node_list g ++ [mkVertexNode value []])
                (size_incr (m_size g))).
Proof using veq_sym.
  intros H. unfold addVertex. rewrite findVertexHelper_spec.
  destruct (m_vertex_node_list g) as [|n0 rest] eqn:E; [reflexivity|].
  rewrite H. cbn [from_option id].
  destruct (last_record_lookup n0 rest) as [n Hn].
  unfold at_vertex. rewrite E, Hn. cbn [rbind].
  assert (vertex_equal (vertex n) value = false) as ->.
  { destruct (vertex_equal (vertex n) value) eqn:Hv; [|reflexivity].
    apply veq_sym in Hv. rewrite (vertex_pos_None _ _ _ _ H Hn) in Hv.
    discriminate Hv. }
  unfold link_next. rewrite take_ge by (cbn; lia).
  repeat f_equal. cbn. lia.
Qed.

(** [addVertex] always returns, and as [insert_vertex] describes. *)
Lemma addVertex_spec g value :
  addVertex vertex_equal value g
  = Ok (mkVertexIter (Some (insert_vertex vertex_equal value (m_vertex_node_list g)).1),
        match vpos value (m_vertex_node_list g) with Some _ => false | None => true end,
        mkGraph (insert_vertex vertex_equal value (m_vertex_node_list g)).2
                (match vpos value (m_vertex_node_list g) with
                 | Some _ => m_size g
                 | None => size_incr (m_size g)
                 end)).
Proof using veq_sym.
  unfold insert_vertex.
  destruct (vpos value (m_vertex_node_list g)) as [i|] eqn:E.
  - rewrite (addVertex_found _ _ _ E). now destruct g.
  - now rewrite (addVertex_fresh _ _ E).
Qed.

Lemma findVertex_spec g value :
  findVertex vertex_equal g value
  = Ok (mkVertexIter (vpos value (m_vertex_node_list g))).
Proof using veq_sym.
  unfold findVertex. rewrite findVertexHelper_spec.
  destruct (m_vertex_node_list g) as [|n0 rest] eqn:E; [reflexivity|].
  destruct (vpos value (n0 :: rest)) as [i|] eqn:H; cbn [from_option id].
  - destruct (vertex_pos_Some _ _ _ H) as [n [Hn Hv]].
    unfold at_vertex. rewrite E, Hn. cbn [rbind].
    now rewrite (veq_sym _ _ Hv).
  - destruct (last_record_lookup n0 rest) as [n Hn].
    unfold at_vertex. rewrite E, Hn. cbn [rbind].
    destruct (vertex_equal (vertex n) value) eqn:Hv; [|reflexivity].
    apply veq_sym in Hv. rewrite (vertex_pos_None _ _ _ _ H Hn) in Hv.
    discriminate Hv.
Qed.

Lemma vptr_eqb_eq (p q : VertexNodePtr) : vptr_eqb p q = true <-> p = q.
Proof.
  destruct p as [i|], q as [j|]; cbn; split; intros H;
    try congruence; try discriminate.
  - apply Nat.eqb_eq in H. now subst.
  - inversion H. apply Nat.eqb_refl.
Qed.

Lemma findEdgeHelper_loop_spec (to : VertexNodePtr) s (es : list EdgeNode) :
  es <> [] ->
  findEdgeHelper_loop to s es
  = Some (s + default (length es - 1) (edge_pos to es))%nat.
Proof.
  revert s. induction es as [|e rest IH]; intros s Hne; [congruence|].
  unfold edge_pos. cbn [findEdgeHelper_loop first_index].
  destruct rest as [|e' rest'].
  - destruct (vptr_eqb (vertex_node e) to); cbn; f_equal; lia.
  - destruct (vptr_eqb (vertex_node e) to); cbn [negb].
    + cbn. f_equal; lia.
    + rewrite IH by discriminate. unfold edge_pos.
      destruct (first_index _ (e' :: rest')) as [i|]; cbn; f_equal; lia.
Qed.

Lemma edge_pos_Some to (es : list EdgeNode) k :
  edge_pos to es = Some k ->
  exists e, es !! k = Some e /\ vertex_node e = to.
Proof.
  intros H. apply first_index_Some in H as [[e [He Hp]] _].
  exists e. split; [exact He | now apply vptr_eqb_eq].
Qed.

Lemma edge_pos_None to (es : list EdgeNode) k e :
  edge_pos to es = None -> es !! k = Some e -> vertex_node e <> to.
Proof.
  intros H He Heq. pose proof (proj1 (first_index_None _ _) H k e He) as Hp.
  apply vptr_eqb_eq in Heq. cbn in Hp. congruence.
Qed.

Lemma findEdgeHelper_spec g f t n :
  m_vertex_node_list g !! f = Some n ->
  findEdgeHelper g (Some f) (Some t)
  = Ok (match edge_list n with
        | [] => None
        | _ :: _ =>
            Some (f, default (length (edge_list n) - 1)
                       (edge_pos (Some t) (edge_list n)))%nat
        end).
Proof.
  intros Hn. unfold findEdgeHelper. rewrite (at_vertex_Some _ _ _ Hn). cbn [rbind].
  destruct (edge_list n) as [|e0 es] eqn:E; [reflexivity|].
  now rewrite findEdgeHelper_loop_spec.
Qed.

(** [addEdgeHelper] on a source that designates a record always returns,
    and as [insert_edge] describes. *)
Lemma addEdgeHelper_spec Weighted g f t w n :
  m_vertex_node_list g !! f = Some n ->
  addEdgeHelper Weighted (Some f) (Some t) w g
  = Ok (mkEdgeIter (Some f)
          (Some (f, default (length (edge_list n))
                      (edge_pos (Some t) (edge_list n)))),
        match edge_pos (Some t) (edge_list n) with Some _ => false | None => true end,
        mkGraph (insert_edge Weighted f t w (m_vertex_node_list g)) (m_size g)).
Proof.
  intros Hn. unfold addEdgeHelper, insert_edge.
  rewrite (at_vertex_Some _ _ _ Hn), Hn. cbn [rbind].
  assert (setEdgeWeight Weighted (mkEdgeNode 0 (Some t)) w
          = mkEdgeNode (if Weighted then w else 0) (Some t)) as Hnew
    by now destruct Weighted.
  rewrite Hnew.
  destruct (edge_list n) as [|e0 es] eqn:E; [reflexivity|].
  rewrite (findEdgeHelper_spec _ _ t _ Hn), E. cbn [rbind].
  destruct (edge_pos (Some t) (e0 :: es)) as [k|] eqn:Hk; cbn [from_option id].
  - destruct (edge_pos_Some _ _ _ Hk) as [e [He Ht]].
    rewrite (at_edge_Some g f k n e Hn) by now rewrite E.
    cbn [rbind]. rewrite (proj2 (vptr_eqb_eq _ _) Ht). now destruct g.
  - destruct (last_record_lookup e0 es) as [e He].
    rewrite (at_edge_Some g f _ n e Hn) by now rewrite E.
    cbn [rbind].
    assert (vptr_eqb (vertex_node e) (Some t) = false) as ->.
    { destruct (vptr_eqb (vertex_node e) (Some t)) eqn:Hv; [|reflexivity].
      apply vptr_eqb_eq in Hv. now apply (edge_pos_None _ _ _ _ Hk He) in Hv. }
    unfold store_edge_list, link_next. rewrite take_ge by (cbn; lia).
    repeat f_equal. cbn. lia.
Qed.

Lemma insert_edge_length Weighted f t w l :
  length (insert_edge Weighted f t w l) = length l.
Proof.
  unfold insert_edge. destruct (l !! f) as [n|]; [|reflexivity].
  destruct (edge_pos _ _); [reflexivity|]. apply length_insert.
Qed.

Lemma insert_vertex_prefix value l :
  exists tl, (insert_vertex vertex_equal value l).2 = l ++ tl.
Proof.
  unfold insert_vertex. destruct (vpos value l).
  - exists []. cbn. now rewrite app_nil_r.
  - now exists [mkVertexNode value []].
Qed.

Lemma insert_vertex_valid value l :
  ((insert_vertex vertex_equal value l).1
   < length (insert_vertex vertex_equal value l).2)%nat.
Proof.
  unfold insert_vertex. destruct (vpos value l) as [i|] eqn:E; cbn.
  - now apply first_index_lt in E.
  - rewrite length_app. cbn. lia.
Qed.

(** The public [addEdge] always returns: both endpoints are inserted,
    then, in an undirected graph, the mirror edge, then the edge. *)
Lemma addEdge_spec (Directed Weighted : bool) (edge : edge_type) g :
  let l := m_vertex_node_list g in
  let l1 := (insert_vertex vertex_equal (get0 edge) l).2 in
  let f := (insert_vertex vertex_equal (get0 edge) l).1 in
  let l2 := (insert_vertex vertex_equal (get1 edge) l1).2 in
  let t := (insert_vertex vertex_equal (get1 edge) l1).1 in
  let w := int_of_intptr (get_last_intptr intptr_of edge) in
  let l3 : list (VertexNode (V:=V)) := if Directed then l2 else insert_edge Weighted t f w l2 in
  exists n,
    l3 !! f = Some n /\
    addEdge vertex_equal intptr_of Directed Weighted edge g
    = Ok (mkEdgeIter (Some f)
            (Some (f, default (length (edge_list n))
                        (edge_pos (Some t) (edge_list n)))),
          match edge_pos (Some t) (edge_list n) with Some _ => false | None => true end,
          mkGraph (insert_edge Weighted f t w l3)
            (size_after vertex_equal (get1 edge) l1
               (size_after vertex_equal (get0 edge) l (m_size g)))).
Proof using veq_sym.
  intros l l1 f l2 t w l3.
  assert (f < length l3)%nat as Hf.
  { pose proof (insert_vertex_valid (get0 edge) l) as Hv. fold l1 f in Hv.
    destruct (insert_vertex_prefix (get1 edge) l1) as [tl Htl]. fold l2 in Htl.
    assert (f < length l2)%nat by (rewrite Htl, length_app; lia).
    subst l3. destruct Directed; [assumption|]. now rewrite insert_edge_length. }
  assert (t < length l2)%nat as Ht by apply insert_vertex_valid.
  destruct (lookup_lt_is_Some_2 _ _ Hf) as [n Hn]. exists n. split; [exact Hn|].
  unfold addEdge, addEdgeCaller.
  rewrite addVertex_spec. cbn [rbind vi_vertex_node].
  rewrite addVertex_spec. cbn [rbind vi_vertex_node m_vertex_node_list m_size].
  fold l l1 f l2 t w. unfold size_after. fold l l1.
  set (sz := match vpos (get1 edge) l1 with
             | Some _ => _
             | None => _
             end).
  destruct Directed.
  - subst l3. now rewrite (addEdgeHelper_spec Weighted (mkGraph l2 sz) f t w n Hn).
  - destruct (lookup_lt_is_Some_2 _ _ Ht) as [nt Hnt].
    rewrite (addEdgeHelper_spec Weighted (mkGraph l2 sz) t f w nt Hnt).
    cbn [rbind m_vertex_node_list m_size]. fold l3.
    now rewrite (addEdgeHelper_spec Weighted (mkGraph l3 sz) f t w n Hn).
Qed.

(** ** Vertex insertion and the count field *)

Lemma size_rep_incr l sz value :
  sz = Z.of_nat (length l) mod size_type_modulus ->
  size_after vertex_equal value l sz
  = Z.of_nat (length (insert_vertex vertex_equal value l).2) mod size_type_modulus.
Proof.
  intros ->. unfold size_after, insert_vertex.
  destruct (vpos value l); cbn [snd]; [reflexivity|].
  unfold size_incr. rewrite length_app. cbn [length].
  rewrite Nat2Z.inj_add. cbn. apply Zplus_mod_idemp_l.
Qed.

Lemma addVertex_size_rep g value r g' :
  size_rep g -> addVertex vertex_equal value g = Ok (r, g') -> size_rep g'.
Proof using veq_sym.
  unfold size_rep. intros H. rewrite addVertex_spec. intros E. inversion E; subst.
  cbn [m_size m_vertex_node_list]. now apply size_rep_incr.
Qed.

Lemma addVertex_length_le g value r g' :
  addVertex vertex_equal value g = Ok (r, g') ->
  (length (m_vertex_node_list g) <= length (m_vertex_node_list g'))%nat.
Proof using veq_sym.
  rewrite addVertex_spec. intros E. inversion E; subst. cbn [m_vertex_node_list].
  destruct (insert_vertex_prefix value (m_vertex_node_list g)) as [tl ->].
  rewrite length_app. lia.
Qed.

Lemma addVertex_list_total (values : list V) g :
  exists g', addVertex_list vertex_equal values g = Ok (tt, g').
Proof using veq_sym.
  revert g. induction values as [|v values IH]; intros g; cbn.
  - now exists g.
  - rewrite addVertex_spec. cbn [rbind]. apply IH.
Qed.

Lemma addVertex_list_size_rep (values : list V) g r g' :
  size_rep g -> addVertex_list vertex_equal values g = Ok (r, g') -> size_rep g'.
Proof using veq_sym.
  revert g. induction values as [|v values IH]; intros g H E; cbn in E.
  - inversion E; subst. auto.
  - destruct (addVertex vertex_equal v g) as [[r1 g1]| |] eqn:E1; try discriminate E.
    cbn [rbind] in E. exact (IH g1 (addVertex_size_rep _ _ _ _ H E1) E).
Qed.

Lemma addVertex_list_length_le (values : list V) g r g' :
  addVertex_list vertex_equal values g = Ok (r, g') ->
  (length (m_vertex_node_list g) <= length (m_vertex_node_list g'))%nat.
Proof using veq_sym.
  revert g. induction values as [|v values IH]; intros g E; cbn in E.
  - inversion E; subst. auto.
  - destruct (addVertex vertex_equal v g) as [[r1 g1]| |] eqn:E1; try discriminate E.
    cbn [rbind] in E. apply addVertex_length_le in E1. apply IH in E. lia.
Qed.

Lemma addEdge_length_le Directed Weighted (edge : edge_type) g r g' :
  addEdge vertex_equal intptr_of Directed Weighted edge g = Ok (r, g') ->
  (length (m_vertex_node_list g) <= length (m_vertex_node_list g'))%nat.
Proof using veq_sym.
  intros E.
  destruct (addEdge_spec Directed Weighted edge g) as [n [_ E']].
  rewrite E' in E. inversion E; subst; clear E E'.
  cbn [m_size m_vertex_node_list].
  destruct (insert_vertex_prefix (get0 edge) (m_vertex_node_list g)) as [tl1 H1].
  destruct (insert_vertex_prefix (get1 edge)
              (insert_vertex vertex_equal (get0 edge) (m_vertex_node_list g)).2)
    as [tl2 H2].
  rewrite insert_edge_length.
  assert (length (m_vertex_node_list g)
          <= length (insert_vertex vertex_equal (get1 edge)
               (insert_vertex vertex_equal (get0 edge) (m_vertex_node_list g)).2).2)%nat.
  { rewrite H2, H1, !length_app. lia. }
  destruct Directed; [assumption|]. now rewrite insert_edge_length.
Qed.

Lemma addEdge_size_rep Directed Weighted (edge : edge_type) g r g' :
  size_rep g ->
  addEdge vertex_equal intptr_of Directed Weighted edge g = Ok (r, g') ->
  size_rep g'.
Proof using veq_sym.
  unfold size_rep. intros H E.
  destruct (addEdge_spec Directed Weighted edge g) as [n [_ E']].
  rewrite E' in E. inversion E; subst; clear E E'.
  cbn [m_size m_vertex_node_list].
  rewrite insert_edge_length.
  rewrite (size_rep_incr _ _ (get1 edge) (size_rep_incr _ _ (get0 edge) H)).
  destruct Directed; [reflexivity|]. now rewrite insert_edge_length.
Qed.

Lemma addEdge_list_total Directed Weighted (edges : list edge_type) g :
  exists g', addEdge_list vertex_equal intptr_of Directed Weighted edges g = Ok (tt, g').
Proof using veq_sym.
  revert g. induction edges as [|e edges IH]; intros g; cbn.
  - now exists g.
  - destruct (addEdge_spec Directed Weighted e g) as [n [_ ->]]. cbn [rbind]. apply IH.
Qed.

Lemma addEdge_list_size_rep Directed Weighted (edges : list edge_type) g r g' :
  size_rep g ->
  addEdge_list vertex_equal intptr_of Directed Weighted edges g = Ok (r, g') ->
  size_rep g'.
Proof using veq_sym.
  revert g. induction edges as [|e edges IH]; intros g H E; cbn in E.
  - inversion E; subst. auto.
  - destruct (addEdge vertex_equal intptr_of Directed Weighted e g)
      as [[r1 g1]| |] eqn:E1; try discriminate E.
    cbn [rbind] in E. exact (IH g1 (addEdge_size_rep _ _ _ _ _ _ H E1) E).
Qed.

Lemma addEdge_list_length_le Directed Weighted (edges : list edge_type) g r g' :
  addEdge_list vertex_equal intptr_of Directed Weighted edges g = Ok (r, g') ->
  (length (m_vertex_node_list g) <= length (m_vertex_node_list g'))%nat.
Proof using veq_sym.
  revert g. induction edges as [|e edges IH]; intros g E; cbn in E.
  - inversion E; subst. auto.
  - destruct (addEdge vertex_equal intptr_of Directed Weighted e g)
      as [[r1 g1]| |] eqn:E1; try discriminate E.
    cbn [rbind] in E. apply addEdge_length_le in E1. apply IH in E. lia.
Qed.

Lemma assign_edges_size_rep Directed Weighted src i k (records : list EdgeNode) g r g' :
  size_rep g ->
  assign_edges vertex_equal intptr_of Directed Weighted src i k records g = Ok (r, g') ->
  size_rep g'.
Proof using veq_sym.
  revert k g. induction records as [|e records IH]; intros k g H E; cbn in E.
  - inversion E; subst. auto.
  - destruct (getTuple _ _ _) as [edge| |]; try discriminate E.
    cbn [rbind] in E.
    destruct (addEdge vertex_equal intptr_of Directed Weighted edge g)
      as [[r1 g1]| |] eqn:E1; try discriminate E.
    cbn [rbind] in E.
    pose proof (addEdge_size_rep _ _ _ _ _ _ H E1) as H1. eapply IH; eauto.
Qed.

Lemma assign_vertices_size_rep Directed Weighted src i
  (records : list (VertexNode (V:=V))) g r g' :
  size_rep g ->
  assign_vertices vertex_equal intptr_of Directed Weighted src i records g = Ok (r, g') ->
  size_rep g'.
Proof using veq_sym.
  revert i g. induction records as [|n records IH]; intros i g H E; cbn in E.
  - inversion E; subst. auto.
  - destruct (assign_edges _ _ _ _ _ _ _ _ g) as [[r1 g1]| |] eqn:E1;
      try discriminate E.
    cbn [rbind] in E. eapply IH; [|exact E].
    eapply assign_edges_size_rep; eauto.
Qed.

Lemma size_rep_count_ok g :
  size_rep g -> Z.of_nat (length (m_vertex_node_list g)) < size_type_modulus ->
  count_ok g.
Proof.
  unfold size_rep, count_ok. intros -> H. apply Z.mod_small. lia.
Qed.

Lemma count_ok_size_rep g :
  count_ok g -> Z.of_nat (length (m_vertex_node_list g)) < size_type_modulus ->
  size_rep g.
Proof.
  unfold size_rep, count_ok. intros -> H. symmetry. apply Z.mod_small. lia.
Qed.

End Operations.

(** * The vertex store *)

Section VertexStore.

Context {V : Type}.
Variable vertex_equal : V -> V -> bool.
Variable intptr_of : V -> Z.

Hypothesis veq_sym :
  forall a b, vertex_equal a b = true -> vertex_equal b a = true.
Hypothesis veq_trans :
  forall a b c, vertex_equal a b = true -> vertex_equal b c = true ->
    vertex_equal a c = true.

Local Abbreviation vpos := (vertex_pos vertex_equal).
Implicit Types (g : Graph (V:=V)) (l : list (VertexNode (V:=V))) (value : V).

Lemma vertex_pos_compat a b l :
  vertex_equal a b = true -> vpos a l = vpos b l.
Proof using veq_sym veq_trans.
  intros H. apply first_index_ext. intros i n _.
  now apply (same_compat_l vertex_equal veq_sym veq_trans).
Qed.

Lemma has_vertex_compat l a b :
  vertex_equal a b = true -> has_vertex vertex_equal l a = has_vertex vertex_equal l b.
Proof using veq_sym veq_trans.
  intros H. unfold has_vertex. now rewrite (vertex_pos_compat a b l H).
Qed.

Lemma vertex_pos_insert value l x :
  vpos x (insert_vertex vertex_equal value l).2
  = match vpos x l with
    | Some i => Some i
    | None =>
        match vpos value l with
        | Some _ => None
        | None => if vertex_equal x value then Some (length l) else None
        end
    end.
Proof.
  unfold insert_vertex. destruct (vpos value l) as [i|] eqn:E; cbn [snd].
  - now destruct (vpos x l).
  - unfold vertex_pos. rewrite first_index_app. fold (vpos x l).
    destruct (vpos x l); [reflexivity|]. cbn.
    destruct (vertex_equal x value); cbn; [f_equal; lia | reflexivity].
Qed.

Lemma has_vertex_insert value l x :
  has_vertex vertex_equal (insert_vertex vertex_equal value l).2 x
  = has_vertex vertex_equal l x || vertex_equal x value.
Proof using veq_sym veq_trans.
  unfold has_vertex. rewrite vertex_pos_insert.
  destruct (vpos x l) as [i|] eqn:Ex; [reflexivity|].
  destruct (vpos value l) as [j|] eqn:Ev; cbn.
  - destruct (vertex_equal x value) eqn:H; [|reflexivity].
    rewrite (vertex_pos_compat x value l H) in Ex. congruence.
  - now destruct (vertex_equal x value).
Qed.

Lemma addVertex_list_length (values : list V) g :
  exists g',
    addVertex_list vertex_equal values g = Ok (tt, g') /\
    length (m_vertex_node_list g')
    = (length (m_vertex_node_list g)
       + count_new (fun _ => 1%nat) vertex_equal
           (has_vertex vertex_equal (m_vertex_node_list g)) values)%nat.
Proof using veq_sym veq_trans.
  revert g. induction values as [|v values IH]; intros g; cbn.
  - exists g. split; [reflexivity | lia].
  - rewrite (addVertex_spec vertex_equal veq_sym). cbn [rbind].
    set (l := m_vertex_node_list g).
    set (g1 := mkGraph _ _).
    destruct (IH g1) as [g' [E Hlen]]. exists g'. split; [exact E|].
    rewrite Hlen. subst g1. cbn [m_vertex_node_list].
    unfold has_vertex at 2. unfold insert_vertex at 1.
    destruct (vpos v l) as [i|] eqn:Ev; cbn [snd orb].
    + unfold insert_vertex. now rewrite Ev.
    + rewrite (count_new_extend vertex_equal (fun _ => 1%nat) veq_sym veq_trans
                 (fun _ _ _ => eq_refl)
                 (has_vertex vertex_equal l)
                 (has_vertex vertex_equal (insert_vertex vertex_equal v l).2) v values).
      * unfold insert_vertex at 1. rewrite Ev. cbn [snd].
        rewrite length_app. cbn [length].
        unfold insert_vertex. rewrite Ev. cbn [snd].
        destruct (existsb (vertex_equal v) values); lia.
      * intros x y. apply has_vertex_compat.
      * intros x. apply has_vertex_insert.
      * unfold has_vertex. now rewrite Ev.
Qed.

(** C5. If the store holds a record whose value equals [value], then
    [addVertex] returns a cursor to a record equal to [value] (to that very
    record when the stored values are pairwise distinct) with
    [inserted = false] and leaves the graph, hence the count, as it was.
    If no record equals [value], it links a new record holding [value] at
    the tail, advances the count as [++m_size] does (by one when the count
    is in step with the list and below the top of [size_t]) and returns a
    cursor to the new record with [inserted = true]. *)
Theorem addVertex_idempotent g value :
  (forall i n,
     m_vertex_node_list g !! i = Some n ->
     vertex_equal (vertex n) value = true ->
     exists j m,
       m_vertex_node_list g !! j = Some m /\
       vertex_equal (vertex m) value = true /\
       addVertex vertex_equal value g = Ok (mkVertexIter (Some j), false, g) /\
       (unique_vertices vertex_equal (m_vertex_node_list g) -> j = i)) /\
  ((forall i n,
      m_vertex_node_list g !! i = Some n ->
      vertex_equal (vertex n) value = false) ->
   exists g',
     addVertex vertex_equal value g
     = Ok (mkVertexIter (Some (length (m_vertex_node_list g))), true, g') /\
     m_vertex_node_list g' = m_vertex_node_list g ++ [mkVertexNode value []] /\
     m_size g' = size_incr (m_size g) /\
     (count_ok g ->
      Z.of_nat (length (m_vertex_node_list g)) + 1 < size_type_modulus ->
      m_size g' = m_size g + 1 /\ count_ok g')).
Proof using veq_sym veq_trans.
  split.
  - intros i n Hn Hv.
    destruct (first_index_found (fun n => vertex_equal value (vertex n))
                (m_vertex_node_list g) i n Hn (veq_sym _ _ Hv)) as [j [Hj Hle]].
    destruct (vertex_pos_Some vertex_equal _ _ _ Hj) as [m [Hm Hvm]].
    exists j, m. repeat split.
    + exact Hm.
    + now apply veq_sym.
    + now apply (addVertex_found vertex_equal veq_sym).
    + intros Hu. apply (Hu j i m n Hm Hn).
      apply (veq_trans _ value); [now apply veq_sym | now apply veq_sym].
  - intros Hnone.
    assert (vpos value (m_vertex_node_list g) = None) as E.
    { apply first_index_None. intros i n Hn. cbn.
      destruct (vertex_equal value (vertex n)) eqn:Hv; [|reflexivity].
      apply veq_sym in Hv. rewrite (Hnone i n Hn) in Hv. discriminate Hv. }
    eexists. split; [apply (addVertex_fresh vertex_equal veq_sym _ _ E)|].
    cbn [m_vertex_node_list m_size]. repeat split.
    + unfold count_ok in H. rewrite H. unfold size_incr.
      apply Z.mod_small. lia.
    + unfold count_ok in *. cbn [m_vertex_node_list m_size].
      rewrite H, length_app. cbn [length]. unfold size_incr.
      rewrite Z.mod_small by lia. lia.
Qed.

Lemma addVertex_list_app (values values' : list V) g :
  addVertex_list vertex_equal (values ++ values') g
  = let* (_, g1) := addVertex_list vertex_equal values g in
    addVertex_list vertex_equal values' g1.
Proof.
  revert g. induction values as [|v values IH]; intros g; [reflexivity|].
  cbn [app addVertex_list].
  destruct (addVertex vertex_equal v g) as [[r g1]| |]; cbn [rbind];
    [apply IH | reflexivity | reflexivity].
Qed.

(** A sequence of single and batch vertex insertions is the batch
    insertion of all the values in order. *)
Lemma run_ops_vertex_insertions Directed Weighted (ops : list public_op) g :
  forallb is_vertex_insertion ops = true ->
  run_ops vertex_equal intptr_of Directed Weighted ops g
  = addVertex_list vertex_equal (inserted_values ops) g.
Proof.
  revert g. induction ops as [|o ops IH]; intros g Hins; [reflexivity|].
  cbn [forallb] in Hins. apply andb_true_iff in Hins as [Ho Hins].
  unfold inserted_values. cbn [flat_map run_ops]. fold (inserted_values ops).
  rewrite addVertex_list_app.
  destruct o as [value|values|edge|edges|rhs|]; try discriminate Ho;
    cbn [run_op inserted_values_of addVertex_list].
  - destruct (addVertex vertex_equal value g) as [[r g1]| |]; cbn [rbind];
      [now apply IH | reflexivity | reflexivity].
  - destruct (addVertex_list vertex_equal values g) as [[[] g1]| |]; cbn [rbind];
      [now apply IH | reflexivity | reflexivity].
Qed.

(** C6. Inserting a sequence of values into an empty graph, by one batch
    call or by any sequence of single and batch calls, leaves as many
    vertex records, and a count field equal to that number, as the
    sequence has distinct values under the predicate. *)
Theorem vertex_count_distinct :
  (forall values : list V,
     Z.of_nat (count_distinct vertex_equal values) < size_type_modulus ->
     exists g,
       addVertex_list vertex_equal values Graph_ctor = Ok (tt, g) /\
       length (m_vertex_node_list g) = count_distinct vertex_equal values /\
       m_size g = Z.of_nat (count_distinct vertex_equal values)) /\
  (forall (Directed Weighted : bool) (ops : list public_op),
     forallb is_vertex_insertion ops = true ->
     Z.of_nat (count_distinct vertex_equal (inserted_values ops)) < size_type_modulus ->
     exists g,
       run_ops vertex_equal intptr_of Directed Weighted ops Graph_ctor = Ok (tt, g) /\
       length (m_vertex_node_list g)
       = count_distinct vertex_equal (inserted_values ops) /\
       m_size g = Z.of_nat (count_distinct vertex_equal (inserted_values ops))).
Proof using veq_sym veq_trans.
  assert (forall values : list V,
            Z.of_nat (count_distinct vertex_equal values) < size_type_modulus ->
            exists g,
              addVertex_list vertex_equal values Graph_ctor = Ok (tt, g) /\
              length (m_vertex_node_list g) = count_distinct vertex_equal values /\
              m_size g = Z.of_nat (count_distinct vertex_equal values)) as Hbatch.
  { intros values Hfit.
    destruct (addVertex_list_length values Graph_ctor) as [g [E Hlen]].
    cbn [Graph_ctor m_vertex_node_list length Nat.add] in Hlen.
    rewrite (count_new_ext vertex_equal _ _ (fun _ => false)) in Hlen
      by reflexivity.
    rewrite count_new_distinct in Hlen.
    exists g. repeat split; [exact E | exact Hlen |].
    assert (size_rep g) as Hrep.
    { apply (addVertex_list_size_rep vertex_equal veq_sym values Graph_ctor tt g);
        [reflexivity | exact E]. }
    rewrite <- Hlen. apply size_rep_count_ok; [exact Hrep | now rewrite Hlen]. }
  split; [exact Hbatch|].
  intros Directed Weighted ops Hins Hfit.
  rewrite (run_ops_vertex_insertions Directed Weighted ops Graph_ctor Hins).
  now apply Hbatch.
Qed.

End VertexStore.

(** * The count field *)

Section CountField.

Context {V : Type}.
Variable vertex_equal : V -> V -> bool.
Variable intptr_of : V -> Z.

Hypothesis veq_sym :
  forall a b, vertex_equal a b = true -> vertex_equal b a = true.

Implicit Types (g src : Graph (V:=V)).

Lemma operator_assign_size_rep Directed Weighted rhs g r g' :
  operator_assign vertex_equal intptr_of Directed Weighted rhs g = Ok (r, g') ->
  size_rep g'.
Proof using veq_sym.
  unfold operator_assign, destroyGraph. cbn [rbind].
  apply (assign_vertices_size_rep vertex_equal intptr_of veq_sym). reflexivity.
Qed.

Lemma assign_edges_total Directed Weighted src i n k (records : list EdgeNode) g :
  targets_valid (m_vertex_node_list src) ->
  m_vertex_node_list src !! i = Some n ->
  (forall j e, records !! j = Some e -> edge_list n !! (k + j)%nat = Some e) ->
  exists g',
    assign_edges vertex_equal intptr_of Directed Weighted src i k records g
    = Ok (tt, g').
Proof using veq_sym.
  intros Hvalid Hn. revert k g.
  induction records as [|e records IH]; intros k g Hrec; cbn [assign_edges].
  - now exists g.
  - assert (edge_list n !! k = Some e) as He.
    { rewrite <- (Nat.add_0_r k). now apply Hrec. }
    destruct (Hvalid i n k e Hn He) as [t [m [Ht Hm]]].
    rewrite (EdgeIter_deref_record Weighted src i k n e t m Hn He Ht Hm).
    cbn [rbind].
    destruct (addEdge_spec vertex_equal intptr_of veq_sym Directed Weighted
                (if Weighted then Edge3 (vertex n) (vertex m) (weight e)
                 else Edge2 (vertex n) (vertex m)) g) as [n' [_ ->]].
    cbn [rbind]. apply IH. intros j e' Hj.
    replace (S k + j)%nat with (k + S j)%nat by lia. now apply Hrec.
Qed.

Lemma assign_vertices_total Directed Weighted src i
  (records : list (VertexNode (V:=V))) g :
  targets_valid (m_vertex_node_list src) ->
  (forall j n, records !! j = Some n -> m_vertex_node_list src !! (i + j)%nat = Some n) ->
  exists g',
    assign_vertices vertex_equal intptr_of Directed Weighted src i records g
    = Ok (tt, g').
Proof using veq_sym.
  intros Hvalid. revert i g.
  induction records as [|n records IH]; intros i g Hrec; cbn [assign_vertices].
  - now exists g.
  - assert (m_vertex_node_list src !! i = Some n) as Hn.
    { rewrite <- (Nat.add_0_r i). now apply Hrec. }
    destruct (assign_edges_total Directed Weighted src i n 0 (edge_list n) g Hvalid Hn)
      as [g1 ->]; [now intros j e He|].
    cbn [rbind]. apply IH. intros j n' Hj.
    replace (S i + j)%nat with (i + S j)%nat by lia. now apply Hrec.
Qed.

Lemma run_op_total Directed Weighted o g :
  (forall src, o = op_assign (Other src) -> targets_valid (m_vertex_node_list src)) ->
  exists g', run_op vertex_equal intptr_of Directed Weighted o g = Ok (tt, g').
Proof using veq_sym.
  intros Hvalid. destruct o as [value|values|edge|edges|[src|]|]; cbn [run_op].
  - rewrite (addVertex_spec vertex_equal veq_sym). cbn [rbind]. eauto.
  - apply (addVertex_list_total vertex_equal veq_sym).
  - destruct (addEdge_spec vertex_equal intptr_of veq_sym Directed Weighted edge g)
      as [n [_ ->]].
    cbn [rbind]. eauto.
  - apply (addEdge_list_total vertex_equal intptr_of veq_sym).
  - unfold operator_assign, destroyGraph. cbn [rbind].
    apply assign_vertices_total; [now apply Hvalid | now intros j n Hj].
  - unfold operator_assign, destroyGraph. cbn. eauto.
  - unfold destroyGraph. eauto.
Qed.

(** C9. The count field equals the number of vertex records linked from
    the head in the empty graph, in every graph constructed from an edge
    sequence or by copy, and after every public operation run on a graph
    in which it did (vertex and edge insertion, single or batch, copy
    assignment, teardown), as long as the number of records of the
    resulting graph fits [size_t]; teardown resets head and count
    together.  Every one of these operations returns (a copy needs the
    edge records of its source to point at vertex records of the source). *)
Theorem vertex_count_invariant (Directed Weighted : bool) :
  count_ok (Graph_ctor (V:=V)) /\
  (forall edges g,
     Graph_ctor_list vertex_equal intptr_of Directed Weighted edges = Ok g ->
     Z.of_nat (length (m_vertex_node_list g)) < size_type_modulus ->
     count_ok g) /\
  (forall src g,
     Graph_ctor_copy vertex_equal intptr_of Directed Weighted src = Ok g ->
     Z.of_nat (length (m_vertex_node_list g)) < size_type_modulus ->
     count_ok g) /\
  (forall o g r g',
     count_ok g ->
     run_op vertex_equal intptr_of Directed Weighted o g = Ok (r, g') ->
     Z.of_nat (length (m_vertex_node_list g')) < size_type_modulus ->
     count_ok g') /\
  (forall o g,
     (forall src, o = op_assign (Other src) ->
                  targets_valid (m_vertex_node_list src)) ->
     exists g', run_op vertex_equal intptr_of Directed Weighted o g = Ok (tt, g')) /\
  (forall g, destroyGraph g = Ok (tt, mkGraph [] 0)).
Proof using veq_sym.
  repeat apply conj.
  - reflexivity.
  - intros edges g E Hfit. unfold Graph_ctor_list in E.
    destruct (addEdge_list _ _ _ _ edges Graph_ctor) as [[r g1]| |] eqn:E1;
      try discriminate E.
    cbn in E. inversion E; subst.
    apply size_rep_count_ok; [|exact Hfit].
    eapply (addEdge_list_size_rep vertex_equal intptr_of veq_sym); [|exact E1].
    reflexivity.
  - intros src g E Hfit. unfold Graph_ctor_copy in E.
    destruct (operator_assign _ _ _ _ (Other src) Graph_ctor) as [[r g1]| |] eqn:E1;
      try discriminate E.
    cbn in E. inversion E; subst.
    apply size_rep_count_ok; [|exact Hfit].
    eapply operator_assign_size_rep; exact E1.
  - intros o g r g' Hok E Hfit.
    assert ((length (m_vertex_node_list g) <= length (m_vertex_node_list g'))%nat ->
            size_rep g) as Hrep.
    { intros Hle. apply count_ok_size_rep; [exact Hok | lia]. }
    apply size_rep_count_ok; [|exact Hfit].
    destruct o as [value|values|edge|edges|rhs|]; cbn [run_op] in E.
    + destruct (addVertex vertex_equal value g) as [[r1 g1]| |] eqn:E1;
        try discriminate E.
      cbn in E. inversion E; subst.
      eapply (addVertex_size_rep vertex_equal veq_sym); [|exact E1].
      apply Hrep. eapply (addVertex_length_le vertex_equal veq_sym); exact E1.
    + eapply (addVertex_list_size_rep vertex_equal veq_sym); [|exact E].
      apply Hrep. eapply (addVertex_list_length_le vertex_equal veq_sym); exact E.
    + destruct (addEdge _ _ _ _ edge g) as [[r1 g1]| |] eqn:E1; try discriminate E.
      cbn in E. inversion E; subst.
      eapply (addEdge_size_rep vertex_equal intptr_of veq_sym); [|exact E1].
      apply Hrep. eapply (addEdge_length_le vertex_equal intptr_of veq_sym); exact E1.
    + eapply (addEdge_list_size_rep vertex_equal intptr_of veq_sym); [|exact E].
      apply Hrep.
      eapply (addEdge_list_length_le vertex_equal intptr_of veq_sym); exact E.
    + eapply operator_assign_size_rep; exact E.
    + unfold destroyGraph in E. inversion E; subst. reflexivity.
  - intros o g. apply run_op_total.
  - reflexivity.
Qed.

End CountField.

(** * The edge store *)

Section EdgeLists.

Context {V : Type}.
Implicit Types (l : list (VertexNode (V:=V))) (es : list EdgeNode).

Lemma edge_pos_app to es e :
  edge_pos to (es ++ [e])
  = match edge_pos to es with
    | Some k => Some k
    | None => if vptr_eqb (vertex_node e) to then Some (length es) else None
    end.
Proof.
  unfold edge_pos. rewrite first_index_app.
  destruct (first_index _ es); [reflexivity|]. cbn.
  destruct (vptr_eqb (vertex_node e) to); cbn; [f_equal; lia | reflexivity].
Qed.

Lemma edge_between_Some l i j e :
  edge_between l i j = Some e ->
  exists n k, l !! i = Some n /\ edge_pos (Some j) (edge_list n) = Some k /\
              edge_list n !! k = Some e /\ vertex_node e = Some j.
Proof.
  unfold edge_between. intros H.
  destruct (l !! i) as [n|]; [|discriminate H].
  destruct (edge_pos (Some j) (edge_list n)) as [k|] eqn:Ek; [|discriminate H].
  exists n, k. repeat split; auto.
  destruct (edge_pos_Some _ _ _ Ek) as [e' [He' Ht]]. congruence.
Qed.

Lemma edge_between_None l i j n :
  l !! i = Some n ->
  edge_between l i j = None <-> edge_pos (Some j) (edge_list n) = None.
Proof.
  intros Hn. unfold edge_between. rewrite Hn.
  destruct (edge_pos (Some j) (edge_list n)) as [k|] eqn:Ek; [|tauto].
  destruct (edge_pos_Some _ _ _ Ek) as [e [He _]]. rewrite He. split; discriminate.
Qed.

Lemma edge_between_app_empty l value i j :
  edge_between (l ++ [mkVertexNode value []]) i j = edge_between l i j.
Proof.
  unfold edge_between.
  destruct (Nat.lt_ge_cases i (length l)) as [Hlt|Hge].
  - now rewrite lookup_app_l.
  - rewrite (lookup_ge_None_2 l i Hge).
    destruct (Nat.eq_dec i (length l)) as [->|Hne].
    + now rewrite list_lookup_middle.
    + rewrite lookup_ge_None_2; [reflexivity|]. rewrite length_app. cbn. lia.
Qed.

Lemma edge_between_insert_edge Weighted f t w l i j :
  (f < length l)%nat ->
  edge_between (insert_edge Weighted f t w l) i j
  = match edge_between l f t with
    | Some _ => edge_between l i j
    | None =>
        if Nat.eqb i f && Nat.eqb j t
        then Some (mkEdgeNode (if Weighted then w else 0) (Some t))
        else edge_between l i j
    end.
Proof.
  intros Hf. destruct (lookup_lt_is_Some_2 _ _ Hf) as [n Hn].
  unfold insert_edge. rewrite Hn.
  destruct (edge_pos (Some t) (edge_list n)) as [k|] eqn:Ek.
  - destruct (edge_between l f t) eqn:Eb; [reflexivity|].
    apply (edge_between_None _ _ _ _ Hn) in Eb. congruence.
  - rewrite (proj2 (edge_between_None _ _ _ _ Hn) Ek).
    destruct (Nat.eqb_spec i f) as [->|Hne]; cbn [andb].
    + unfold edge_between at 1. rewrite list_lookup_insert_eq by exact Hf.
      cbn [edge_list]. rewrite edge_pos_app. cbn [vertex_node].
      unfold edge_between. rewrite Hn.
      destruct (edge_pos (Some j) (edge_list n)) as [k|] eqn:Ej.
      * assert (Nat.eqb j t = false) as ->.
        { destruct (Nat.eqb_spec j t) as [->|]; [congruence | reflexivity]. }
        apply lookup_app_l. eapply first_index_lt; exact Ej.
      * cbn [vptr_eqb]. rewrite (Nat.eqb_sym t j).
        destruct (Nat.eqb j t); [|reflexivity].
        now rewrite list_lookup_middle.
    + unfold edge_between. now rewrite list_lookup_insert_ne by congruence.
Qed.

Lemma sum_list_with_insert {A : Type} (h : A -> nat) (l : list A) i x y :
  l !! i = Some x ->
  (sum_list_with h (<[i := y]> l) + h x = sum_list_with h l + h y)%nat.
Proof.
  revert i. induction l as [|z l IH]; intros [|i] H; simpl in *; try discriminate.
  - inversion H; subst. lia.
  - specialize (IH i H). lia.
Qed.

Lemma edge_records_insert_edge Weighted f t w l sz sz' :
  (f < length l)%nat ->
  edge_records (mkGraph (insert_edge Weighted f t w l) sz)
  = (edge_records (mkGraph l sz')
     + match edge_between l f t with Some _ => 0 | None => 1 end)%nat.
Proof.
  intros Hf. destruct (lookup_lt_is_Some_2 _ _ Hf) as [n Hn].
  unfold edge_records, insert_edge. cbn [m_vertex_node_list]. rewrite Hn.
  destruct (edge_pos (Some t) (edge_list n)) as [k|] eqn:Ek.
  - destruct (edge_between l f t) eqn:Eb; [lia|].
    apply (edge_between_None _ _ _ _ Hn) in Eb. congruence.
  - rewrite (proj2 (edge_between_None _ _ _ _ Hn) Ek).
    pose proof (sum_list_with_insert (fun n => length (edge_list n)) l f n
                  (mkVertexNode (vertex n)
                     (edge_list n ++ [mkEdgeNode (if Weighted then w else 0) (Some t)]))
                  Hn) as H.
    cbn [edge_list] in H. rewrite length_app in H. cbn [length] in H. lia.
Qed.

Lemma edge_records_app_empty l value sz sz' :
  edge_records (mkGraph (l ++ [mkVertexNode value []]) sz)
  = edge_records (mkGraph l sz').
Proof.
  unfold edge_records. cbn [m_vertex_node_list].
  rewrite sum_list_with_app. cbn. lia.
Qed.

Lemma first_index_insert_same {A : Type} (p : A -> bool) (l : list A) i x y :
  l !! i = Some x -> p y = p x ->
  first_index p (<[i := y]> l) = first_index p l.
Proof.
  revert i. induction l as [|z l IH]; intros [|i] H Hp; simpl in *; try discriminate.
  - inversion H; subst. now rewrite Hp.
  - now rewrite (IH i H Hp).
Qed.

End EdgeLists.

Section EdgeStore.

Context {V : Type}.
Variable vertex_equal : V -> V -> bool.
Variable intptr_of : V -> Z.

Hypothesis veq_refl : forall a, vertex_equal a a = true.
Hypothesis veq_sym :
  forall a b, vertex_equal a b = true -> vertex_equal b a = true.
Hypothesis veq_trans :
  forall a b c, vertex_equal a b = true -> vertex_equal b c = true ->
    vertex_equal a c = true.

Local Abbreviation vpos := (vertex_pos vertex_equal).
Local Abbreviation ins_vertex := (insert_vertex vertex_equal).
Implicit Types (g : Graph (V:=V)) (l : list (VertexNode (V:=V))) (value a b : V).
Implicit Types (edge : edge_type (V:=V)).

Lemma vertex_pos_insert_edge Weighted f t w l x :
  vpos x (insert_edge Weighted f t w l) = vpos x l.
Proof.
  unfold insert_edge. destruct (l !! f) as [n|] eqn:Hn; [|reflexivity].
  destruct (edge_pos _ _); [reflexivity|].
  unfold vertex_pos. now apply first_index_insert_same with (x := n).
Qed.

Lemma insert_edge_present Weighted f t w l e :
  edge_between l f t = Some e -> insert_edge Weighted f t w l = l.
Proof.
  intros H. destruct (edge_between_Some _ _ _ _ H) as [n [k [Hn [Hk _]]]].
  unfold insert_edge. now rewrite Hn, Hk.
Qed.

Lemma insert_vertex_found value l i :
  vpos value l = Some i -> ins_vertex value l = (i, l).
Proof. intros H. unfold insert_vertex. now rewrite H. Qed.

Lemma insert_vertex_pos value l :
  vpos value (ins_vertex value l).2 = Some (ins_vertex value l).1.
Proof using veq_refl.
  rewrite vertex_pos_insert. unfold insert_vertex.
  destruct (vpos value l) as [i|] eqn:E; [reflexivity|].
  now rewrite veq_refl.
Qed.

Lemma vertex_pos_insert_keep value l x i :
  vpos x l = Some i -> vpos x (ins_vertex value l).2 = Some i.
Proof. intros H. rewrite vertex_pos_insert. now rewrite H. Qed.

(** Two values found at the same record are equal, and conversely. *)
Lemma vertex_pos_same l x y i :
  vpos x l = Some i -> vpos y l = Some i -> vertex_equal x y = true.
Proof using veq_sym veq_trans.
  intros Hx Hy.
  destruct (vertex_pos_Some _ _ _ _ Hx) as [n [Hn Hxn]].
  destruct (vertex_pos_Some _ _ _ _ Hy) as [n' [Hn' Hyn]].
  assert (n' = n) by congruence. subst n'.
  apply (veq_trans _ (vertex n)); [exact Hxn | now apply veq_sym].
Qed.

Lemma findEdge_spec g edge :
  exists v,
    findEdge vertex_equal g edge
    = Ok (mkEdgeIter v
            (find_edge_ptr vertex_equal (m_vertex_node_list g) (get0 edge) (get1 edge)))
    /\ (forall f k,
          find_edge_ptr vertex_equal (m_vertex_node_list g) (get0 edge) (get1 edge)
          = Some (f, k) ->
          v = Some f).
Proof using veq_sym.
  unfold findEdge, find_edge_ptr.
  rewrite !(findVertex_spec vertex_equal veq_sym). cbn [rbind vi_vertex_node].
  destruct (vpos (get0 edge) (m_vertex_node_list g)) as [f|] eqn:Ef.
  2:{ exists None. cbn. split; [reflexivity | discriminate]. }
  destruct (vpos (get1 edge) (m_vertex_node_list g)) as [t|] eqn:Et.
  2:{ exists (Some f). cbn. split; [reflexivity | discriminate]. }
  destruct (vertex_pos_Some _ _ _ _ Ef) as [n [Hn _]].
  rewrite (findEdgeHelper_spec _ _ t _ Hn). cbn [rbind].
  unfold edge_cursor. rewrite Hn.
  destruct (edge_list n) as [|e0 es] eqn:El.
  { exists (Some f). split; [reflexivity | discriminate]. }
  destruct (edge_pos (Some t) (e0 :: es)) as [k|] eqn:Hk; cbn [from_option id].
  - destruct (edge_pos_Some _ _ _ Hk) as [e [He Ht]].
    rewrite (at_edge_Some g f k n e Hn) by now rewrite El.
    cbn [rbind]. rewrite (proj2 (vptr_eqb_eq _ _) Ht). cbn [negb].
    exists (Some f). split; [reflexivity|]. intros f' k' H. now inversion H.
  - destruct (last_record_lookup e0 es) as [e He].
    rewrite (at_edge_Some g f _ n e Hn) by now rewrite El.
    cbn [rbind].
    assert (vptr_eqb (vertex_node e) (Some t) = false) as ->.
    { destruct (vptr_eqb (vertex_node e) (Some t)) eqn:Hv; [|reflexivity].
      apply vptr_eqb_eq in Hv. now apply (edge_pos_None _ _ _ _ Hk He) in Hv. }
    cbn [negb]. exists None. split; [reflexivity | discriminate].
Qed.

(** What [findEdge] reports when it succeeds. *)
Lemma findEdge_found g edge it :
  findEdge vertex_equal g edge = Ok it -> edge_at_end it = false ->
  exists f t n k e,
    it = mkEdgeIter (Some f) (Some (f, k)) /\
    vpos (get0 edge) (m_vertex_node_list g) = Some f /\
    vpos (get1 edge) (m_vertex_node_list g) = Some t /\
    m_vertex_node_list g !! f = Some n /\
    edge_pos (Some t) (edge_list n) = Some k /\
    edge_list n !! k = Some e /\
    edge_between (m_vertex_node_list g) f t = Some e.
Proof using veq_sym.
  intros E Hend. destruct (findEdge_spec g edge) as [v [E' Hv]].
  rewrite E' in E. inversion E; subst it; clear E.
  unfold edge_at_end, EdgeIter_eq in Hend. cbn in Hend.
  unfold find_edge_ptr in *.
  destruct (vpos (get0 edge) (m_vertex_node_list g)) as [f|] eqn:Ef;
    [|discriminate Hend].
  destruct (vpos (get1 edge) (m_vertex_node_list g)) as [t|] eqn:Et;
    [|discriminate Hend].
  unfold edge_cursor in *.
  destruct (m_vertex_node_list g !! f) as [n|] eqn:Hn; [|discriminate Hend].
  destruct (edge_pos (Some t) (edge_list n)) as [k|] eqn:Hk; [|discriminate Hend].
  destruct (edge_pos_Some _ _ _ Hk) as [e [He _]].
  exists f, t, n, k, e. rewrite (Hv f k eq_refl). repeat split; auto.
  unfold edge_between. now rewrite Hn, Hk.
Qed.

Lemma edge_cursor_insert_edge Weighted f t w l n :
  l !! f = Some n ->
  edge_cursor (insert_edge Weighted f t w l) f t
  = Some (f, default (length (edge_list n)) (edge_pos (Some t) (edge_list n))).
Proof.
  intros Hn. unfold insert_edge, edge_cursor. rewrite Hn.
  destruct (edge_pos (Some t) (edge_list n)) as [k|] eqn:Hk.
  - now rewrite Hn, Hk.
  - rewrite list_lookup_insert_eq by (eapply lookup_lt_Some; exact Hn).
    cbn [edge_list]. rewrite edge_pos_app, Hk. cbn [vertex_node vptr_eqb].
    now rewrite Nat.eqb_refl.
Qed.

Lemma mirrored_Some l i j e :
  mirrored l -> edge_between l i j = Some e ->
  exists e', edge_between l j i = Some e' /\ weight e' = weight e.
Proof.
  intros Hm He. specialize (Hm i j). rewrite He in Hm. cbn in Hm.
  destruct (edge_between l j i) as [e'|]; [|discriminate Hm].
  exists e'. split; [reflexivity|]. cbn in Hm. congruence.
Qed.

Lemma mirrored_None l i j :
  mirrored l -> edge_between l i j = None -> edge_between l j i = None.
Proof.
  intros Hm He. specialize (Hm i j). rewrite He in Hm. cbn in Hm.
  now destruct (edge_between l j i).
Qed.

Lemma mirrored_insert_vertex value l :
  mirrored l -> mirrored (ins_vertex value l).2.
Proof.
  intros Hm. unfold insert_vertex. destruct (vpos value l); [exact Hm|].
  intros i j. cbn [snd]. now rewrite !edge_between_app_empty.
Qed.

(** The two insertions of the undirected [addEdge] keep the lists mirrored. *)
Lemma mirrored_insert_both Weighted f t w l :
  (f < length l)%nat -> (t < length l)%nat -> mirrored l ->
  mirrored (insert_edge Weighted f t w (insert_edge Weighted t f w l)).
Proof.
  intros Hf Ht Hm i j.
  rewrite !edge_between_insert_edge by (rewrite ?insert_edge_length; assumption).
  destruct (edge_between l t f) as [e|] eqn:Etf.
  - destruct (mirrored_Some _ _ _ _ Hm Etf) as [e' [Eft _]]. rewrite Eft. apply Hm.
  - rewrite (mirrored_None _ _ _ Hm Etf).
    destruct (Nat.eqb_spec f t) as [->|Hne].
    + rewrite Nat.eqb_refl. cbn [andb].
      rewrite (andb_comm (Nat.eqb j t)).
      destruct (Nat.eqb i t && Nat.eqb j t); [reflexivity | apply Hm].
    + cbn [andb].
      destruct (Nat.eqb_spec i f) as [->|Hif], (Nat.eqb_spec j t) as [->|Hjt];
      destruct (Nat.eqb_spec t f) as [Htf|_]; try (now subst);
      cbn [andb]; rewrite ?Nat.eqb_refl; cbn [andb];
      repeat match goal with
             | |- context [Nat.eqb ?x ?y] =>
                 destruct (Nat.eqb_spec x y); try (subst; congruence); cbn [andb]
             end;
      try reflexivity; try apply Hm.
Qed.

Lemma addEdge_mirrored Weighted edge g r g' :
  mirrored (m_vertex_node_list g) ->
  addEdge vertex_equal intptr_of false Weighted edge g = Ok (r, g') ->
  mirrored (m_vertex_node_list g').
Proof using veq_sym.
  intros Hm E.
  destruct (addEdge_spec vertex_equal intptr_of veq_sym false Weighted edge g)
    as [n [_ E']].
  rewrite E' in E. inversion E; subst; clear E E'. cbn [m_vertex_node_list].
  pose proof (insert_vertex_valid vertex_equal (get0 edge) (m_vertex_node_list g)) as Hf.
  pose proof (insert_vertex_valid vertex_equal (get1 edge)
                (ins_vertex (get0 edge) (m_vertex_node_list g)).2) as Ht.
  destruct (insert_vertex_prefix vertex_equal (get1 edge)
              (ins_vertex (get0 edge) (m_vertex_node_list g)).2) as [tl Htl].
  apply mirrored_insert_both.
  - rewrite Htl, length_app. lia.
  - exact Ht.
  - now apply mirrored_insert_vertex, mirrored_insert_vertex.
Qed.

Lemma addVertex_mirrored value g r g' :
  mirrored (m_vertex_node_list g) ->
  addVertex vertex_equal value g = Ok (r, g') ->
  mirrored (m_vertex_node_list g').
Proof using veq_sym.
  intros Hm. rewrite (addVertex_spec vertex_equal veq_sym). intros E.
  inversion E; subst. cbn [m_vertex_node_list]. now apply mirrored_insert_vertex.
Qed.

(** After [addEdge], [findEdge] on the same endpoints reports the cursor
    that [addEdge] returned. *)
Lemma addEdge_then_findEdge Directed Weighted edge edge' g it ins g' :
  vertex_equal (get0 edge') (get0 edge) = true ->
  vertex_equal (get1 edge') (get1 edge) = true ->
  addEdge vertex_equal intptr_of Directed Weighted edge g = Ok (it, ins, g') ->
  findEdge vertex_equal g' edge' = Ok it /\ edge_at_end it = false.
Proof using veq_refl veq_sym veq_trans.
  intros H0 H1 E.
  destruct (addEdge_spec vertex_equal intptr_of veq_sym Directed Weighted edge g)
    as [n [Hn E']].
  rewrite E' in E. inversion E; subst it ins g'; clear E E'.
  split; [|reflexivity].
  match goal with
  | |- findEdge _ ?G _ = _ => destruct (findEdge_spec G edge') as [v [-> Hv]]
  end.
  revert Hv Hn. cbn [m_vertex_node_list]. unfold find_edge_ptr.
  rewrite (vertex_pos_compat vertex_equal veq_sym veq_trans _ _ _ H0),
    (vertex_pos_compat vertex_equal veq_sym veq_trans _ _ _ H1).
  set (l := m_vertex_node_list g).
  set (l1 := (ins_vertex (get0 edge) l).2).
  set (f := (ins_vertex (get0 edge) l).1).
  set (l2 := (ins_vertex (get1 edge) l1).2).
  set (t := (ins_vertex (get1 edge) l1).1).
  set (w := int_of_intptr _).
  set (l3 := if Directed then l2 else insert_edge Weighted t f w l2).
  intros Hv Hn.
  assert (vpos (get0 edge) l3 = Some f) as Hpf.
  { assert (vpos (get0 edge) l2 = Some f) as H
      by (apply vertex_pos_insert_keep, insert_vertex_pos).
    subst l3. destruct Directed; [exact H|]. now rewrite vertex_pos_insert_edge. }
  assert (vpos (get1 edge) l3 = Some t) as Hpt.
  { assert (vpos (get1 edge) l2 = Some t) as H by apply insert_vertex_pos.
    subst l3. destruct Directed; [exact H|]. now rewrite vertex_pos_insert_edge. }
  unfold find_edge_ptr in *. rewrite !vertex_pos_insert_edge in *.
  rewrite Hpf, Hpt in *.
  rewrite (edge_cursor_insert_edge Weighted f t w l3 n Hn) in *.
  now rewrite (Hv _ _ eq_refl).
Qed.

(** C4. Inserting an edge whose ordered endpoint pair is already joined
    by an edge record returns the cursor to that record with
    [inserted = false] and returns the graph as it was: no record is
    created and the stored weight stays, whatever weight the tuple brings.
    This holds for [addEdgeHelper] on the two vertex records, for the
    public [addEdge] when [findEdge] reports the edge, and for a second
    [addEdge] on the endpoints of a first.  (An undirected graph is taken
    with mirrored edge lists, as every undirected graph built through the
    interface has them: lemma [reachable_well_formed].) *)
Theorem addEdge_idempotent (Directed Weighted : bool) g :
  (Directed = false -> mirrored (m_vertex_node_list g)) ->
  (forall edge it,
     findEdge vertex_equal g edge = Ok it -> edge_at_end it = false ->
     addEdge vertex_equal intptr_of Directed Weighted edge g = Ok (it, false, g) /\
     exists f t,
       vpos (get0 edge) (m_vertex_node_list g) = Some f /\
       vpos (get1 edge) (m_vertex_node_list g) = Some t /\
       forall w, addEdgeHelper Weighted (Some f) (Some t) w g = Ok (it, false, g)) /\
  (forall edge edge' it ins g1,
     vertex_equal (get0 edge') (get0 edge) = true ->
     vertex_equal (get1 edge') (get1 edge) = true ->
     addEdge vertex_equal intptr_of Directed Weighted edge g = Ok (it, ins, g1) ->
     addEdge vertex_equal intptr_of Directed Weighted edge' g1 = Ok (it, false, g1)).
Proof using veq_refl veq_sym veq_trans.
  intros Hinv.
  assert (forall g0 edge it,
            (Directed = false -> mirrored (m_vertex_node_list g0)) ->
            findEdge vertex_equal g0 edge = Ok it -> edge_at_end it = false ->
            addEdge vertex_equal intptr_of Directed Weighted edge g0
            = Ok (it, false, g0) /\
            exists f t,
              vpos (get0 edge) (m_vertex_node_list g0) = Some f /\
              vpos (get1 edge) (m_vertex_node_list g0) = Some t /\
              forall w, addEdgeHelper Weighted (Some f) (Some t) w g0
                        = Ok (it, false, g0)) as Hfound.
  { clear g Hinv. intros g edge it Hinv E Hend.
    destruct (findEdge_found g edge it E Hend)
      as [f [t [n [k [e [-> [Hf [Ht [Hn [Hk [He Hb]]]]]]]]]]].
    assert (forall w, addEdgeHelper Weighted (Some f) (Some t) w g
                      = Ok (mkEdgeIter (Some f) (Some (f, k)), false, g)) as Hhelper.
    { intros w. rewrite (addEdgeHelper_spec Weighted g f t w n Hn).
      rewrite (insert_edge_present Weighted f t w _ e Hb), Hk.
      cbn [from_option id]. now destruct g. }
    split; [|now exists f, t].
    destruct (addEdge_spec vertex_equal intptr_of veq_sym Directed Weighted edge g)
      as [n' [Hn' ->]].
    revert Hn'. rewrite (insert_vertex_found _ _ _ Hf). cbn [fst snd].
    rewrite (insert_vertex_found _ _ _ Ht). cbn [fst snd].
    unfold size_after. rewrite Hf, Ht.
    assert ((if Directed then m_vertex_node_list g
             else insert_edge Weighted t f
                    (int_of_intptr (get_last_intptr intptr_of edge))
                    (m_vertex_node_list g)) = m_vertex_node_list g) as ->.
    { destruct Directed; [reflexivity|].
      destruct (mirrored_Some _ _ _ _ (Hinv eq_refl) Hb) as [e' [Hb' _]].
      now apply insert_edge_present with (e := e'). }
    intros Hn'. assert (n' = n) by congruence. subst n'.
    rewrite (insert_edge_present Weighted f t _ _ e Hb), Hk.
    cbn [from_option id]. now destruct g. }
  split.
  - intros edge it. now apply Hfound.
  - intros edge edge' it ins g1 H0 H1 E.
    destruct (addEdge_then_findEdge Directed Weighted edge edge' g it ins g1 H0 H1 E)
      as [Efind Hend].
    apply (Hfound g1 edge' it); [|exact Efind|exact Hend].
    intros ->. eapply addEdge_mirrored; [apply Hinv; reflexivity | exact E].
Qed.

Lemma findEdge_missing g edge it :
  findEdge vertex_equal g edge = Ok it -> edge_at_end it = true ->
  find_edge_ptr vertex_equal (m_vertex_node_list g) (get0 edge) (get1 edge) = None.
Proof using veq_sym.
  intros E Hend. destruct (findEdge_spec g edge) as [v [E' _]].
  rewrite E' in E. inversion E; subst it. now apply edge_at_end_None in Hend.
Qed.

Lemma edge_records_insert_vertex value l sz sz' :
  edge_records (mkGraph (ins_vertex value l).2 sz) = edge_records (mkGraph l sz').
Proof.
  unfold insert_vertex. destruct (vpos value l); cbn [snd]; [reflexivity|].
  apply edge_records_app_empty.
Qed.

(** No edge joins the record of [a] to the record of [b] once both values
    are inserted, if [findEdge] found none before. *)
Lemma edge_between_fresh_endpoints l a b :
  (forall i j, edge_between l i j <> None -> (j < length l)%nat) ->
  find_edge_ptr vertex_equal l a b = None ->
  edge_between (ins_vertex b (ins_vertex a l).2).2
    (ins_vertex a l).1 (ins_vertex b (ins_vertex a l).2).1 = None.
Proof using veq_refl.
  intros Hvalid Hnone.
  assert (forall value l0 i j,
            edge_between (ins_vertex value l0).2 i j = edge_between l0 i j) as Hkeep.
  { intros value l0 i j. unfold insert_vertex.
    destruct (vpos value l0); cbn [snd]; [reflexivity|].
    apply edge_between_app_empty. }
  rewrite !Hkeep. unfold find_edge_ptr in Hnone.
  destruct (vpos a l) as [f|] eqn:Ea.
  - rewrite (insert_vertex_found _ _ _ Ea). cbn [fst snd].
    destruct (vpos b l) as [t|] eqn:Eb.
    + rewrite (insert_vertex_found _ _ _ Eb). cbn [fst].
      unfold edge_cursor in Hnone. unfold edge_between.
      destruct (l !! f) as [n|]; [|reflexivity].
      now destruct (edge_pos (Some t) (edge_list n)).
    + unfold insert_vertex. rewrite Eb. cbn [fst].
      destruct (edge_between l f (length l)) eqn:E; [|reflexivity].
      assert (length l < length l)%nat; [|lia].
      apply (Hvalid f). congruence.
  - assert ((ins_vertex a l).1 = length l) as ->
      by (unfold insert_vertex; now rewrite Ea).
    unfold edge_between. now rewrite lookup_ge_None_2.
Qed.

Lemma mirrored_targets_lt l i j :
  mirrored l -> edge_between l i j <> None -> (j < length l)%nat.
Proof.
  intros Hm H. destruct (edge_between l i j) as [e|] eqn:E; [|congruence].
  destruct (mirrored_Some _ _ _ _ Hm E) as [e' [E' _]].
  destruct (edge_between_Some _ _ _ _ E') as [n [_ [Hn _]]].
  eapply lookup_lt_Some; exact Hn.
Qed.

Lemma edge_between_cursor l i j e :
  edge_between l i j = Some e ->
  exists n k, l !! i = Some n /\ edge_cursor l i j = Some (i, k) /\
              edge_list n !! k = Some e /\ vertex_node e = Some j.
Proof.
  intros H. destruct (edge_between_Some _ _ _ _ H) as [n [k [Hn [Hk [He Ht]]]]].
  exists n, k. unfold edge_cursor. now rewrite Hn, Hk.
Qed.

Lemma edge_between_old_endpoints l a b p :
  find_edge_ptr vertex_equal l a b = Some p ->
  exists e,
    edge_between (ins_vertex b (ins_vertex a l).2).2
      (ins_vertex a l).1 (ins_vertex b (ins_vertex a l).2).1 = Some e.
Proof.
  unfold find_edge_ptr. intros H.
  destruct (vpos a l) as [f|] eqn:Ea; [|discriminate H].
  destruct (vpos b l) as [t|] eqn:Eb; [|discriminate H].
  rewrite (insert_vertex_found _ _ _ Ea). cbn [fst snd].
  rewrite (insert_vertex_found _ _ _ Eb). cbn [fst snd].
  unfold edge_cursor in H. unfold edge_between.
  destruct (l !! f) as [n|]; [|discriminate H].
  destruct (edge_pos (Some t) (edge_list n)) as [k|] eqn:Ek; [|discriminate H].
  destruct (edge_pos_Some _ _ _ Ek) as [e [He _]]. now exists e.
Qed.

(** C8. In an undirected graph whose vertex [u] has no self-loop,
    [addEdge] on [(u,u)] returns [inserted = false], and yet the edge list
    of [u]'s record has gained exactly one record, with destination [u]
    itself, to which the returned cursor points; no other record changes. *)
Theorem undirected_self_loop_reported_duplicate (Weighted : bool) g edge it0 :
  vertex_equal (get0 edge) (get1 edge) = true ->
  findEdge vertex_equal g edge = Ok it0 ->
  edge_at_end it0 = true ->
  let f := (ins_vertex (get0 edge) (m_vertex_node_list g)).1 in
  let l1 := (ins_vertex (get0 edge) (m_vertex_node_list g)).2 in
  exists n g',
    l1 !! f = Some n /\
    addEdge vertex_equal intptr_of false Weighted edge g
    = Ok (mkEdgeIter (Some f) (Some (f, length (edge_list n))), false, g') /\
    m_vertex_node_list g'
    = <[f := mkVertexNode (vertex n)
              (edge_list n
               ++ [mkEdgeNode
                     (if Weighted
                      then int_of_intptr (get_last_intptr intptr_of edge) else 0)
                     (Some f)])]> l1 /\
    edge_records g' = (edge_records g + 1)%nat.
Proof using veq_refl veq_sym veq_trans.
  intros Hloop E Hend f l1.
  pose proof (findEdge_missing g edge it0 E Hend) as Hnone.
  assert (vpos (get1 edge) l1 = Some f) as Hb.
  { rewrite <- (vertex_pos_compat vertex_equal veq_sym veq_trans _ _ _ Hloop).
    apply insert_vertex_pos. }
  assert (f < length l1)%nat as Hf by apply insert_vertex_valid.
  destruct (lookup_lt_is_Some_2 _ _ Hf) as [n Hn].
  assert (edge_pos (Some f) (edge_list n) = None) as Hfresh.
  { apply (edge_between_None l1 f f n Hn).
    unfold find_edge_ptr in Hnone. subst f l1. unfold insert_vertex in *.
    destruct (vpos (get0 edge) (m_vertex_node_list g)) as [f0|] eqn:Ea;
      cbn [fst snd] in *.
    - rewrite Hb in Hnone. unfold edge_cursor in Hnone. unfold edge_between.
      rewrite Hn in *. now destruct (edge_pos (Some f0) (edge_list n)).
    - rewrite list_lookup_middle in Hn by reflexivity. inversion Hn; subst n.
      unfold edge_between. now rewrite list_lookup_middle. }
  destruct (addEdge_spec vertex_equal intptr_of veq_sym false Weighted edge g)
    as [n' [Hn' E']].
  revert Hn' E'. fold l1 f. rewrite (insert_vertex_found _ _ _ Hb). cbn [fst snd].
  set (w := int_of_intptr _).
  unfold insert_edge at 1 3. rewrite Hn, Hfresh.
  set (n1 := mkVertexNode _ _). intros Hn' E'.
  rewrite list_lookup_insert_eq in Hn' by exact Hf. inversion Hn'; subst n'.
  assert (edge_pos (Some f) (edge_list n1) = Some (length (edge_list n))) as Hpos.
  { subst n1. cbn [edge_list]. rewrite edge_pos_app, Hfresh.
    cbn [vertex_node vptr_eqb]. now rewrite Nat.eqb_refl. }
  rewrite Hpos in E'. cbn [from_option id] in E'.
  eexists n, _. split; [reflexivity|]. split; [exact E'|].
  assert (insert_edge Weighted f f w (<[f:=n1]> l1) = <[f:=n1]> l1) as Hsame.
  { unfold insert_edge. rewrite list_lookup_insert_eq by exact Hf. now rewrite Hpos. }
  cbn [m_vertex_node_list]. rewrite Hsame. split; [reflexivity|].
  unfold edge_records. cbn [m_vertex_node_list].
  pose proof (sum_list_with_insert (fun n => length (edge_list n)) l1 f n n1 Hn) as Hsum.
  subst n1. cbn [edge_list] in Hsum. rewrite length_app in Hsum. cbn [length] in Hsum.
  pose proof (edge_records_insert_vertex (get0 edge) (m_vertex_node_list g) 0 0) as Hl1.
  unfold edge_records in Hl1. cbn [m_vertex_node_list] in Hl1. fold l1 in Hl1. lia.
Qed.

Lemma int_of_intptr_id w : is_int w -> int_of_intptr w = w.
Proof.
  unfold is_int, int_of_intptr. intros H.
  rewrite Z.mod_small by lia. lia.
Qed.

(** C3 (as amended). In an undirected graph, [addEdge] on a tuple with
    distinct endpoints [a], [b] first inserts the mirror edge from [b] to
    [a], then the edge from [a] to [b], and returns the cursor and flag of
    that second insertion alone: the flag tells whether the edge from [a]
    to [b] was missing before the call.  Afterwards [findEdge] succeeds in
    both directions, and the two records dereference to mirrored tuples
    with one and the same weight; that weight is the weight given to the
    call when the edge was inserted by it ([inserted = true]), and the
    weight stored earlier otherwise: a call that reports a duplicate
    ([inserted = false]) leaves the graph as it was, and both cursors
    dereference in the graph before the call to the tuples they
    dereference to after it.  (The graph is taken with mirrored
    edge lists, as every undirected graph built through the interface has
    them: lemma [reachable_well_formed].) *)
Theorem undirected_mirroring (Weighted : bool) g edge :
  mirrored (m_vertex_node_list g) ->
  vertex_equal (get0 edge) (get1 edge) = false ->
  let w := int_of_intptr (get_last_intptr intptr_of edge) in
  exists f t new1 g1 new2 g2 mirror_result g3 it ins g' it_ba va vb wt,
    addVertex vertex_equal (get0 edge) g = Ok (mkVertexIter (Some f), new1, g1) /\
    addVertex vertex_equal (get1 edge) g1 = Ok (mkVertexIter (Some t), new2, g2) /\
    addEdgeHelper Weighted (Some t) (Some f) w g2 = Ok (mirror_result, g3) /\
    addEdgeHelper Weighted (Some f) (Some t) w g3 = Ok (it, ins, g') /\
    addEdge vertex_equal intptr_of false Weighted edge g = Ok (it, ins, g') /\
    (forall it0, findEdge vertex_equal g edge = Ok it0 -> ins = edge_at_end it0) /\
    findEdge vertex_equal g' edge = Ok it /\ edge_at_end it = false /\
    findEdge vertex_equal g' (mirror_edge edge) = Ok it_ba /\
    edge_at_end it_ba = false /\
    vertex_equal (get0 edge) va = true /\ vertex_equal (get1 edge) vb = true /\
    EdgeIter_deref Weighted g' it
    = Ok (if Weighted then Edge3 va vb wt else Edge2 va vb) /\
    EdgeIter_deref Weighted g' it_ba
    = Ok (if Weighted then Edge3 vb va wt else Edge2 vb va) /\
    (Weighted = true -> ins = true -> wt = w) /\
    (ins = false ->
     g' = g /\
     findEdge vertex_equal g edge = Ok it /\
     findEdge vertex_equal g (mirror_edge edge) = Ok it_ba /\
     EdgeIter_deref Weighted g it
     = Ok (if Weighted then Edge3 va vb wt else Edge2 va vb) /\
     EdgeIter_deref Weighted g it_ba
     = Ok (if Weighted then Edge3 vb va wt else Edge2 vb va)) /\
    (forall w0, edge = Edge3 (get0 edge) (get1 edge) w0 -> is_int w0 -> w = w0).
Proof using veq_refl veq_sym veq_trans.
  intros Hm Hdist w.
  set (l := m_vertex_node_list g).
  set (l1 := (ins_vertex (get0 edge) l).2).
  set (f := (ins_vertex (get0 edge) l).1).
  set (l2 := (ins_vertex (get1 edge) l1).2).
  set (t := (ins_vertex (get1 edge) l1).1).
  set (l3 := insert_edge Weighted t f w l2).
  set (l' := insert_edge Weighted f t w l3).
  set (sz1 := size_after vertex_equal (get0 edge) l (m_size g)).
  set (sz2 := size_after vertex_equal (get1 edge) l1 sz1).
  (* positions *)
  assert (vpos (get0 edge) l2 = Some f) as Hpf2
    by (apply vertex_pos_insert_keep, insert_vertex_pos).
  assert (vpos (get1 edge) l2 = Some t) as Hpt2 by apply insert_vertex_pos.
  assert (f <> t) as Hft.
  { intros Heq. rewrite <- Heq in Hpt2.
    pose proof (vertex_pos_same _ _ _ _ Hpf2 Hpt2). congruence. }
  assert (t < length l2)%nat as Ht by apply insert_vertex_valid.
  assert (f < length l2)%nat as Hf by (eapply first_index_lt; exact Hpf2).
  assert (f < length l3)%nat as Hf3 by (subst l3; now rewrite insert_edge_length).
  destruct (lookup_lt_is_Some_2 _ _ Ht) as [nt Hnt].
  destruct (lookup_lt_is_Some_2 _ _ Hf3) as [n Hn].
  assert (vpos (get0 edge) l' = Some f) as Hpf
    by (subst l' l3; now rewrite !vertex_pos_insert_edge).
  assert (vpos (get1 edge) l' = Some t) as Hpt
    by (subst l' l3; now rewrite !vertex_pos_insert_edge).
  (* invariants *)
  assert (mirrored l2) as Hm2 by now apply mirrored_insert_vertex, mirrored_insert_vertex.
  assert (mirrored l') as Hm' by now apply mirrored_insert_both.
  (* the calls *)
  set (it := mkEdgeIter (Some f)
               (Some (f, default (length (edge_list n))
                           (edge_pos (Some t) (edge_list n))))).
  set (ins := match edge_pos (Some t) (edge_list n) with
              | Some _ => false
              | None => true
              end).
  assert (addEdge vertex_equal intptr_of false Weighted edge g
          = Ok (it, ins, mkGraph l' sz2)) as Eadd.
  { destruct (addEdge_spec vertex_equal intptr_of veq_sym false Weighted edge g)
      as [n' [Hn' E']].
    fold l l1 f l2 t w l3 l' sz1 sz2 in Hn', E'.
    assert (n' = n) by congruence. now subst n'. }
  destruct (addEdge_then_findEdge false Weighted edge edge g it ins _
              (veq_refl _) (veq_refl _) Eadd) as [Efind Hend].
  destruct (findEdge_found _ edge it Efind Hend)
    as [f1 [t1 [n1 [k1 [e1 [Hit [Hf1 [Ht1 [Hn1 [Hk1 [He1 Hb1]]]]]]]]]]].
  cbn [m_vertex_node_list] in Hf1, Ht1, Hn1, Hb1.
  assert (f1 = f) by congruence. assert (t1 = t) by congruence. subst f1 t1.
  destruct (mirrored_Some _ _ _ _ Hm' Hb1) as [e2 [Hb2 Hw]].
  destruct (edge_between_cursor _ _ _ _ Hb2) as [m1 [k2 [Hm1 [Hc2 [He2 Hv2]]]]].
  destruct (edge_between_Some _ _ _ _ Hb1) as [n1' [k1' [Hn1' [_ [_ Hv1]]]]].
  destruct (findEdge_spec (mkGraph l' sz2) (mirror_edge edge)) as [v [Efind2 Hv]].
  assert (get0 (mirror_edge edge) = get1 edge) as Hg0 by now destruct edge.
  assert (get1 (mirror_edge edge) = get0 edge) as Hg1 by now destruct edge.
  cbn [m_vertex_node_list] in Efind2, Hv. rewrite Hg0, Hg1 in Efind2, Hv.
  unfold find_edge_ptr in Efind2, Hv. rewrite Hpf, Hpt, Hc2 in Efind2, Hv.
  rewrite (Hv _ _ eq_refl) in Efind2.
  destruct (vertex_pos_Some _ _ _ _ Hpf) as [na [Hna Hva]].
  destruct (vertex_pos_Some _ _ _ _ Hpt) as [nb [Hnb Hvb]].
  assert (n1 = na) by congruence. assert (m1 = nb) by congruence. subst n1 m1.
  (* a duplicate leaves the graph as it was *)
  assert (ins = false -> mkGraph l' sz2 = g) as Hsame.
  { intros Hins. subst ins.
    assert (edge_between l3 f t = edge_between l2 f t) as H32.
    { subst l3. rewrite edge_between_insert_edge by exact Ht.
      destruct (edge_between l2 t f); [reflexivity|].
      destruct (Nat.eqb_spec f t); [contradiction | reflexivity]. }
    destruct (find_edge_ptr vertex_equal l (get0 edge) (get1 edge)) as [p|] eqn:Ep.
    - destruct (edge_between_old_endpoints l _ _ p Ep) as [e Hb].
      fold l1 f l2 t in Hb.
      destruct (mirrored_Some _ _ _ _ Hm2 Hb) as [e' [Hb' _]].
      unfold find_edge_ptr in Ep.
      destruct (vpos (get0 edge) l) as [f0|] eqn:Ea; [|discriminate Ep].
      destruct (vpos (get1 edge) l) as [t0|] eqn:Eb; [|discriminate Ep].
      assert (l1 = l) as Hl1
        by (unfold l1; now rewrite (insert_vertex_found _ _ _ Ea)).
      assert (l2 = l) as Hl2.
      { unfold l2. rewrite Hl1. now rewrite (insert_vertex_found _ _ _ Eb). }
      assert (l3 = l2) as Hl3
        by (unfold l3; now apply insert_edge_present with (e := e')).
      assert (l' = l3) as Hl'.
      { unfold l'. rewrite Hl3. now apply insert_edge_present with (e := e). }
      assert (sz2 = m_size g) as Hsz.
      { unfold sz2, sz1, size_after. rewrite Hl1. now rewrite Ea, Eb. }
      rewrite Hl', Hl3, Hl2, Hsz. unfold l. now destruct g.
    - pose proof (edge_between_fresh_endpoints l _ _
                    (fun i j => mirrored_targets_lt l i j Hm) Ep) as Hb.
      fold l1 f l2 t in Hb. rewrite <- H32 in Hb.
      apply (edge_between_None l3 f t n Hn) in Hb. rewrite Hb in Hins.
      discriminate Hins. }
  exists f, t.
  eexists _, (mkGraph l1 sz1), _, (mkGraph l2 sz2), _, (mkGraph l3 sz2).
  exists it, ins, (mkGraph l' sz2), (mkEdgeIter (Some t) (Some (t, k2))).
  exists (vertex na), (vertex nb), (weight e1).
  repeat apply conj.
  - rewrite (addVertex_spec vertex_equal veq_sym). reflexivity.
  - rewrite (addVertex_spec vertex_equal veq_sym). reflexivity.
  - rewrite (addEdgeHelper_spec Weighted (mkGraph l2 sz2) t f w nt Hnt). reflexivity.
  - rewrite (addEdgeHelper_spec Weighted (mkGraph l3 sz2) f t w n Hn). reflexivity.
  - exact Eadd.
  - intros it0 E0. destruct (findEdge_spec g edge) as [v0 [E0' _]].
    rewrite E0' in E0. inversion E0; subst it0; clear E0 E0'.
    unfold edge_at_end, EdgeIter_eq. cbn [m_edge_node edge_end]. fold l.
    assert (edge_between l3 f t = edge_between l2 f t) as H32.
    { subst l3. rewrite edge_between_insert_edge by exact Ht.
      destruct (edge_between l2 t f); [reflexivity|].
      destruct (Nat.eqb_spec f t); [contradiction | reflexivity]. }
    subst ins.
    destruct (find_edge_ptr vertex_equal l (get0 edge) (get1 edge)) as [p|] eqn:Ep.
    + destruct (edge_between_old_endpoints l _ _ p Ep) as [e Hb].
      fold l1 f l2 t in Hb. rewrite <- H32 in Hb.
      destruct (edge_between_Some _ _ _ _ Hb) as [n0 [k0 [Hn0 [Hk0 _]]]].
      assert (n0 = n) by congruence. subst n0. rewrite Hk0. now destruct p.
    + pose proof (edge_between_fresh_endpoints l _ _
                    (fun i j => mirrored_targets_lt l i j Hm) Ep) as Hb.
      fold l1 f l2 t in Hb. rewrite <- H32 in Hb.
      apply (edge_between_None l3 f t n Hn) in Hb. now rewrite Hb.
  - exact Efind.
  - exact Hend.
  - exact Efind2.
  - reflexivity.
  - exact Hva.
  - exact Hvb.
  - rewrite Hit.
    apply (EdgeIter_deref_record Weighted (mkGraph l' sz2) f k1 na e1 t nb);
      assumption.
  - rewrite <- Hw.
    apply (EdgeIter_deref_record Weighted (mkGraph l' sz2) t k2 nb e2 f na);
      assumption.
  - intros HW Hins. subst ins.
    destruct (edge_pos (Some t) (edge_list n)) eqn:Ek; [discriminate Hins|].
    apply (edge_between_None l3 f t n Hn) in Ek.
    subst l'. rewrite edge_between_insert_edge in Hb1 by exact Hf3.
    rewrite Ek, !Nat.eqb_refl in Hb1. cbn [andb] in Hb1.
    inversion Hb1. cbn [weight]. now rewrite HW.
  - intros Hins. pose proof (Hsame Hins) as Hg.
    assert (EdgeIter_deref Weighted (mkGraph l' sz2) it
            = Ok (if Weighted then Edge3 (vertex na) (vertex nb) (weight e1)
                  else Edge2 (vertex na) (vertex nb))) as Hd1.
    { rewrite Hit.
      apply (EdgeIter_deref_record Weighted (mkGraph l' sz2) f k1 na e1 t nb);
        assumption. }
    assert (EdgeIter_deref Weighted (mkGraph l' sz2)
              (mkEdgeIter (Some t) (Some (t, k2)))
            = Ok (if Weighted then Edge3 (vertex nb) (vertex na) (weight e1)
                  else Edge2 (vertex nb) (vertex na))) as Hd2.
    { rewrite <- Hw.
      apply (EdgeIter_deref_record Weighted (mkGraph l' sz2) t k2 nb e2 f na);
        assumption. }
    rewrite Hg in Efind, Efind2, Hd1, Hd2.
    split; [exact Hg|]. split; [exact Efind|]. split; [exact Efind2|].
    split; [exact Hd1 | exact Hd2].
  - intros w0 He Hint. subst w. rewrite He. cbn [get_last_intptr].
    now apply int_of_intptr_id.
Qed.

End EdgeStore.

(** * Edge records of an undirected graph *)

Section UndirectedRecords.

Context {V : Type}.
Variable vertex_equal : V -> V -> bool.
Variable intptr_of : V -> Z.

Hypothesis veq_refl : forall a, vertex_equal a a = true.
Hypothesis veq_sym :
  forall a b, vertex_equal a b = true -> vertex_equal b a = true.
Hypothesis veq_trans :
  forall a b c, vertex_equal a b = true -> vertex_equal b c = true ->
    vertex_equal a c = true.

Local Abbreviation vpos := (vertex_pos vertex_equal).
Local Abbreviation ins_vertex := (insert_vertex vertex_equal).
Local Abbreviation same := (same_edge vertex_equal).
Local Abbreviation has := (has_edge vertex_equal).
Implicit Types (g : Graph (V:=V)) (l : list (VertexNode (V:=V))).
Implicit Types (e x : edge_type (V:=V)).

Lemma veq_false_sym (a b : V) : vertex_equal a b = false -> vertex_equal b a = false.
Proof using veq_sym.
  intros H. destruct (vertex_equal b a) eqn:E; [|reflexivity].
  apply veq_sym in E. congruence.
Qed.

Lemma vertex_pos_eqb l (a b : V) i j :
  vpos a l = Some i -> vpos b l = Some j -> Nat.eqb i j = vertex_equal a b.
Proof using veq_sym veq_trans.
  intros Ha Hb. destruct (Nat.eqb_spec i j) as [->|Hne].
  - symmetry. eapply (vertex_pos_same vertex_equal veq_sym veq_trans); eauto.
  - destruct (vertex_equal a b) eqn:E; [|reflexivity].
    rewrite (vertex_pos_compat vertex_equal veq_sym veq_trans a b l E) in Ha.
    congruence.
Qed.

Lemma vertex_pos_None_neq l (a b : V) i :
  vpos a l = None -> vpos b l = Some i -> vertex_equal a b = false.
Proof using veq_sym veq_trans.
  intros Ha Hb. destruct (vertex_equal a b) eqn:E; [|reflexivity].
  rewrite (vertex_pos_compat vertex_equal veq_sym veq_trans a b l E) in Ha.
  congruence.
Qed.

Lemma vertex_pos_insert_new l (v a : V) i :
  vpos a l = None -> vpos a (ins_vertex v l).2 = Some i -> i = length l.
Proof.
  intros Ha. rewrite vertex_pos_insert, Ha.
  destruct (vpos v l); [discriminate|].
  destruct (vertex_equal a v); [|discriminate]. congruence.
Qed.

Lemma linked_cursor l i j :
  match edge_cursor l i j with Some _ => true | None => false end = linked l i j.
Proof.
  unfold linked, edge_cursor, edge_between.
  destruct (l !! i) as [n|]; [|reflexivity].
  destruct (edge_pos (Some j) (edge_list n)) as [k|] eqn:Ek; [|reflexivity].
  destruct (edge_pos_Some _ _ _ Ek) as [e [-> _]]. reflexivity.
Qed.

Lemma has_edge_linked l e :
  has l e
  = match vpos (get0 e) l, vpos (get1 e) l with
    | Some f, Some t => linked l f t
    | _, _ => false
    end.
Proof.
  unfold has_edge, find_edge_ptr.
  destruct (vpos (get0 e) l) as [f|]; [|reflexivity].
  destruct (vpos (get1 e) l) as [t|]; [|reflexivity].
  apply linked_cursor.
Qed.

Lemma linked_insert_vertex l (v : V) i j :
  linked (ins_vertex v l).2 i j = linked l i j.
Proof.
  unfold linked, insert_vertex. destruct (vpos v l); cbn [snd]; [reflexivity|].
  now rewrite edge_between_app_empty.
Qed.

Lemma linked_lt l i j :
  mirrored l -> linked l i j = true -> (i < length l)%nat /\ (j < length l)%nat.
Proof.
  unfold linked. intros Hm H.
  destruct (edge_between l i j) as [e|] eqn:E; [|discriminate H]. split.
  - destruct (edge_between_Some _ _ _ _ E) as [n [_ [Hn _]]].
    eapply lookup_lt_Some; exact Hn.
  - apply (mirrored_targets_lt l i j Hm). congruence.
Qed.

Lemma linked_sym l i j : mirrored l -> linked l i j = linked l j i.
Proof.
  intros Hm. unfold linked. specialize (Hm i j).
  destruct (edge_between l i j), (edge_between l j i); cbn in Hm; congruence.
Qed.

(** Inserting a vertex does not change which edges [findEdge] finds. *)
Lemma has_edge_insert_vertex l (v : V) x :
  mirrored l -> has (ins_vertex v l).2 x = has l x.
Proof.
  intros Hm. rewrite !has_edge_linked.
  destruct (vpos (get0 x) l) as [i|] eqn:Ec.
  - rewrite (vertex_pos_insert_keep vertex_equal v l _ i Ec).
    destruct (vpos (get1 x) l) as [j|] eqn:Ed.
    + rewrite (vertex_pos_insert_keep vertex_equal v l _ j Ed).
      apply linked_insert_vertex.
    + destruct (vpos (get1 x) (ins_vertex v l).2) as [j|] eqn:Ed'; [|reflexivity].
      apply (vertex_pos_insert_new l v _ j Ed) in Ed'. subst j.
      rewrite linked_insert_vertex.
      destruct (linked l i (length l)) eqn:El; [|reflexivity].
      apply (linked_lt l _ _ Hm) in El. lia.
  - destruct (vpos (get0 x) (ins_vertex v l).2) as [i|] eqn:Ec'; [|reflexivity].
    apply (vertex_pos_insert_new l v _ i Ec) in Ec'. subst i.
    destruct (vpos (get1 x) (ins_vertex v l).2) as [j|]; [|reflexivity].
    rewrite linked_insert_vertex.
    destruct (linked l (length l) j) eqn:El; [|reflexivity].
    apply (linked_lt l _ _ Hm) in El. lia.
Qed.

Lemma linked_insert_both Weighted f t w l i j :
  (f < length l)%nat -> (t < length l)%nat -> mirrored l ->
  linked (insert_edge Weighted f t w (insert_edge Weighted t f w l)) i j
  = linked l i j || (Nat.eqb i f && Nat.eqb j t) || (Nat.eqb i t && Nat.eqb j f).
Proof.
  intros Hf Ht Hm. unfold linked.
  rewrite !edge_between_insert_edge by (rewrite ?insert_edge_length; assumption).
  destruct (edge_between l t f) as [e|] eqn:Etf.
  - destruct (mirrored_Some _ _ _ _ Hm Etf) as [e' [Eft _]]. rewrite Eft.
    destruct (Nat.eqb_spec i f) as [Hi|Hi], (Nat.eqb_spec j t) as [Hj|Hj];
      destruct (Nat.eqb_spec i t) as [Hi'|Hi'], (Nat.eqb_spec j f) as [Hj'|Hj'];
      cbn [andb orb]; rewrite ?orb_false_r, ?orb_true_r; try reflexivity;
      subst; rewrite ?Eft, ?Etf; reflexivity.
  - rewrite (mirrored_None _ _ _ Hm Etf).
    destruct (Nat.eqb_spec f t) as [->|Hne].
    + rewrite Nat.eqb_refl. cbn [andb].
      destruct (Nat.eqb i t && Nat.eqb j t); cbn [orb];
        rewrite ?orb_false_r, ?orb_true_r; reflexivity.
    + destruct (Nat.eqb_spec t f) as [Htf|_]; [congruence|]. cbn [andb].
      destruct (Nat.eqb i f && Nat.eqb j t), (Nat.eqb i t && Nat.eqb j f);
        cbn [orb]; rewrite ?orb_false_r, ?orb_true_r; reflexivity.
Qed.

Lemma same_edge_sym e x : same e x = true -> same x e = true.
Proof using veq_sym.
  unfold same_edge. intros H.
  apply orb_true_iff in H as [H|H]; apply andb_true_iff in H as [H1 H2];
    apply orb_true_iff; [left|right]; apply andb_true_iff; auto.
Qed.

Lemma same_edge_trans e x y : same e x = true -> same x y = true -> same e y = true.
Proof using veq_sym veq_trans.
  unfold same_edge. intros H1 H2.
  apply orb_true_iff in H1 as [H1|H1]; apply andb_true_iff in H1 as [H1a H1b];
  apply orb_true_iff in H2 as [H2|H2]; apply andb_true_iff in H2 as [H2a H2b];
  apply orb_true_iff.
  - left. apply andb_true_iff. split; eapply veq_trans; eauto.
  - right. apply andb_true_iff. split; eapply veq_trans; eauto.
  - right. apply andb_true_iff. split; eapply veq_trans; eauto.
  - left. apply andb_true_iff. split; eapply veq_trans; eauto.
Qed.

Lemma is_loop_same e x :
  same e x = true -> is_loop vertex_equal e = is_loop vertex_equal x.
Proof using veq_sym veq_trans.
  unfold same_edge, is_loop. intros H.
  assert (forall a b c d : V, vertex_equal a c = true -> vertex_equal b d = true ->
            vertex_equal a b = vertex_equal c d) as Hc.
  { intros a b c d Hac Hbd.
    rewrite (same_compat_l vertex_equal veq_sym veq_trans a c b Hac).
    apply (same_compat_r vertex_equal veq_sym veq_trans b d c Hbd). }
  apply orb_true_iff in H as [H|H]; apply andb_true_iff in H as [H1 H2].
  - now apply Hc.
  - rewrite (Hc _ _ _ _ H1 H2).
    destruct (vertex_equal (get1 x) (get0 x)) eqn:E.
    + symmetry. now apply veq_sym.
    + symmetry. now apply veq_false_sym.
Qed.

Lemma records_per_edge_same e x :
  same e x = true ->
  records_per_edge vertex_equal e = records_per_edge vertex_equal x.
Proof using veq_sym veq_trans.
  intros H. unfold records_per_edge. now rewrite (is_loop_same e x H).
Qed.

Lemma has_edge_same l e x : mirrored l -> same e x = true -> has l e = has l x.
Proof using veq_sym veq_trans.
  intros Hm H. rewrite !has_edge_linked. unfold same_edge in H.
  apply orb_true_iff in H as [H|H]; apply andb_true_iff in H as [H1 H2].
  - now rewrite (vertex_pos_compat vertex_equal veq_sym veq_trans _ _ l H1),
      (vertex_pos_compat vertex_equal veq_sym veq_trans _ _ l H2).
  - rewrite (vertex_pos_compat vertex_equal veq_sym veq_trans _ _ l H1),
      (vertex_pos_compat vertex_equal veq_sym veq_trans _ _ l H2).
    destruct (vpos (get1 x) l) as [i|], (vpos (get0 x) l) as [j|]; try reflexivity.
    now apply linked_sym.
Qed.

(** Which edges [findEdge] finds once both records of [e] are joined. *)
Lemma has_edge_insert_both Weighted f t w l e x :
  mirrored l -> vpos (get0 e) l = Some f -> vpos (get1 e) l = Some t ->
  has (insert_edge Weighted f t w (insert_edge Weighted t f w l)) x
  = has l x || same x e.
Proof using veq_sym veq_trans.
  intros Hm Hf Ht. rewrite !has_edge_linked, !vertex_pos_insert_edge.
  unfold same_edge.
  destruct (vpos (get0 x) l) as [i|] eqn:Ec.
  - destruct (vpos (get1 x) l) as [j|] eqn:Ed.
    + rewrite linked_insert_both;
        [| eapply first_index_lt; exact Hf | eapply first_index_lt; exact Ht | exact Hm].
      rewrite (vertex_pos_eqb l _ _ i f Ec Hf), (vertex_pos_eqb l _ _ j t Ed Ht),
        (vertex_pos_eqb l _ _ i t Ec Ht), (vertex_pos_eqb l _ _ j f Ed Hf).
      now rewrite orb_assoc.
    + rewrite (vertex_pos_None_neq l _ _ t Ed Ht),
        (vertex_pos_None_neq l _ _ f Ed Hf).
      now rewrite !andb_false_r.
  - now rewrite (vertex_pos_None_neq l _ _ f Ec Hf),
      (vertex_pos_None_neq l _ _ t Ec Ht).
Qed.

Lemma edge_records_insert_both Weighted f t w l sz sz' :
  (f < length l)%nat -> (t < length l)%nat -> mirrored l ->
  edge_records (mkGraph (insert_edge Weighted f t w (insert_edge Weighted t f w l)) sz)
  = (edge_records (mkGraph l sz')
     + if linked l f t then 0 else if Nat.eqb f t then 1 else 2)%nat.
Proof.
  intros Hf Ht Hm.
  rewrite (edge_records_insert_edge Weighted f t w _ sz sz)
    by now rewrite insert_edge_length.
  rewrite (edge_records_insert_edge Weighted t f w l sz sz') by exact Ht.
  rewrite edge_between_insert_edge by exact Ht.
  unfold linked.
  destruct (edge_between l t f) as [e|] eqn:Etf.
  - destruct (mirrored_Some _ _ _ _ Hm Etf) as [e' [-> _]]. lia.
  - rewrite (mirrored_None _ _ _ Hm Etf).
    destruct (Nat.eqb_spec f t) as [->|Hne].
    + rewrite Nat.eqb_refl. cbn [andb]. lia.
    + cbn [andb]. lia.
Qed.

(** One call of the undirected [addEdge]. *)
Lemma addEdge_undirected_step Weighted e g :
  mirrored (m_vertex_node_list g) ->
  exists r g',
    addEdge vertex_equal intptr_of false Weighted e g = Ok (r, g') /\
    mirrored (m_vertex_node_list g') /\
    (forall x, has (m_vertex_node_list g') x = has (m_vertex_node_list g) x || same x e) /\
    edge_records g'
    = (edge_records g
       + if has (m_vertex_node_list g) e then 0
         else records_per_edge vertex_equal e)%nat.
Proof using veq_refl veq_sym veq_trans.
  intros Hm.
  destruct (addEdge_spec vertex_equal intptr_of veq_sym false Weighted e g)
    as [n [_ E]].
  eexists _, _. split; [exact E|].
  split; [eapply (addEdge_mirrored vertex_equal intptr_of veq_sym); eauto|].
  cbn [m_vertex_node_list].
  set (l := m_vertex_node_list g).
  set (l1 := (ins_vertex (get0 e) l).2).
  set (f := (ins_vertex (get0 e) l).1).
  set (l2 := (ins_vertex (get1 e) l1).2).
  set (t := (ins_vertex (get1 e) l1).1).
  assert (vpos (get0 e) l2 = Some f) as Hpf
    by (apply vertex_pos_insert_keep, (insert_vertex_pos vertex_equal veq_refl)).
  assert (vpos (get1 e) l2 = Some t) as Hpt
    by apply (insert_vertex_pos vertex_equal veq_refl).
  assert (mirrored l1) as Hm1 by now apply mirrored_insert_vertex.
  assert (mirrored l2) as Hm2 by now apply mirrored_insert_vertex.
  assert (forall x, has l2 x = has l x) as Hkeep.
  { intros x. subst l2. rewrite has_edge_insert_vertex by exact Hm1.
    now apply has_edge_insert_vertex. }
  split.
  - intros x. rewrite (has_edge_insert_both Weighted f t _ l2 e x Hm2 Hpf Hpt).
    now rewrite Hkeep.
  - rewrite (edge_records_insert_both Weighted f t _ l2 _ 0);
      [| eapply first_index_lt; exact Hpf | eapply first_index_lt; exact Hpt | exact Hm2].
    rewrite <- (Hkeep e), (has_edge_linked l2 e), Hpf, Hpt.
    rewrite (vertex_pos_eqb l2 _ _ f t Hpf Hpt).
    unfold records_per_edge, is_loop.
    subst l2. rewrite (edge_records_insert_vertex vertex_equal _ l1 0 0).
    subst l1. rewrite (edge_records_insert_vertex vertex_equal _ l 0 (m_size g)).
    now destruct g.
Qed.

Lemma addEdge_list_undirected_records Weighted (edges : list edge_type) g :
  mirrored (m_vertex_node_list g) ->
  exists g',
    addEdge_list vertex_equal intptr_of false Weighted edges g = Ok (tt, g') /\
    mirrored (m_vertex_node_list g') /\
    (forall x, has (m_vertex_node_list g') x
               = has (m_vertex_node_list g) x || existsb (same x) edges) /\
    edge_records g'
    = (edge_records g
       + count_new (records_per_edge vertex_equal) same
           (has (m_vertex_node_list g)) edges)%nat.
Proof using veq_refl veq_sym veq_trans.
  revert g. induction edges as [|e edges IH]; intros g Hm.
  - exists g. cbn. repeat split; [exact Hm | | lia].
    intros x. now rewrite orb_false_r.
  - destruct (addEdge_undirected_step Weighted e g Hm)
      as [r [g1 [E [Hm1 [Hhas Hrec]]]]].
    destruct (IH g1 Hm1) as [g' [E' [Hm' [Hhas' Hrec']]]].
    exists g'. cbn [addEdge_list]. rewrite E. cbn [rbind].
    destruct r as [it ins]. split; [exact E'|]. split; [exact Hm'|]. split.
    { intros x. rewrite Hhas', Hhas. cbn [existsb]. now rewrite orb_assoc. }
    rewrite Hrec', Hrec. cbn [count_new].
    destruct (has (m_vertex_node_list g) e) eqn:He; cbn [orb].
    + rewrite (count_new_ext same (records_per_edge vertex_equal)
                 (has (m_vertex_node_list g1)) (has (m_vertex_node_list g)));
        [lia|].
      intros x. rewrite Hhas. destruct (same x e) eqn:Hs; [|apply orb_false_r].
      rewrite (has_edge_same _ x e Hm Hs), He. reflexivity.
    + rewrite (count_new_extend same (records_per_edge vertex_equal)
                 same_edge_sym same_edge_trans records_per_edge_same
                 (has (m_vertex_node_list g)) (has (m_vertex_node_list g1)) e edges
                 (fun x y => has_edge_same _ x y Hm) Hhas He).
      destruct (existsb (same e) edges); lia.
Qed.

Lemma addVertex_list_undirected_records (values : list V) g :
  mirrored (m_vertex_node_list g) ->
  exists g',
    addVertex_list vertex_equal values g = Ok (tt, g') /\
    mirrored (m_vertex_node_list g') /\
    (forall x, has (m_vertex_node_list g') x = has (m_vertex_node_list g) x) /\
    edge_records g' = edge_records g.
Proof using veq_sym.
  revert g. induction values as [|v values IH]; intros g Hm.
  - exists g. cbn. auto.
  - cbn [addVertex_list]. rewrite (addVertex_spec vertex_equal veq_sym). cbn [rbind].
    set (g1 := mkGraph _ _).
    assert (mirrored (m_vertex_node_list g1)) as Hm1
      by now apply mirrored_insert_vertex.
    destruct (IH g1 Hm1) as [g' [E [Hm' [Hhas Hrec]]]].
    exists g'. split; [exact E|]. split; [exact Hm'|]. split.
    + intros x. rewrite Hhas. subst g1. cbn [m_vertex_node_list].
      now apply has_edge_insert_vertex.
    + rewrite Hrec. subst g1.
      rewrite (edge_records_insert_vertex vertex_equal v _ _ (m_size g)).
      now destruct g.
Qed.

(** One inserting operation on an undirected graph. *)
Lemma run_op_undirected_records Weighted (o : public_op) g :
  is_insertion o = true ->
  mirrored (m_vertex_node_list g) ->
  exists g',
    run_op vertex_equal intptr_of false Weighted o g = Ok (tt, g') /\
    mirrored (m_vertex_node_list g') /\
    (forall x, has (m_vertex_node_list g') x
               = has (m_vertex_node_list g) x || existsb (same x) (inserted_edges_of o)) /\
    edge_records g'
    = (edge_records g
       + count_new (records_per_edge vertex_equal) same
           (has (m_vertex_node_list g)) (inserted_edges_of o))%nat.
Proof using veq_refl veq_sym veq_trans.
  intros Hins Hm.
  destruct o as [value|values|edge|edges|rhs|]; try discriminate Hins;
    cbn [run_op inserted_edges_of].
  - destruct (addVertex_list_undirected_records [value] g Hm)
      as [g' [E [Hm' [Hhas Hrec]]]].
    cbn [addVertex_list] in E.
    destruct (addVertex vertex_equal value g) as [[r1 g1]| |]; try discriminate E.
    cbn [rbind] in *. inversion E; subst g1. exists g'.
    repeat split; [exact Hm' | | cbn; lia].
    intros x. rewrite Hhas. cbn. now rewrite orb_false_r.
  - destruct (addVertex_list_undirected_records values g Hm)
      as [g' [E [Hm' [Hhas Hrec]]]].
    exists g'. repeat split; [exact E | exact Hm' | | cbn; lia].
    intros x. rewrite Hhas. cbn. now rewrite orb_false_r.
  - destruct (addEdge_list_undirected_records Weighted [edge] g Hm)
      as [g' [E [Hm' [Hhas Hrec]]]].
    cbn [addEdge_list] in E.
    destruct (addEdge vertex_equal intptr_of false Weighted edge g)
      as [[r1 g1]| |]; try discriminate E.
    cbn [rbind] in *. inversion E; subst g1. exists g'.
    repeat split; assumption.
  - apply (addEdge_list_undirected_records Weighted edges g Hm).
Qed.

Lemma run_ops_undirected_records Weighted (ops : list public_op) g :
  forallb is_insertion ops = true ->
  mirrored (m_vertex_node_list g) ->
  exists g',
    run_ops vertex_equal intptr_of false Weighted ops g = Ok (tt, g') /\
    edge_records g'
    = (edge_records g
       + count_new (records_per_edge vertex_equal) same
           (has (m_vertex_node_list g)) (inserted_edges ops))%nat.
Proof using veq_refl veq_sym veq_trans.
  revert g. induction ops as [|o ops IH]; intros g Hins Hm.
  - exists g. cbn. split; [reflexivity | lia].
  - cbn [forallb] in Hins. apply andb_true_iff in Hins as [Ho Hins].
    destruct (run_op_undirected_records Weighted o g Ho Hm)
      as [g1 [E [Hm1 [Hhas Hrec]]]].
    destruct (IH g1 Hins Hm1) as [g' [E' Hrec']].
    exists g'. cbn [run_ops]. rewrite E. cbn [rbind]. split; [exact E'|].
    unfold inserted_edges. cbn [flat_map]. fold (inserted_edges ops).
    rewrite (count_new_app same (records_per_edge vertex_equal)
               same_edge_sym same_edge_trans records_per_edge_same
               (has (m_vertex_node_list g)) (has (m_vertex_node_list g1))
               (inserted_edges_of o) (inserted_edges ops)
               (fun x y => has_edge_same _ x y Hm) Hhas).
    lia.
Qed.

Lemma existsb_same_loops e (edges : list edge_type) :
  is_loop vertex_equal e = true ->
  existsb (same e) (loops vertex_equal edges) = existsb (same e) edges.
Proof using veq_sym veq_trans.
  intros H. apply existsb_same_filter. intros z Hz.
  now rewrite <- (is_loop_same e z Hz).
Qed.

Lemma existsb_same_proper e (edges : list edge_type) :
  is_loop vertex_equal e = false ->
  existsb (same e) (proper_edges vertex_equal edges) = existsb (same e) edges.
Proof using veq_sym veq_trans.
  intros H. apply existsb_same_filter. intros z Hz.
  now rewrite <- (is_loop_same e z Hz), H.
Qed.

Lemma count_new_records (edges : list edge_type) :
  count_new (records_per_edge vertex_equal) same (fun _ => false) edges
  = (2 * count_distinct same (proper_edges vertex_equal edges)
     + count_distinct same (loops vertex_equal edges))%nat.
Proof using veq_sym veq_trans.
  induction edges as [|e edges IH]; [reflexivity|].
  cbn [count_new orb]. rewrite IH. unfold records_per_edge, loops, proper_edges.
  cbn [List.filter]. destruct (is_loop vertex_equal e) eqn:He; cbn [negb count_distinct].
  - fold (loops vertex_equal edges). rewrite (existsb_same_loops e edges He).
    destruct (existsb (same e) edges); lia.
  - fold (proper_edges vertex_equal edges). rewrite (existsb_same_proper e edges He).
    destruct (existsb (same e) edges); lia.
Qed.

Lemma count_distinct_split (edges : list edge_type) :
  count_distinct same edges
  = (count_distinct same (proper_edges vertex_equal edges)
     + count_distinct same (loops vertex_equal edges))%nat.
Proof using veq_sym veq_trans.
  induction edges as [|e edges IH]; [reflexivity|].
  cbn [count_distinct]. rewrite IH. unfold loops, proper_edges.
  cbn [List.filter]. destruct (is_loop vertex_equal e) eqn:He; cbn [negb count_distinct].
  - fold (loops vertex_equal edges). rewrite (existsb_same_loops e edges He). lia.
  - fold (proper_edges vertex_equal edges). rewrite (existsb_same_proper e edges He).
    lia.
Qed.

(** C2 (as amended). An undirected graph built from a sequence of edge
    insertions stores two edge records for every distinct unordered edge
    between different vertices and one edge record for every distinct
    self-loop: twice the number of distinct inserted unordered edges, less
    the number of distinct self-loops among them.  This holds for the
    constructor from an edge sequence and for every sequence of inserting
    operations, single or batch, on vertices and on edges.  In particular
    the graph built from a single self-loop [(u,u)] stores one edge
    record. *)
Theorem undirected_edge_records (Weighted : bool) :
  (forall edges : list edge_type,
     exists g,
       Graph_ctor_list vertex_equal intptr_of false Weighted edges = Ok g /\
       edge_records g
       = (2 * count_distinct same (proper_edges vertex_equal edges)
          + count_distinct same (loops vertex_equal edges))%nat /\
       (edge_records g + count_distinct same (loops vertex_equal edges)
        = 2 * count_distinct same edges)%nat /\
       (forall e, edges = [e] -> is_loop vertex_equal e = true ->
                  edge_records g = 1%nat)) /\
  (forall ops : list public_op,
     forallb is_insertion ops = true ->
     exists g,
       run_ops vertex_equal intptr_of false Weighted ops Graph_ctor = Ok (tt, g) /\
       edge_records g
       = (2 * count_distinct same (proper_edges vertex_equal (inserted_edges ops))
          + count_distinct same (loops vertex_equal (inserted_edges ops)))%nat /\
       (edge_records g + count_distinct same (loops vertex_equal (inserted_edges ops))
        = 2 * count_distinct same (inserted_edges ops))%nat).
Proof using veq_refl veq_sym veq_trans.
  assert (mirrored (m_vertex_node_list (Graph_ctor (V:=V)))) as Hm0
    by (intros i j; reflexivity).
  assert (forall edges : list edge_type,
            count_new (records_per_edge vertex_equal) same
              (has (m_vertex_node_list (Graph_ctor (V:=V)))) edges
            = (2 * count_distinct same (proper_edges vertex_equal edges)
               + count_distinct same (loops vertex_equal edges))%nat) as Hcount.
  { intros edges. rewrite (count_new_ext same _ _ (fun _ => false)) by reflexivity.
    apply count_new_records. }
  assert (edge_records (Graph_ctor (V:=V)) = 0%nat) as Hrec0 by reflexivity.
  split.
  - intros edges.
    destruct (addEdge_list_undirected_records Weighted edges Graph_ctor Hm0)
      as [g [E [_ [_ Hrec]]]].
    exists g. unfold Graph_ctor_list. rewrite E. cbn [rbind].
    rewrite Hcount, Hrec0 in Hrec. cbn [Nat.add] in Hrec.
    repeat split.
    + exact Hrec.
    + rewrite Hrec, (count_distinct_split edges). lia.
    + intros e -> He. rewrite Hrec. unfold proper_edges, loops. cbn [List.filter].
      now rewrite He.
  - intros ops Hins.
    destruct (run_ops_undirected_records Weighted ops Graph_ctor Hins Hm0)
      as [g [E Hrec]].
    exists g. rewrite Hcount, Hrec0 in Hrec. cbn [Nat.add] in Hrec.
    repeat split.
    + exact E.
    + exact Hrec.
    + rewrite Hrec, (count_distinct_split (inserted_edges ops)). lia.
Qed.

End UndirectedRecords.

(** * Every graph built through the interface is well formed *)

Section WellFormed.

Context {V : Type}.
Variable vertex_equal : V -> V -> bool.
Variable intptr_of : V -> Z.

Hypothesis veq_sym :
  forall a b, vertex_equal a b = true -> vertex_equal b a = true.

Local Abbreviation vpos := (vertex_pos vertex_equal).
Local Abbreviation ins_vertex := (insert_vertex vertex_equal).
Implicit Types (g : Graph (V:=V)) (l : list (VertexNode (V:=V))).

Lemma unique_vertices_insert_vertex (v : V) l :
  unique_vertices vertex_equal l -> unique_vertices vertex_equal (ins_vertex v l).2.
Proof using veq_sym.
  intros Hu. unfold insert_vertex. destruct (vpos v l) eqn:Ev; cbn [snd]; [exact Hu|].
  intros i j ni nj Hi Hj Hv.
  destruct (Nat.lt_ge_cases i (length l)) as [Hil|Hil],
           (Nat.lt_ge_cases j (length l)) as [Hjl|Hjl].
  - rewrite lookup_app_l in Hi, Hj by assumption. eapply Hu; eauto.
  - rewrite lookup_app_l in Hi by assumption.
    rewrite lookup_app_r in Hj by assumption.
    destruct (j - length l)%nat as [|j'] eqn:Ej; [|discriminate Hj].
    inversion Hj; subst nj. cbn [vertex] in Hv. apply veq_sym in Hv.
    rewrite (vertex_pos_None vertex_equal _ _ _ _ Ev Hi) in Hv. discriminate Hv.
  - rewrite lookup_app_l in Hj by assumption.
    rewrite lookup_app_r in Hi by assumption.
    destruct (i - length l)%nat as [|i'] eqn:Ei; [|discriminate Hi].
    inversion Hi; subst ni. cbn [vertex] in Hv.
    rewrite (vertex_pos_None vertex_equal _ _ _ _ Ev Hj) in Hv. discriminate Hv.
  - rewrite lookup_app_r in Hi, Hj by assumption.
    destruct (i - length l)%nat as [|i'] eqn:Ei; [|discriminate Hi].
    destruct (j - length l)%nat as [|j'] eqn:Ej; [|discriminate Hj]. lia.
Qed.

Lemma insert_edge_lookup Weighted f t w l i n' :
  insert_edge Weighted f t w l !! i = Some n' ->
  exists n,
    l !! i = Some n /\ vertex n' = vertex n /\
    forall k e, edge_list n' !! k = Some e ->
      edge_list n !! k = Some e \/ vertex_node e = Some t.
Proof.
  unfold insert_edge. destruct (l !! f) as [n|] eqn:Hn; [|now eauto].
  destruct (edge_pos (Some t) (edge_list n)); [now eauto|].
  destruct (Nat.eq_dec i f) as [->|Hne].
  - rewrite list_lookup_insert_eq by (eapply lookup_lt_Some; exact Hn).
    intros H. inversion H; subst n'. exists n. repeat split; [exact Hn|].
    intros k e. cbn [edge_list]. intros He.
    destruct (Nat.lt_ge_cases k (length (edge_list n))) as [Hk|Hk].
    + left. now rewrite lookup_app_l in He.
    + right. rewrite lookup_app_r in He by assumption.
      destruct (k - length (edge_list n))%nat; [|discriminate He].
      now inversion He.
  - rewrite list_lookup_insert_ne by congruence. now eauto.
Qed.

Lemma unique_vertices_insert_edge Weighted f t w l :
  unique_vertices vertex_equal l ->
  unique_vertices vertex_equal (insert_edge Weighted f t w l).
Proof.
  intros Hu i j ni nj Hi Hj Hv.
  destruct (insert_edge_lookup _ _ _ _ _ _ _ Hi) as [ni0 [Hi0 [Ei _]]].
  destruct (insert_edge_lookup _ _ _ _ _ _ _ Hj) as [nj0 [Hj0 [Ej _]]].
  rewrite Ei, Ej in Hv. eapply Hu; eauto.
Qed.

Lemma targets_valid_insert_vertex (v : V) l :
  targets_valid l -> targets_valid (ins_vertex v l).2.
Proof.
  intros Ht. unfold insert_vertex. destruct (vpos v l); cbn [snd]; [exact Ht|].
  intros i n k e Hn He.
  destruct (Nat.lt_ge_cases i (length l)) as [Hil|Hil].
  - rewrite lookup_app_l in Hn by assumption.
    destruct (Ht i n k e Hn He) as [t [m [Hv Hm]]].
    exists t, m. split; [exact Hv|].
    rewrite lookup_app_l; [exact Hm | eapply lookup_lt_Some; exact Hm].
  - rewrite lookup_app_r in Hn by assumption.
    destruct (i - length l)%nat; [|discriminate Hn].
    inversion Hn; subst n. discriminate He.
Qed.

Lemma targets_valid_insert_edge Weighted f t w l :
  (t < length l)%nat -> targets_valid l ->
  targets_valid (insert_edge Weighted f t w l).
Proof.
  intros Hlt Ht i n' k e Hn' He.
  assert (forall j, (j < length l)%nat ->
            exists m, insert_edge Weighted f t w l !! j = Some m) as Hin.
  { intros j Hj. apply lookup_lt_is_Some_2. now rewrite insert_edge_length. }
  destruct (insert_edge_lookup _ _ _ _ _ _ _ Hn') as [n [Hn [_ Hes]]].
  destruct (Hes k e He) as [Hold|Hnew].
  - destruct (Ht i n k e Hn Hold) as [t' [m [Hv Hm]]].
    destruct (Hin t' (lookup_lt_Some _ _ _ Hm)) as [m' Hm'].
    now exists t', m'.
  - destruct (Hin t Hlt) as [m' Hm']. now exists t, m'.
Qed.

Lemma well_formed_ctor Directed : well_formed vertex_equal Directed (Graph_ctor (V:=V)).
Proof.
  split; [reflexivity|].
  split; [intros i j ni nj Hi; discriminate Hi|].
  split; [intros i n k e Hn; discriminate Hn|].
  intros _ i j. reflexivity.
Qed.

Lemma addVertex_well_formed Directed (v : V) g r g' :
  well_formed vertex_equal Directed g ->
  addVertex vertex_equal v g = Ok (r, g') ->
  well_formed vertex_equal Directed g'.
Proof using veq_sym.
  intros (Hs & Hu & Ht & Hm) E. repeat split.
  - eapply (addVertex_size_rep vertex_equal veq_sym); eauto.
  - rewrite (addVertex_spec vertex_equal veq_sym) in E. inversion E; subst.
    now apply unique_vertices_insert_vertex.
  - rewrite (addVertex_spec vertex_equal veq_sym) in E. inversion E; subst.
    now apply targets_valid_insert_vertex.
  - intros HD. eapply (addVertex_mirrored vertex_equal veq_sym); eauto.
Qed.

Lemma addEdge_well_formed Directed Weighted (edge : edge_type) g r g' :
  well_formed vertex_equal Directed g ->
  addEdge vertex_equal intptr_of Directed Weighted edge g = Ok (r, g') ->
  well_formed vertex_equal Directed g'.
Proof using veq_sym.
  intros (Hs & Hu & Ht & Hm) E. repeat split.
  - eapply (addEdge_size_rep vertex_equal intptr_of veq_sym); eauto.
  - destruct (addEdge_spec vertex_equal intptr_of veq_sym Directed Weighted edge g)
      as [n [_ E']].
    rewrite E' in E. inversion E; subst. cbn [m_vertex_node_list].
    apply unique_vertices_insert_edge.
    destruct Directed; [|apply unique_vertices_insert_edge];
      now apply unique_vertices_insert_vertex, unique_vertices_insert_vertex.
  - destruct (addEdge_spec vertex_equal intptr_of veq_sym Directed Weighted edge g)
      as [n [_ E']].
    rewrite E' in E. inversion E; subst. cbn [m_vertex_node_list].
    pose proof (insert_vertex_valid vertex_equal (get0 edge) (m_vertex_node_list g))
      as Hf.
    pose proof (insert_vertex_valid vertex_equal (get1 edge)
                  (ins_vertex (get0 edge) (m_vertex_node_list g)).2) as Hto.
    destruct (insert_vertex_prefix vertex_equal (get1 edge)
                (ins_vertex (get0 edge) (m_vertex_node_list g)).2) as [tl Htl].
    assert (targets_valid
              (ins_vertex (get1 edge)
                 (ins_vertex (get0 edge) (m_vertex_node_list g)).2).2) as Ht2
      by now apply targets_valid_insert_vertex, targets_valid_insert_vertex.
    apply targets_valid_insert_edge.
    + destruct Directed; [exact Hto | now rewrite insert_edge_length].
    + destruct Directed; [exact Ht2|].
      apply targets_valid_insert_edge; [|exact Ht2].
      rewrite Htl, length_app. lia.
  - intros ->. eapply (addEdge_mirrored vertex_equal intptr_of veq_sym); eauto.
Qed.

Lemma addVertex_list_well_formed Directed (values : list V) g r g' :
  well_formed vertex_equal Directed g ->
  addVertex_list vertex_equal values g = Ok (r, g') ->
  well_formed vertex_equal Directed g'.
Proof using veq_sym.
  revert g. induction values as [|v values IH]; intros g H E; cbn in E.
  - now inversion E; subst.
  - destruct (addVertex vertex_equal v g) as [[r1 g1]| |] eqn:E1; try discriminate E.
    cbn [rbind] in E. eapply IH; [|exact E]. eapply addVertex_well_formed; eauto.
Qed.

Lemma addEdge_list_well_formed Directed Weighted (edges : list edge_type) g r g' :
  well_formed vertex_equal Directed g ->
  addEdge_list vertex_equal intptr_of Directed Weighted edges g = Ok (r, g') ->
  well_formed vertex_equal Directed g'.
Proof using veq_sym.
  revert g. induction edges as [|e edges IH]; intros g H E; cbn in E.
  - now inversion E; subst.
  - destruct (addEdge vertex_equal intptr_of Directed Weighted e g)
      as [[r1 g1]| |] eqn:E1; try discriminate E.
    cbn [rbind] in E. eapply IH; [|exact E]. eapply addEdge_well_formed; eauto.
Qed.

Lemma assign_edges_well_formed Directed Weighted src i k (records : list EdgeNode)
  g r g' :
  well_formed vertex_equal Directed g ->
  assign_edges vertex_equal intptr_of Directed Weighted src i k records g = Ok (r, g') ->
  well_formed vertex_equal Directed g'.
Proof using veq_sym.
  revert k g. induction records as [|e records IH]; intros k g H E; cbn in E.
  - now inversion E; subst.
  - destruct (getTuple _ _ _) as [edge| |]; try discriminate E.
    cbn [rbind] in E.
    destruct (addEdge vertex_equal intptr_of Directed Weighted edge g)
      as [[r1 g1]| |] eqn:E1; try discriminate E.
    cbn [rbind] in E. eapply IH; [|exact E]. eapply addEdge_well_formed; eauto.
Qed.

Lemma assign_vertices_well_formed Directed Weighted src i
  (records : list (VertexNode (V:=V))) g r g' :
  well_formed vertex_equal Directed g ->
  assign_vertices vertex_equal intptr_of Directed Weighted src i records g = Ok (r, g') ->
  well_formed vertex_equal Directed g'.
Proof using veq_sym.
  revert i g. induction records as [|n records IH]; intros i g H E; cbn in E.
  - now inversion E; subst.
  - destruct (assign_edges _ _ _ _ _ _ _ _ g) as [[r1 g1]| |] eqn:E1;
      try discriminate E.
    cbn [rbind] in E. eapply IH; [|exact E].
    eapply assign_edges_well_formed; eauto.
Qed.

(** Whatever the interface builds has its count in step with its vertex
    list, pairwise distinct vertex values, edge records that point at its
    own vertex records and, when undirected, mirrored edge lists. *)
Lemma reachable_well_formed Directed Weighted g :
  reachable vertex_equal intptr_of Directed Weighted g ->
  well_formed vertex_equal Directed g.
Proof using veq_sym.
  induction 1 as [|o g g' _ IH E]; [apply well_formed_ctor|].
  destruct o as [value|values|edge|edges|rhs|]; cbn [run_op] in E.
  - destruct (addVertex vertex_equal value g) as [[r1 g1]| |] eqn:E1;
      try discriminate E.
    cbn in E. inversion E; subst. eapply addVertex_well_formed; eauto.
  - eapply addVertex_list_well_formed; eauto.
  - destruct (addEdge _ _ _ _ edge g) as [[r1 g1]| |] eqn:E1; try discriminate E.
    cbn in E. inversion E; subst. eapply addEdge_well_formed; eauto.
  - eapply addEdge_list_well_formed; eauto.
  - unfold operator_assign, destroyGraph in E. cbn [rbind] in E.
    eapply assign_vertices_well_formed; [|exact E]. apply well_formed_ctor.
  - unfold destroyGraph in E. inversion E; subst. apply well_formed_ctor.
Qed.

End WellFormed.

(** * Integer vertices *)

Lemma Zeqb_sym (a b : Z) : Z.eqb a b = true -> Z.eqb b a = true.
Proof. intros H. apply Z.eqb_eq in H. subst. apply Z.eqb_refl. Qed.

Lemma Zeqb_trans (a b c : Z) : Z.eqb a b = true -> Z.eqb b c = true -> Z.eqb a c = true.
Proof. intros H1 H2. apply Z.eqb_eq in H1, H2. subst. apply Z.eqb_refl. Qed.

Lemma sample_weighted_mirrored : mirrored (m_vertex_node_list sample_weighted).
Proof. intros [|[|i]] [|[|j]]; reflexivity. Qed.

Lemma sample_vertices_mirrored : mirrored (m_vertex_node_list sample_vertices).
Proof. intros [|[|i]] [|[|j]]; reflexivity. Qed.

(** Why the predicate is taken symmetric throughout: [findVertexHelper]
    tests [VerEq(value, record)] and [addVertex] tests
    [VerEq(record, value)].  Under [<=] the scan for 6 stops at the record
    of 7, which is not the last one; [addVertex] then links the new record
    behind it, the record of 5 is unlinked, and the count says 3 for a list
    of 2. *)
Remark asymmetric_predicate_unlinks :
  addVertex Z.leb 6 sample_descending
  = Ok (mkVertexIter (Some 1%nat), true,
        mkGraph [mkVertexNode 7 []; mkVertexNode 6 []] 3).
Proof. reflexivity. Qed.

(** C1 (the code departs from it). Copying loses every vertex that no
    edge touches: the graph with the edge from 1 to 2 and the vertex 3 is
    copied to a graph in which [findVertex] no longer finds 3 and the
    count is 2 instead of 3; a graph that holds vertices only is copied to
    the empty graph, whatever its configuration; and a graph assigned to
    itself is emptied. *)
Theorem copy_drops_isolated_vertices :
  (let* g := Graph_ctor_list Z.eqb intptr_of_int true false [Edge2 1 2] in
   let* (_, g') := addVertex Z.eqb 3 g in Ok g') = Ok sample_isolated /\
  findVertex Z.eqb sample_isolated 3 = Ok (mkVertexIter (Some 2%nat)) /\
  (exists copy,
     Graph_ctor_copy Z.eqb intptr_of_int true false sample_isolated = Ok copy /\
     findVertex Z.eqb copy 3 = Ok vertex_end /\
     m_size copy = 2 /\
     length (m_vertex_node_list copy) = 2%nat) /\
  (forall Directed Weighted this,
     addVertex_list Z.eqb [1; 2] Graph_ctor = Ok (tt, sample_vertices) /\
     Graph_ctor_copy Z.eqb intptr_of_int Directed Weighted sample_vertices
     = Ok Graph_ctor /\
     operator_assign Z.eqb intptr_of_int Directed Weighted (Other sample_vertices) this
     = Ok (tt, Graph_ctor)) /\
  operator_assign Z.eqb intptr_of_int false true This sample_weighted
  = Ok (tt, Graph_ctor).
Proof.
  repeat apply conj; try reflexivity.
  - eexists. repeat split; reflexivity.
  - intros [] [] this; repeat split; reflexivity.
Qed.

(** C2 fails as the specification words it: the undirected graph built
    from the single self-loop (1,1) stores one edge record, not two. *)
Lemma self_loop_stored_once :
  ~ records_twice_distinct Z.eqb intptr_of_int false [Edge2 1 1] /\
  Graph_ctor_list Z.eqb intptr_of_int false false [Edge2 1 1]
  = Ok (mkGraph [mkVertexNode 1 [mkEdgeNode 0 (Some 0%nat)]] 1).
Proof.
  split; [|reflexivity].
  intros H. specialize (H _ eq_refl). discriminate H.
Qed.

(** C3 fails as the specification words it: in the undirected weighted
    graph that holds the edge between 1 and 2 with weight 5,
    [addEdge((1,2,7))] leaves both records at weight 5. *)
Lemma duplicate_edge_keeps_weight :
  Graph_ctor_list Z.eqb intptr_of_int false true [Edge3 1 2 5] = Ok sample_weighted /\
  Z.eqb 1 2 = false /\
  ~ mirrored_with_given_weight Z.eqb intptr_of_int sample_weighted 1 2 7.
Proof.
  repeat split.
  intros H.
  destruct (H (mkEdgeIter (Some 0%nat) (Some (0%nat, 0%nat)), false) sample_weighted
              eq_refl)
    as [it_ab [it_ba [va [vb [va' [vb' [E1 [_ [_ [_ [D1 _]]]]]]]]]]].
  vm_compute in E1. inversion E1; subst it_ab.
  vm_compute in D1. discriminate D1.
Qed.

(** * The theorems at work on the sample graphs *)

Lemma cursor_error_conditions_witness :
  VertexIter_deref sample_weighted vertex_end = Throw "Invalid iterator" /\
  EdgeIter_incr sample_weighted edge_end = Throw "End of iteration reached" /\
  VertexIter_deref sample_weighted (mkVertexIter (Some 0%nat)) = Ok 1 /\
  EdgeIter_deref true sample_weighted (mkEdgeIter (Some 0%nat) (Some (0%nat, 0%nat)))
  = Ok (Edge3 1 2 5).
Proof.
  destruct (cursor_error_conditions true sample_weighted)
    as (H1 & H2 & _ & _ & H5 & H6).
  repeat apply conj.
  - apply (H1 vertex_end eq_refl).
  - apply (H2 edge_end eq_refl).
  - apply (H5 0%nat _ eq_refl).
  - apply (H6 0%nat 0%nat _ _ (1%nat, mkVertexNode 2 [mkEdgeNode 5 (Some 0%nat)])
             eq_refl eq_refl eq_refl).
Defined.

Lemma getEdges_unguarded_witness :
  getEdges sample_weighted (mkVertexIter (Some 1%nat))
  = Ok (mkEdgeIter (Some 1%nat) (Some (1%nat, 0%nat))) /\
  getEdges sample_vertices (mkVertexIter (Some 1%nat))
  = Ok (mkEdgeIter (Some 1%nat) None).
Proof.
  split.
  - destruct (getEdges_unguarded sample_weighted) as (_ & _ & _ & _ & H).
    apply (H 1%nat _ eq_refl).
  - destruct (getEdges_unguarded sample_vertices) as (_ & _ & _ & _ & H).
    apply (H 1%nat _ eq_refl).
Defined.

Lemma addVertex_idempotent_witness :
  addVertex Z.eqb 2 sample_vertices
  = Ok (mkVertexIter (Some 1%nat), false, sample_vertices) /\
  exists g',
    addVertex Z.eqb 3 sample_vertices = Ok (mkVertexIter (Some 2%nat), true, g') /\
    m_size g' = 3 /\ count_ok g'.
Proof.
  split.
  - destruct (addVertex_idempotent Z.eqb Zeqb_sym Zeqb_trans sample_vertices 2)
      as [H _].
    destruct (H 1%nat (mkVertexNode 2 []) eq_refl eq_refl) as (j & m & _ & _ & E & Hu).
    rewrite E. rewrite Hu; [reflexivity|].
    intros [|[|i]] [|[|j']] ni nj Hi Hj Hv; try reflexivity;
      try discriminate Hi; try discriminate Hj;
      inversion Hi; inversion Hj; subst; discriminate Hv.
  - destruct (addVertex_idempotent Z.eqb Zeqb_sym Zeqb_trans sample_vertices 3)
      as [_ H].
    destruct H as (g' & E & _ & _ & Hc).
    { intros [|[|i]] n Hn; try discriminate Hn; inversion Hn; reflexivity. }
    exists g'. split; [exact E|]. apply Hc; reflexivity.
Defined.

Lemma vertex_count_distinct_witness :
  exists g,
    run_ops Z.eqb intptr_of_int true false
      [op_addVertex 1; op_addVertex_list [2; 1; 3]; op_addVertex 2] Graph_ctor
    = Ok (tt, g) /\
    length (m_vertex_node_list g) = 3%nat /\ m_size g = 3.
Proof.
  destruct (vertex_count_distinct Z.eqb intptr_of_int Zeqb_sym Zeqb_trans) as [_ H].
  apply (H true false [op_addVertex 1; op_addVertex_list [2; 1; 3]; op_addVertex 2]
           eq_refl).
  reflexivity.
Defined.

Lemma vertex_count_invariant_witness :
  exists g',
    run_op Z.eqb intptr_of_int false true (op_addEdge (Edge3 2 3 4)) sample_weighted
    = Ok (tt, g') /\ count_ok g'.
Proof.
  destruct (vertex_count_invariant Z.eqb intptr_of_int Zeqb_sym false true)
    as (_ & _ & _ & H & _).
  eexists. split; [reflexivity|].
  eapply (H (op_addEdge (Edge3 2 3 4)) sample_weighted tt); reflexivity.
Defined.

Lemma addEdge_idempotent_witness :
  addEdge Z.eqb intptr_of_int false true (Edge3 1 2 9) sample_weighted
  = Ok (mkEdgeIter (Some 0%nat) (Some (0%nat, 0%nat)), false, sample_weighted).
Proof.
  destruct (addEdge_idempotent Z.eqb intptr_of_int Z.eqb_refl Zeqb_sym Zeqb_trans
              false true sample_weighted (fun _ => sample_weighted_mirrored))
    as [H _].
  apply (H (Edge3 1 2 9) (mkEdgeIter (Some 0%nat) (Some (0%nat, 0%nat)))
           eq_refl eq_refl).
Defined.

Lemma undirected_self_loop_witness :
  exists g',
    addEdge Z.eqb intptr_of_int false true (Edge3 1 1 4) sample_weighted
    = Ok (mkEdgeIter (Some 0%nat) (Some (0%nat, 1%nat)), false, g') /\
    edge_records g' = 3%nat.
Proof.
  destruct (undirected_self_loop_reported_duplicate Z.eqb intptr_of_int
              Z.eqb_refl Zeqb_sym Zeqb_trans true sample_weighted (Edge3 1 1 4)
              edge_end eq_refl eq_refl eq_refl)
    as (n & g' & Hn & E & _ & Hrec).
  vm_compute in Hn. inversion Hn; subst n.
  exists g'. split; [exact E | exact Hrec].
Defined.

Lemma undirected_mirroring_witness :
  (exists it g' it_ba va vb,
     addEdge Z.eqb intptr_of_int false true (Edge3 2 3 4) sample_weighted
     = Ok (it, true, g') /\
     findEdge Z.eqb g' (Edge3 2 3 4) = Ok it /\
     findEdge Z.eqb g' (Edge3 3 2 4) = Ok it_ba /\
     EdgeIter_deref true g' it = Ok (Edge3 va vb 4) /\
     EdgeIter_deref true g' it_ba = Ok (Edge3 vb va 4)) /\
  (exists it it_ba,
     addEdge Z.eqb intptr_of_int false true (Edge3 1 2 7) sample_weighted
     = Ok (it, false, sample_weighted) /\
     findEdge Z.eqb sample_weighted (Edge3 1 2 7) = Ok it /\
     findEdge Z.eqb sample_weighted (Edge3 2 1 7) = Ok it_ba /\
     EdgeIter_deref true sample_weighted it = Ok (Edge3 1 2 5) /\
     EdgeIter_deref true sample_weighted it_ba = Ok (Edge3 2 1 5)).
Proof.
  split.
  - destruct (undirected_mirroring Z.eqb intptr_of_int Z.eqb_refl Zeqb_sym Zeqb_trans
                true sample_weighted (Edge3 2 3 4) sample_weighted_mirrored eq_refl)
      as (f & t & new1 & g1 & new2 & g2 & mr & g3 & it & ins & g' & it_ba & va & vb & wt
          & _ & _ & _ & _ & E & Hins & F1 & _ & F2 & _ & _ & _ & D1 & D2 & Hw & _ & Hint).
    assert (ins = true) as ->.
    { apply (Hins (mkEdgeIter (Some 1%nat) None)). reflexivity. }
    rewrite (Hw eq_refl eq_refl), (Hint 4 eq_refl) in D1, D2
      by (unfold is_int; lia).
    exists it, g', it_ba, va, vb. repeat split; assumption.
  - destruct (undirected_mirroring Z.eqb intptr_of_int Z.eqb_refl Zeqb_sym Zeqb_trans
                true sample_weighted (Edge3 1 2 7) sample_weighted_mirrored eq_refl)
      as (f & t & new1 & g1 & new2 & g2 & mr & g3 & it & ins & g' & it_ba & va & vb & wt
          & _ & _ & _ & _ & E & Hins & _ & _ & _ & _ & _ & _ & _ & _ & _ & Hdup & _).
    assert (ins = false) as Hfalse.
    { apply (Hins (mkEdgeIter (Some 0%nat) (Some (0%nat, 0%nat)))). reflexivity. }
    subst ins. destruct (Hdup eq_refl) as (Hg & F1 & F2 & D1 & D2). subst g'.
    pose proof F1 as F1'. vm_compute in F1'. inversion F1'; subst it.
    pose proof F2 as F2'. vm_compute in F2'. inversion F2'; subst it_ba.
    pose proof D1 as D1'. vm_compute in D1'. inversion D1'; subst va vb wt.
    exists (mkEdgeIter (Some 0%nat) (Some (0%nat, 0%nat))),
           (mkEdgeIter (Some 1%nat) (Some (1%nat, 0%nat))).
    split; [exact E|]. split; [exact F1|]. split; [exact F2|].
    split; [exact D1 | exact D2].
Defined.

Lemma undirected_edge_records_witness :
  exists g,
    run_ops Z.eqb intptr_of_int false true
      [op_addEdge (Edge3 1 2 5); op_addVertex 7;
       op_addEdge_list [Edge3 2 1 9; Edge3 3 3 1; Edge3 2 3 4]; op_addEdge (Edge3 3 3 8)]
      Graph_ctor = Ok (tt, g) /\
    edge_records g = 5%nat.
Proof.
  destruct (undirected_edge_records Z.eqb intptr_of_int Z.eqb_refl Zeqb_sym Zeqb_trans
              true) as [_ H].
  destruct (H [op_addEdge (Edge3 1 2 5); op_addVertex 7;
               op_addEdge_list [Edge3 2 1 9; Edge3 3 3 1; Edge3 2 3 4];
               op_addEdge (Edge3 3 3 8)] eq_refl)
    as (g & E & Hrec & _).
  exists g. split; [exact E | exact Hrec].
Defined.

(** * Traversal by cursors *)

Section Traversal.

Context {V : Type}.
Variable vertex_equal : V -> V -> bool.
Variable intptr_of : V -> Z.

Implicit Types (g src : Graph (V:=V)) (l : list (VertexNode (V:=V))).

Lemma cursor_at_next {A : Type} (l : list A) i : next_of l i = cursor_at l (S i).
Proof. reflexivity. Qed.

Lemma vertex_begin_cursor g :
  vertex_begin g = mkVertexIter (cursor_at (m_vertex_node_list g) 0).
Proof. unfold vertex_begin, cursor_at. now destruct (m_vertex_node_list g). Qed.

Lemma collect_vertices_from g fuel i :
  (length (m_vertex_node_list g) <= fuel + i)%nat ->
  collect_vertices fuel g (mkVertexIter (cursor_at (m_vertex_node_list g) i))
  = Some (Ok (map vertex (drop i (m_vertex_node_list g)))).
Proof.
  revert i. induction fuel as [|fuel IH]; intros i Hlen.
  - unfold cursor_at. rewrite lookup_ge_None_2 by (cbn in Hlen; lia).
    rewrite drop_ge by (cbn in Hlen; lia). reflexivity.
  - unfold cursor_at. destruct (m_vertex_node_list g !! i) as [n|] eqn:Hn.
    + cbn [collect_vertices VertexIter_eq vptr_eqb vi_vertex_node vertex_end].
      unfold VertexIter_deref, VertexIter_incr. cbn [vi_vertex_node].
      rewrite (at_vertex_Some g i n Hn). cbn [rbind and_then].
      rewrite cursor_at_next, IH by lia. cbn [rbind].
      now rewrite (drop_S _ _ _ Hn).
    + rewrite drop_ge by (now apply lookup_ge_None_1). reflexivity.
Qed.

Lemma record_tuple_deref (Weighted : bool) g i k n e t :
  m_vertex_node_list g !! i = Some n -> edge_list n !! k = Some e ->
  record_tuple Weighted (m_vertex_node_list g) n e = Some t ->
  EdgeIter_deref Weighted g (mkEdgeIter (Some i) (Some (i, k))) = Ok t.
Proof.
  intros Hn He Ht. unfold record_tuple in Ht.
  destruct (vertex_node e) as [j|] eqn:Hj; [|discriminate Ht].
  destruct (m_vertex_node_list g !! j) as [m|] eqn:Hm; [|discriminate Ht].
  inversion Ht; subst t.
  apply (EdgeIter_deref_record Weighted g i k n e j m); assumption.
Qed.

Lemma record_tuple_deref_None (Weighted : bool) g i k n e :
  m_vertex_node_list g !! i = Some n -> edge_list n !! k = Some e ->
  record_tuple Weighted (m_vertex_node_list g) n e = None ->
  EdgeIter_deref Weighted g (mkEdgeIter (Some i) (Some (i, k))) = Undefined.
Proof.
  intros Hn He Ht. unfold EdgeIter_deref, getTuple. cbn [m_edge_node m_vertex_node].
  rewrite (at_vertex_Some _ _ _ Hn). cbn [rbind].
  rewrite (at_edge_Some _ _ _ _ _ Hn He). cbn [rbind].
  unfold record_tuple in Ht. unfold at_vertex.
  destruct (vertex_node e) as [j|]; [|reflexivity].
  now destruct (m_vertex_node_list g !! j).
Qed.

Lemma EdgeIter_incr_record g i k n e v :
  m_vertex_node_list g !! i = Some n -> edge_list n !! k = Some e ->
  EdgeIter_incr g (mkEdgeIter v (Some (i, k)))
  = Ok (mkEdgeIter v (match cursor_at (edge_list n) (S k) with
                      | Some k' => Some (i, k')
                      | None => None
                      end)).
Proof.
  intros Hn He. unfold EdgeIter_incr. cbn [m_edge_node m_vertex_node].
  rewrite (at_edge_Some _ _ _ _ _ Hn He). cbn [rbind].
  now rewrite (at_vertex_Some _ _ _ Hn).
Qed.

Lemma collect_edges_from (Weighted : bool) g i n fuel k ts :
  m_vertex_node_list g !! i = Some n ->
  (length (edge_list n) <= fuel + k)%nat ->
  record_tuples Weighted (m_vertex_node_list g) n (drop k (edge_list n)) = Some ts ->
  collect_edges Weighted fuel g
    (mkEdgeIter (Some i)
       (match cursor_at (edge_list n) k with Some k' => Some (i, k') | None => None end))
  = Some (Ok ts).
Proof.
  intros Hn. revert k ts. induction fuel as [|fuel IH]; intros k ts Hlen Hts.
  - unfold cursor_at. rewrite lookup_ge_None_2 by (cbn in Hlen; lia).
    rewrite drop_ge in Hts by (cbn in Hlen; lia). now inversion Hts.
  - unfold cursor_at. destruct (edge_list n !! k) as [e|] eqn:He.
    + rewrite (drop_S _ _ _ He) in Hts. cbn [record_tuples] in Hts.
      destruct (record_tuple Weighted (m_vertex_node_list g) n e) as [t|] eqn:Ht;
        [|discriminate Hts].
      destruct (record_tuples Weighted (m_vertex_node_list g) n
                  (drop (S k) (edge_list n))) as [ts'|] eqn:Hts';
        [|discriminate Hts].
      inversion Hts; subst ts.
      cbn [collect_edges EdgeIter_eq eptr_eqb m_edge_node edge_end].
      rewrite (record_tuple_deref Weighted g i k n e t Hn He Ht). cbn [and_then].
      rewrite (EdgeIter_incr_record g i k n e (Some i) Hn He). cbn [and_then].
      now rewrite (IH (S k) ts') by (assumption || lia).
    + rewrite drop_ge in Hts by (now apply lookup_ge_None_1). now inversion Hts.
Qed.

Lemma getEdges_cursor g i n :
  m_vertex_node_list g !! i = Some n ->
  getEdges g (mkVertexIter (Some i))
  = Ok (mkEdgeIter (Some i)
          (match cursor_at (edge_list n) 0 with Some k' => Some (i, k') | None => None end)).
Proof.
  intros Hn. unfold getEdges. cbn [vi_vertex_node].
  rewrite (at_vertex_Some _ _ _ Hn). cbn [rbind]. unfold cursor_at.
  now destruct (edge_list n).
Qed.

Lemma targets_valid_record_tuples (Weighted : bool) l i n k :
  targets_valid l -> l !! i = Some n ->
  exists ts, record_tuples Weighted l n (drop k (edge_list n)) = Some ts.
Proof.
  intros Hv Hn.
  assert (forall es, (forall j e, es !! j = Some e ->
                        exists j', edge_list n !! j' = Some e) ->
            exists ts, record_tuples Weighted l n es = Some ts) as H.
  { induction es as [|e es IH]; intros Hes; [now exists []|].
    destruct (Hes 0%nat e eq_refl) as [j' He].
    destruct (Hv i n j' e Hn He) as [t [m [Ht Hm]]].
    destruct IH as [ts Hts]; [intros j e' He'; apply (Hes (S j) e' He')|].
    cbn [record_tuples]. unfold record_tuple. rewrite Ht, Hm, Hts. eauto. }
  apply H. intros j e He. rewrite lookup_drop in He. eauto.
Qed.

Lemma assign_edge_loop_spec Directed Weighted src i n fuel k this :
  m_vertex_node_list src !! i = Some n ->
  (length (edge_list n) <= fuel + k)%nat ->
  assign_edge_loop vertex_equal intptr_of Directed Weighted fuel src
    (mkEdgeIter (Some i)
       (match cursor_at (edge_list n) k with Some k' => Some (i, k') | None => None end))
    this
  = Some (assign_edges vertex_equal intptr_of Directed Weighted src i k
            (drop k (edge_list n)) this).
Proof.
  intros Hn. revert k this. induction fuel as [|fuel IH]; intros k this Hlen.
  - unfold cursor_at. rewrite lookup_ge_None_2 by (cbn in Hlen; lia).
    rewrite drop_ge by (cbn in Hlen; lia). reflexivity.
  - unfold cursor_at. destruct (edge_list n !! k) as [e|] eqn:He.
    + rewrite (drop_S _ _ _ He).
      cbn [assign_edge_loop assign_edges EdgeIter_eq eptr_eqb m_edge_node edge_end].
      destruct (EdgeIter_deref Weighted src (mkEdgeIter (Some i) (Some (i, k))))
        as [edge| |]; cbn [and_then rbind]; try reflexivity.
      destruct (addEdge vertex_equal intptr_of Directed Weighted edge this)
        as [[r this1]| |]; cbn [and_then rbind snd]; try reflexivity.
      rewrite (EdgeIter_incr_record src i k n e (Some i) Hn He). cbn [and_then].
      apply IH. lia.
    + rewrite drop_ge by (now apply lookup_ge_None_1). reflexivity.
Qed.

Lemma assign_vertex_loop_spec Directed Weighted src fuel fuel_edges i this :
  (length (m_vertex_node_list src) <= fuel + i)%nat ->
  (forall j n, m_vertex_node_list src !! j = Some n ->
               (length (edge_list n) <= fuel_edges)%nat) ->
  assign_vertex_loop vertex_equal intptr_of Directed Weighted fuel fuel_edges src
    (mkVertexIter (cursor_at (m_vertex_node_list src) i)) this
  = Some (assign_vertices vertex_equal intptr_of Directed Weighted src i
            (drop i (m_vertex_node_list src)) this).
Proof.
  intros Hlen Hdeg. revert i this Hlen.
  induction fuel as [|fuel IH]; intros i this Hlen.
  - unfold cursor_at. rewrite lookup_ge_None_2 by (cbn in Hlen; lia).
    rewrite drop_ge by (cbn in Hlen; lia). reflexivity.
  - unfold cursor_at. destruct (m_vertex_node_list src !! i) as [n|] eqn:Hn.
    + rewrite (drop_S _ _ _ Hn).
      cbn [assign_vertex_loop assign_vertices VertexIter_eq vptr_eqb vi_vertex_node
           vertex_end].
      rewrite (getEdges_cursor src i n Hn). cbn [and_then].
      rewrite (assign_edge_loop_spec Directed Weighted src i n fuel_edges 0 this Hn)
        by (specialize (Hdeg i n Hn); lia).
      rewrite drop_0.
      destruct (assign_edges vertex_equal intptr_of Directed Weighted src i 0
                  (edge_list n) this) as [[[] this1]| |];
        cbn [and_then rbind snd]; try reflexivity.
      unfold VertexIter_incr. cbn [vi_vertex_node].
      rewrite (at_vertex_Some src i n Hn). cbn [rbind and_then].
      rewrite cursor_at_next. apply IH. lia.
    + rewrite drop_ge by (now apply lookup_ge_None_1). reflexivity.
Qed.

Lemma addEdge_list_app Directed Weighted (edges edges' : list edge_type) g :
  addEdge_list vertex_equal intptr_of Directed Weighted (edges ++ edges') g
  = let* (_, g1) := addEdge_list vertex_equal intptr_of Directed Weighted edges g in
    addEdge_list vertex_equal intptr_of Directed Weighted edges' g1.
Proof.
  revert g. induction edges as [|e edges IH]; intros g; [reflexivity|].
  cbn [app addEdge_list].
  destruct (addEdge vertex_equal intptr_of Directed Weighted e g) as [[r g1]| |];
    cbn [rbind]; [apply IH | reflexivity | reflexivity].
Qed.

Lemma assign_edges_tuples Directed Weighted src i n k ts this :
  m_vertex_node_list src !! i = Some n ->
  record_tuples Weighted (m_vertex_node_list src) n (drop k (edge_list n)) = Some ts ->
  assign_edges vertex_equal intptr_of Directed Weighted src i k
    (drop k (edge_list n)) this
  = addEdge_list vertex_equal intptr_of Directed Weighted ts this.
Proof.
  intros Hn.
  remember (length (edge_list n) - k)%nat as d eqn:Hd.
  revert k ts this Hd. induction d as [|d IH]; intros k ts this Hd Hts.
  - rewrite drop_ge in * by lia. now inversion Hts.
  - destruct (edge_list n !! k) as [e|] eqn:He.
    2:{ apply lookup_ge_None_1 in He. lia. }
    rewrite (drop_S _ _ _ He) in *. cbn [record_tuples] in Hts.
    destruct (record_tuple Weighted (m_vertex_node_list src) n e) as [t|] eqn:Ht;
      [|discriminate Hts].
    destruct (record_tuples Weighted (m_vertex_node_list src) n
                (drop (S k) (edge_list n))) as [ts'|] eqn:Hts';
      [|discriminate Hts].
    inversion Hts; subst ts. cbn [assign_edges addEdge_list].
    rewrite (record_tuple_deref Weighted src i k n e t Hn He Ht). cbn [rbind].
    destruct (addEdge vertex_equal intptr_of Directed Weighted t this)
      as [[r this1]| |]; cbn [rbind]; try reflexivity.
    apply IH; [lia | exact Hts'].
Qed.

Lemma assign_vertices_tuples Directed Weighted src i ts this :
  graph_tuples_from Weighted (m_vertex_node_list src)
    (drop i (m_vertex_node_list src)) = Some ts ->
  assign_vertices vertex_equal intptr_of Directed Weighted src i
    (drop i (m_vertex_node_list src)) this
  = addEdge_list vertex_equal intptr_of Directed Weighted ts this.
Proof.
  remember (length (m_vertex_node_list src) - i)%nat as d eqn:Hd.
  revert i ts this Hd. induction d as [|d IH]; intros i ts this Hd Hts.
  - rewrite drop_ge in * by lia. now inversion Hts.
  - destruct (m_vertex_node_list src !! i) as [n|] eqn:Hn.
    2:{ apply lookup_ge_None_1 in Hn. lia. }
    rewrite (drop_S _ _ _ Hn) in *. cbn [graph_tuples_from] in Hts.
    destruct (record_tuples Weighted (m_vertex_node_list src) n (edge_list n))
      as [ts1|] eqn:Hts1; [|discriminate Hts].
    destruct (graph_tuples_from Weighted (m_vertex_node_list src)
                (drop (S i) (m_vertex_node_list src))) as [ts2|] eqn:Hts2;
      [|discriminate Hts].
    inversion Hts; subst ts. cbn [assign_vertices].
    rewrite addEdge_list_app.
    pose proof (assign_edges_tuples Directed Weighted src i n 0 ts1 this Hn) as H1.
    rewrite drop_0 in H1. rewrite (H1 Hts1).
    destruct (addEdge_list vertex_equal intptr_of Directed Weighted ts1 this)
      as [[[] this1]| |]; cbn [rbind]; try reflexivity.
    apply IH; [lia | exact Hts2].
Qed.

Lemma targets_valid_graph_tuples (Weighted : bool) l :
  targets_valid l -> exists ts, graph_tuples_from Weighted l l = Some ts.
Proof.
  intros Hv.
  assert (forall records, (forall j n, records !! j = Some n ->
                             exists i, l !! i = Some n) ->
            exists ts, graph_tuples_from Weighted l records = Some ts) as H.
  { induction records as [|n records IH]; intros Hrec; [now exists []|].
    destruct (Hrec 0%nat n eq_refl) as [i Hn].
    destruct (targets_valid_record_tuples Weighted l i n 0 Hv Hn) as [ts1 Hts1].
    rewrite drop_0 in Hts1.
    destruct IH as [ts2 Hts2]; [intros j n' Hn'; apply (Hrec (S j) n' Hn')|].
    cbn [graph_tuples_from]. rewrite Hts1, Hts2. eauto. }
  apply H. eauto.
Qed.

End Traversal.

(** * Further properties: traversal and copy *)

Lemma first_index_existsb {A : Type} (p : A -> bool) (l : list A) :
  match first_index p l with Some _ => true | None => false end = existsb p l.
Proof.
  induction l as [|x l IH]; [reflexivity|]. cbn.
  destruct (p x); [reflexivity|]. cbn. rewrite <- IH.
  now destruct (first_index p l).
Qed.

Lemma existsb_map {A B : Type} (p : B -> bool) (f : A -> B) (l : list A) :
  existsb p (map f l) = existsb (fun x => p (f x)) l.
Proof. induction l as [|x l IH]; [reflexivity|]. cbn. now rewrite IH. Qed.

Lemma first_occurrences_length {A : Type} (same : A -> A -> bool) (seen l : list A) :
  (length (first_occurrences same seen l) <= length l)%nat.
Proof.
  revert seen. induction l as [|x l IH]; intros seen; cbn; [lia|].
  destruct (existsb (same x) seen); cbn.
  - specialize (IH seen). lia.
  - specialize (IH (seen ++ [x])). lia.
Qed.

Section TraversalProperties.

Context {V : Type}.
Variable vertex_equal : V -> V -> bool.
Variable intptr_of : V -> Z.

Hypothesis veq_sym :
  forall a b, vertex_equal a b = true -> vertex_equal b a = true.

Implicit Types (g src : Graph (V:=V)) (l : list (VertexNode (V:=V))).

Lemma has_vertex_values l (x : V) :
  has_vertex vertex_equal l x = existsb (vertex_equal x) (map vertex l).
Proof.
  unfold has_vertex, vertex_pos. rewrite first_index_existsb. now rewrite existsb_map.
Qed.

Lemma addVertex_list_values (values : list V) g :
  exists g',
    addVertex_list vertex_equal values g = Ok (tt, g') /\
    map vertex (m_vertex_node_list g')
    = map vertex (m_vertex_node_list g)
      ++ first_occurrences vertex_equal (map vertex (m_vertex_node_list g)) values.
Proof using veq_sym.
  revert g. induction values as [|v values IH]; intros g.
  - exists g. cbn. now rewrite app_nil_r.
  - cbn [addVertex_list first_occurrences].
    rewrite (addVertex_spec vertex_equal veq_sym). cbn [rbind].
    set (g1 := mkGraph _ _). destruct (IH g1) as [g' [E Hv]].
    exists g'. split; [exact E|]. rewrite Hv. subst g1. cbn [m_vertex_node_list].
    rewrite <- has_vertex_values. unfold has_vertex, insert_vertex.
    destruct (vertex_pos vertex_equal v (m_vertex_node_list g)); cbn [snd].
    + reflexivity.
    + rewrite map_app. cbn [map vertex]. now rewrite <- app_assoc.
Qed.

(** X1. Walking the vertex cursor from [begin()] by [++] until it compares
    equal to [end()] never throws, ends after as many rounds as there are
    vertex records, and yields the stored values in list order; after
    inserting a sequence of values into an empty graph that is the
    sequence of their first occurrences, in insertion order. *)
Theorem vertex_traversal_in_insertion_order :
  (forall g fuel,
     (length (m_vertex_node_list g) <= fuel)%nat ->
     collect_vertices fuel g (vertex_begin g)
     = Some (Ok (map vertex (m_vertex_node_list g)))) /\
  (forall (values : list V) fuel,
     (length values <= fuel)%nat ->
     exists g,
       addVertex_list vertex_equal values Graph_ctor = Ok (tt, g) /\
       collect_vertices fuel g (vertex_begin g)
       = Some (Ok (first_occurrences vertex_equal [] values))).
Proof using veq_sym.
  assert (forall g fuel,
            (length (m_vertex_node_list g) <= fuel)%nat ->
            collect_vertices fuel g (vertex_begin g)
            = Some (Ok (map vertex (m_vertex_node_list g)))) as Hwalk.
  { intros g fuel Hlen. rewrite vertex_begin_cursor.
    rewrite collect_vertices_from by lia. now rewrite drop_0. }
  split; [exact Hwalk|].
  intros values fuel Hlen.
  destruct (addVertex_list_values values Graph_ctor) as [g [E Hv]].
  cbn [Graph_ctor m_vertex_node_list map app] in Hv.
  exists g. split; [exact E|]. rewrite <- Hv. apply Hwalk.
  rewrite <- (length_map vertex), Hv.
  pose proof (first_occurrences_length vertex_equal [] values). lia.
Qed.

(** X2. Walking the edge cursor that [getEdges] returns for a vertex, by
    [++] until it compares equal to [edge_end()], never throws, ends after
    as many rounds as the vertex has edge records and yields one tuple per
    record, in list order, each with the value of that vertex as its
    source (the edge records point at vertex records of the graph). *)
Theorem edge_traversal_of_vertex (Weighted : bool) g i n fuel :
  targets_valid (m_vertex_node_list g) ->
  m_vertex_node_list g !! i = Some n ->
  (length (edge_list n) <= fuel)%nat ->
  exists e0 ts,
    getEdges g (mkVertexIter (Some i)) = Ok e0 /\
    collect_edges Weighted fuel g e0 = Some (Ok ts) /\
    record_tuples Weighted (m_vertex_node_list g) n (edge_list n) = Some ts /\
    length ts = length (edge_list n) /\
    Forall (fun t => get0 t = vertex n) ts.
Proof.
  intros Hv Hn Hlen.
  destruct (targets_valid_record_tuples Weighted _ i n 0 Hv Hn) as [ts Hts].
  eexists _, ts. split; [apply (getEdges_cursor g i n Hn)|].
  split; [apply collect_edges_from; [exact Hn | lia | exact Hts]|].
  rewrite drop_0 in Hts. split; [exact Hts|].
  clear Hlen Hn. revert ts Hts.
  induction (edge_list n) as [|e es IH]; intros ts Hts; cbn [record_tuples] in Hts.
  - inversion Hts. split; [reflexivity | constructor].
  - unfold record_tuple in Hts at 1.
    destruct (vertex_node e) as [t|]; [|discriminate Hts].
    destruct (m_vertex_node_list g !! t) as [m|]; [|discriminate Hts].
    destruct (record_tuples Weighted (m_vertex_node_list g) n es) as [ts'|];
      [|discriminate Hts].
    inversion Hts; subst ts. destruct (IH ts' eq_refl) as [IH1 IH2].
    split; [cbn; now rewrite IH1|]. constructor; [now destruct Weighted | exact IH2].
Qed.

(** X3. The two loops of [operator=], written with [begin()], [!=],
    [getEdges()], [*] and [++], come to their end within as many outer
    rounds as the source has vertex records and as many inner rounds as
    its longest edge list, and do what the walk over the records of the
    source does; assigning a graph to itself needs no round at all. *)
Theorem operator_assign_loops_terminate (Directed Weighted : bool) :
  (forall src this fuel fuel_edges,
     (length (m_vertex_node_list src) <= fuel)%nat ->
     (forall j n, m_vertex_node_list src !! j = Some n ->
                  (length (edge_list n) <= fuel_edges)%nat) ->
     operator_assign_loops vertex_equal intptr_of Directed Weighted fuel fuel_edges
       (Other src) this
     = Some (operator_assign vertex_equal intptr_of Directed Weighted (Other src) this)) /\
  (forall this fuel fuel_edges,
     operator_assign_loops vertex_equal intptr_of Directed Weighted fuel fuel_edges
       This this
     = Some (Ok (tt, Graph_ctor))).
Proof.
  split.
  - intros src this fuel fuel_edges Hlen Hdeg.
    unfold operator_assign_loops, operator_assign, destroyGraph.
    cbn [and_then rbind snd]. rewrite vertex_begin_cursor.
    rewrite (assign_vertex_loop_spec vertex_equal intptr_of Directed Weighted src
               fuel fuel_edges 0) by (assumption || lia).
    now rewrite drop_0.
  - intros this fuel fuel_edges. unfold operator_assign_loops, destroyGraph.
    cbn [and_then snd]. now destruct fuel.
Qed.

(** X4. Copy assignment and copy construction are the insertion, into an
    empty graph, of the tuples that the edge records of the source
    dereference to, vertex by vertex in list order: the result does not
    depend on what the destination held, and a source whose edge records
    point at its own vertex records is always copied without error. *)
Theorem copy_is_reinsertion (Directed Weighted : bool) src :
  targets_valid (m_vertex_node_list src) ->
  exists ts copy,
    graph_tuples Weighted src = Some ts /\
    Graph_ctor_list vertex_equal intptr_of Directed Weighted ts = Ok copy /\
    Graph_ctor_copy vertex_equal intptr_of Directed Weighted src = Ok copy /\
    forall this,
      operator_assign vertex_equal intptr_of Directed Weighted (Other src) this
      = Ok (tt, copy).
Proof using veq_sym.
  intros Hv.
  destruct (targets_valid_graph_tuples Weighted _ Hv) as [ts Hts].
  destruct (addEdge_list_total vertex_equal intptr_of veq_sym Directed Weighted ts
              Graph_ctor) as [copy E].
  assert (forall this,
            operator_assign vertex_equal intptr_of Directed Weighted (Other src) this
            = Ok (tt, copy)) as Hassign.
  { intros this. unfold operator_assign, destroyGraph. cbn [rbind].
    pose proof (assign_vertices_tuples vertex_equal intptr_of Directed Weighted src 0
                  ts (mkGraph [] 0)) as H.
    rewrite drop_0 in H. rewrite (H Hts). exact E. }
  exists ts, copy. repeat split.
  - exact Hts.
  - unfold Graph_ctor_list. now rewrite E.
  - unfold Graph_ctor_copy. now rewrite Hassign.
  - exact Hassign.
Qed.

End TraversalProperties.

(** * Further properties: lookup *)

Section LookupProperties.

Context {V : Type}.
Variable vertex_equal : V -> V -> bool.
Variable intptr_of : V -> Z.

Hypothesis veq_refl : forall a, vertex_equal a a = true.
Hypothesis veq_sym :
  forall a b, vertex_equal a b = true -> vertex_equal b a = true.
Hypothesis veq_trans :
  forall a b c, vertex_equal a b = true -> vertex_equal b c = true ->
    vertex_equal a c = true.

Local Abbreviation vpos := (vertex_pos vertex_equal).
Local Abbreviation ins_vertex := (insert_vertex vertex_equal).
Implicit Types (g : Graph (V:=V)) (l : list (VertexNode (V:=V))) (value a b : V).
Implicit Types (edge : edge_type (V:=V)).

(** What [findEdge] hands out when it succeeds, and what the cursor
    dereferences to. *)
Lemma findEdge_deref (Weighted : bool) g edge it :
  findEdge vertex_equal g edge = Ok it -> edge_at_end it = false ->
  exists f t n m e0 k,
    it = mkEdgeIter (Some f) (Some (f, k)) /\
    vpos (get0 edge) (m_vertex_node_list g) = Some f /\
    vpos (get1 edge) (m_vertex_node_list g) = Some t /\
    m_vertex_node_list g !! f = Some n /\
    m_vertex_node_list g !! t = Some m /\
    edge_between (m_vertex_node_list g) f t = Some e0 /\
    vertex_equal (get0 edge) (vertex n) = true /\
    vertex_equal (get1 edge) (vertex m) = true /\
    EdgeIter_deref Weighted g it
    = Ok (if Weighted then Edge3 (vertex n) (vertex m) (weight e0)
          else Edge2 (vertex n) (vertex m)).
Proof using veq_sym.
  intros E Hend.
  destruct (findEdge_found vertex_equal veq_sym g edge it E Hend)
    as [f [t [n [k [e0 [-> [Hf [Ht [Hn [Hk [He Hb]]]]]]]]]]].
  destruct (vertex_pos_Some vertex_equal _ _ _ Hf) as [n' [Hn' Hvn]].
  destruct (vertex_pos_Some vertex_equal _ _ _ Ht) as [m [Hm Hvm]].
  assert (n' = n) by congruence. subst n'.
  destruct (edge_between_Some _ _ _ _ Hb) as [n1 [k1 [Hn1 [_ [_ Hto]]]]].
  exists f, t, n, m, e0, k. repeat split; try assumption.
  apply (EdgeIter_deref_record Weighted g f k n e0 t m); assumption.
Qed.

(** X5. [findVertex] always returns.  It returns [end()] when no record
    equals the value, in particular on the empty graph; otherwise it
    returns the cursor to the first record that equals the value (the only
    one when the stored values are pairwise distinct), and that cursor
    dereferences to the stored value. *)
Theorem findVertex_first_equal g value :
  exists it,
    findVertex vertex_equal g value = Ok it /\
    (m_vertex_node_list g = [] -> it = vertex_end) /\
    ((forall i n, m_vertex_node_list g !! i = Some n ->
                  vertex_equal (vertex n) value = false) -> it = vertex_end) /\
    (forall i n,
       m_vertex_node_list g !! i = Some n ->
       vertex_equal (vertex n) value = true ->
       exists j m,
         (j <= i)%nat /\ it = mkVertexIter (Some j) /\
         m_vertex_node_list g !! j = Some m /\
         vertex_equal (vertex m) value = true /\
         VertexIter_deref g it = Ok (vertex m) /\
         (forall j' m', (j' < j)%nat -> m_vertex_node_list g !! j' = Some m' ->
                        vertex_equal (vertex m') value = false) /\
         (unique_vertices vertex_equal (m_vertex_node_list g) -> j = i)).
Proof using veq_sym veq_trans.
  exists (mkVertexIter (vpos value (m_vertex_node_list g))).
  split; [apply (findVertex_spec vertex_equal veq_sym)|].
  split; [intros ->; reflexivity|]. split.
  - intros Hnone.
    assert (vpos value (m_vertex_node_list g) = None) as ->; [|reflexivity].
    apply first_index_None. intros i n Hn. cbn.
    destruct (vertex_equal value (vertex n)) eqn:Hv; [|reflexivity].
    apply veq_sym in Hv. rewrite (Hnone i n Hn) in Hv. discriminate Hv.
  - intros i n Hn Hv.
    destruct (first_index_found (fun n => vertex_equal value (vertex n))
                (m_vertex_node_list g) i n Hn (veq_sym _ _ Hv)) as [j [Hj Hle]].
    destruct (first_index_Some _ _ _ Hj) as [[m [Hm Hvm]] Hbefore].
    exists j, m. unfold vertex_pos. rewrite Hj. repeat split.
    + exact Hle.
    + exact Hm.
    + now apply veq_sym.
    + unfold VertexIter_deref. cbn [vi_vertex_node].
      now rewrite (at_vertex_Some g j m Hm).
    + intros j' m' Hlt Hm'. specialize (Hbefore j' m' Hlt Hm'). cbn in Hbefore.
      destruct (vertex_equal (vertex m') value) eqn:Hv'; [|reflexivity].
      apply veq_sym in Hv'. congruence.
    + intros Hu. apply (Hu j i m n Hm Hn).
      apply (veq_trans _ value); [now apply veq_sym | now apply veq_sym].
Qed.

(** X6. After [addVertex(v)], [findVertex(v)] returns the cursor that
    [addVertex] returned; it dereferences to a value equal to [v], to [v]
    itself when the vertex was inserted.  For any other value [findVertex]
    still returns the cursor it returned before when it found a record,
    and it returns [end()] exactly when it did before and the value does
    not equal [v]. *)
Theorem addVertex_then_findVertex g value :
  exists it inserted g' x,
    addVertex vertex_equal value g = Ok (it, inserted, g') /\
    findVertex vertex_equal g' value = Ok it /\
    vertex_at_end it = false /\
    VertexIter_deref g' it = Ok x /\
    vertex_equal value x = true /\
    (inserted = true -> x = value) /\
    (forall y, exists it_y it_y',
       findVertex vertex_equal g y = Ok it_y /\
       findVertex vertex_equal g' y = Ok it_y' /\
       vertex_at_end it_y' = vertex_at_end it_y && negb (vertex_equal y value) /\
       (vertex_at_end it_y = false -> it_y' = it_y)).
Proof using veq_refl veq_sym veq_trans.
  set (l := m_vertex_node_list g).
  pose proof (insert_vertex_pos vertex_equal veq_refl value l) as Hpos.
  destruct (vertex_pos_Some vertex_equal _ _ _ Hpos) as [n [Hn Hvn]].
  eexists _, _, _, (vertex n).
  split; [apply (addVertex_spec vertex_equal veq_sym)|].
  rewrite (findVertex_spec vertex_equal veq_sym). cbn [m_vertex_node_list].
  fold l. rewrite Hpos. repeat split.
  - unfold VertexIter_deref. cbn [vi_vertex_node].
    now rewrite (at_vertex_Some (mkGraph _ _) _ n Hn).
  - exact Hvn.
  - intros Hins. revert Hn. unfold insert_vertex.
    destruct (vpos value l) eqn:E; [discriminate Hins|]. cbn [fst snd].
    rewrite list_lookup_middle by reflexivity. intros H. now inversion H.
  - intros y. eexists _, _.
    rewrite !(findVertex_spec vertex_equal veq_sym). cbn [m_vertex_node_list].
    fold l. split; [reflexivity|]. split; [reflexivity|].
    rewrite vertex_pos_insert.
    destruct (vpos y l) as [i|] eqn:Ey; [split; reflexivity|].
    split; [|discriminate].
    destruct (vpos value l) as [j|] eqn:Ev.
    + cbn. destruct (vertex_equal y value) eqn:Hy; [|reflexivity].
      rewrite (vertex_pos_compat vertex_equal veq_sym veq_trans y value l Hy) in Ey.
      congruence.
    + now destruct (vertex_equal y value).
Qed.

(** X7. [findEdge] always returns.  When either endpoint has no vertex
    record the cursor it returns compares equal to [edge_end()]; when the
    cursor does not, it dereferences to a tuple whose endpoints equal the
    ones asked for, and its start vertex is the cursor that [findVertex]
    returns for the source. *)
Theorem findEdge_sound (Weighted : bool) g edge :
  exists it,
    findEdge vertex_equal g edge = Ok it /\
    (findVertex vertex_equal g (get0 edge) = Ok vertex_end \/
     findVertex vertex_equal g (get1 edge) = Ok vertex_end ->
     edge_at_end it = true) /\
    (edge_at_end it = false ->
     exists a' b' w',
       EdgeIter_deref Weighted g it
       = Ok (if Weighted then Edge3 a' b' w' else Edge2 a' b') /\
       vertex_equal (get0 edge) a' = true /\
       vertex_equal (get1 edge) b' = true /\
       findVertex vertex_equal g (get0 edge) = Ok (getStartVertex it)).
Proof using veq_sym.
  destruct (findEdge_spec vertex_equal veq_sym g edge) as [v [E Hv]].
  eexists. split; [exact E|]. split.
  - rewrite !(findVertex_spec vertex_equal veq_sym). unfold vertex_end.
    intros H. apply edge_at_end_None. cbn [m_edge_node]. unfold find_edge_ptr.
    destruct H as [H|H]; inversion H as [H']; rewrite H'.
    + reflexivity.
    + now destruct (vpos (get0 edge) (m_vertex_node_list g)).
  - intros Hend.
    destruct (findEdge_deref Weighted g edge _ E Hend)
      as (f & t & n & m & e0 & k & Hit & Hf & Ht & Hn & Hm & Hb & Hvn & Hvm & Hd).
    exists (vertex n), (vertex m), (weight e0). repeat split; try assumption.
    rewrite (findVertex_spec vertex_equal veq_sym), Hf, Hit. reflexivity.
Qed.

(** X8. In every configuration [addEdge] returns, and afterwards
    [findEdge] on the same tuple returns the very cursor that [addEdge]
    returned; it dereferences to a tuple whose endpoints equal those of
    the inserted tuple and, in a weighted graph, carries the inserted
    weight whenever [inserted] is [true].  Both endpoints have vertex
    records afterwards. *)
Theorem addEdge_then_findEdge_deref (Directed Weighted : bool) g edge :
  exists it inserted g' a' b' w',
    addEdge vertex_equal intptr_of Directed Weighted edge g = Ok (it, inserted, g') /\
    findEdge vertex_equal g' edge = Ok it /\
    edge_at_end it = false /\
    EdgeIter_deref Weighted g' it
    = Ok (if Weighted then Edge3 a' b' w' else Edge2 a' b') /\
    vertex_equal (get0 edge) a' = true /\
    vertex_equal (get1 edge) b' = true /\
    (inserted = true -> Weighted = true ->
     w' = int_of_intptr (get_last_intptr intptr_of edge)) /\
    (exists va vb,
       findVertex vertex_equal g' (get0 edge) = Ok va /\ vertex_at_end va = false /\
       findVertex vertex_equal g' (get1 edge) = Ok vb /\ vertex_at_end vb = false).
Proof using veq_refl veq_sym veq_trans.
  destruct (addEdge_spec vertex_equal intptr_of veq_sym Directed Weighted edge g)
    as [n0 [Hn0 E]].
  cbn zeta in Hn0, E.
  set (l := m_vertex_node_list g) in *.
  set (l1 := (ins_vertex (get0 edge) l).2) in *.
  set (f := (ins_vertex (get0 edge) l).1) in *.
  set (l2 := (ins_vertex (get1 edge) l1).2) in *.
  set (t := (ins_vertex (get1 edge) l1).1) in *.
  set (w := int_of_intptr _) in *.
  set (l3 := if Directed then l2 else insert_edge Weighted t f w l2) in *.
  match type of E with _ = Ok (?i, ?b, ?G) =>
    set (it := i) in *; set (ins := b) in *; set (g' := G) in * end.
  destruct (addEdge_then_findEdge vertex_equal intptr_of veq_refl veq_sym veq_trans
              Directed Weighted edge edge g it ins g' (veq_refl _) (veq_refl _) E)
    as [Efind Hend].
  destruct (findEdge_deref Weighted g' edge it Efind Hend)
    as (f1 & t1 & n & m & e0 & k & Hit & Hf & Ht & Hn & Hm & Hb & Hvn & Hvm & Hd).
  exists it, ins, g', (vertex n), (vertex m), (weight e0).
  repeat split; try assumption.
  - intros Hins HW. subst ins.
    destruct (edge_pos (Some t) (edge_list n0)) eqn:Ek; [discriminate Hins|].
    apply (edge_between_None l3 f t n0 Hn0) in Ek.
    assert (vpos (get0 edge) l3 = Some f) as Hpf.
    { assert (vpos (get0 edge) l2 = Some f) as H
        by (apply vertex_pos_insert_keep, (insert_vertex_pos vertex_equal veq_refl)).
      subst l3. destruct Directed; [exact H|]. now rewrite vertex_pos_insert_edge. }
    assert (vpos (get1 edge) l3 = Some t) as Hpt.
    { assert (vpos (get1 edge) l2 = Some t) as H
        by apply (insert_vertex_pos vertex_equal veq_refl).
      subst l3. destruct Directed; [exact H|]. now rewrite vertex_pos_insert_edge. }
    subst g'. cbn [m_vertex_node_list] in Hf, Ht, Hb.
    rewrite vertex_pos_insert_edge in Hf, Ht.
    assert (f1 = f) by congruence. assert (t1 = t) by congruence. subst f1 t1.
    rewrite edge_between_insert_edge in Hb
      by (eapply lookup_lt_Some; exact Hn0).
    rewrite Ek, !Nat.eqb_refl in Hb. cbn [andb] in Hb.
    inversion Hb. cbn [weight]. now rewrite HW.
  - eexists _, _. rewrite !(findVertex_spec vertex_equal veq_sym), Hf, Ht.
    repeat split; reflexivity.
Qed.

End LookupProperties.

(** * Further properties: what insertion keeps *)

Section Insertion.

Context {V : Type}.
Variable vertex_equal : V -> V -> bool.
Variable intptr_of : V -> Z.

Hypothesis veq_sym :
  forall a b, vertex_equal a b = true -> vertex_equal b a = true.

Local Abbreviation vpos := (vertex_pos vertex_equal).
Local Abbreviation ins_vertex := (insert_vertex vertex_equal).
Implicit Types (g : Graph (V:=V)) (l : list (VertexNode (V:=V))).

(** A property of vertex lists that the two elementary insertions keep is
    kept by every public operation; the copy starts from the empty list. *)
Section ListInvariant.

Variable P : list (VertexNode (V:=V)) -> Prop.
Hypothesis P_vertex : forall v l, P l -> P (ins_vertex v l).2.
Hypothesis P_edge :
  forall Weighted f t w l,
    (f < length l)%nat -> (t < length l)%nat -> P l -> P (insert_edge Weighted f t w l).

Lemma addVertex_keeps (v : V) g r g' :
  P (m_vertex_node_list g) -> addVertex vertex_equal v g = Ok (r, g') ->
  P (m_vertex_node_list g').
Proof using veq_sym P_vertex.
  intros H. rewrite (addVertex_spec vertex_equal veq_sym). intros E.
  inversion E; subst. now apply P_vertex.
Qed.

Lemma addEdge_keeps Directed Weighted (edge : edge_type) g r g' :
  P (m_vertex_node_list g) ->
  addEdge vertex_equal intptr_of Directed Weighted edge g = Ok (r, g') ->
  P (m_vertex_node_list g').
Proof using veq_sym P_vertex P_edge.
  intros H E.
  destruct (addEdge_spec vertex_equal intptr_of veq_sym Directed Weighted edge g)
    as [n [_ E']].
  rewrite E' in E. inversion E; subst; clear E E'. cbn [m_vertex_node_list].
  pose proof (insert_vertex_valid vertex_equal (get0 edge) (m_vertex_node_list g))
    as Hf.
  pose proof (insert_vertex_valid vertex_equal (get1 edge)
                (ins_vertex (get0 edge) (m_vertex_node_list g)).2) as Ht.
  destruct (insert_vertex_prefix vertex_equal (get1 edge)
              (ins_vertex (get0 edge) (m_vertex_node_list g)).2) as [tl Htl].
  assert (((ins_vertex (get0 edge) (m_vertex_node_list g)).1
           < length (ins_vertex (get1 edge)
                       (ins_vertex (get0 edge) (m_vertex_node_list g)).2).2)%nat)
    as Hf2 by (rewrite Htl, length_app; lia).
  assert (P (ins_vertex (get1 edge)
               (ins_vertex (get0 edge) (m_vertex_node_list g)).2).2) as H2
    by now apply P_vertex, P_vertex.
  destruct Directed.
  - now apply P_edge.
  - apply P_edge; rewrite ?insert_edge_length; try assumption.
    now apply P_edge.
Qed.

Lemma addVertex_list_keeps (values : list V) g r g' :
  P (m_vertex_node_list g) -> addVertex_list vertex_equal values g = Ok (r, g') ->
  P (m_vertex_node_list g').
Proof using veq_sym P_vertex.
  revert g. induction values as [|v values IH]; intros g H E; cbn in E.
  - now inversion E; subst.
  - destruct (addVertex vertex_equal v g) as [[r1 g1]| |] eqn:E1; try discriminate E.
    cbn [rbind] in E. eapply IH; [|exact E]. eapply addVertex_keeps; eauto.
Qed.

Lemma addEdge_list_keeps Directed Weighted (edges : list edge_type) g r g' :
  P (m_vertex_node_list g) ->
  addEdge_list vertex_equal intptr_of Directed Weighted edges g = Ok (r, g') ->
  P (m_vertex_node_list g').
Proof using veq_sym P_vertex P_edge.
  revert g. induction edges as [|e edges IH]; intros g H E; cbn in E.
  - now inversion E; subst.
  - destruct (addEdge vertex_equal intptr_of Directed Weighted e g)
      as [[r1 g1]| |] eqn:E1; try discriminate E.
    cbn [rbind] in E. eapply IH; [|exact E]. eapply addEdge_keeps; eauto.
Qed.



Lemma insertion_keeps Directed Weighted (o : public_op) g r g' :
  is_insertion o = true -> P (m_vertex_node_list g) ->
  run_op vertex_equal intptr_of Directed Weighted o g = Ok (r, g') ->
  P (m_vertex_node_list g').
Proof using veq_sym P_vertex P_edge.
  intros Hins H E.
  destruct o as [value|values|edge|edges|rhs|]; try discriminate Hins;
    cbn [run_op] in E.
  - destruct (addVertex vertex_equal value g) as [[r1 g1]| |] eqn:E1;
      try discriminate E.
    cbn in E. inversion E; subst. eapply addVertex_keeps; eauto.
  - eapply addVertex_list_keeps; eauto.
  - destruct (addEdge _ _ _ _ edge g) as [[r1 g1]| |] eqn:E1; try discriminate E.
    cbn in E. inversion E; subst. eapply addEdge_keeps; eauto.
  - eapply addEdge_list_keeps; eauto.
Qed.


End ListInvariant.

Lemma extends_refl l : extends l l.
Proof. intros i n Hn. exists n. auto. Qed.

Lemma extends_trans l1 l2 l3 : extends l1 l2 -> extends l2 l3 -> extends l1 l3.
Proof.
  intros H12 H23 i n Hn.
  destruct (H12 i n Hn) as [n2 [Hn2 [Hv2 He2]]].
  destruct (H23 i n2 Hn2) as [n3 [Hn3 [Hv3 He3]]].
  exists n3. repeat split; [exact Hn3 | congruence | auto].
Qed.

Lemma extends_insert_vertex (v : V) l : extends l (ins_vertex v l).2.
Proof.
  unfold insert_vertex. destruct (vpos v l); cbn [snd]; [apply extends_refl|].
  intros i n Hn. exists n. repeat split; [|auto].
  rewrite lookup_app_l; [exact Hn | eapply lookup_lt_Some; exact Hn].
Qed.

Lemma extends_insert_edge Weighted f t w l : extends l (insert_edge Weighted f t w l).
Proof.
  unfold insert_edge. destruct (l !! f) as [nf|] eqn:Hf; [|apply extends_refl].
  destruct (edge_pos (Some t) (edge_list nf)); [apply extends_refl|].
  intros i n Hn. destruct (Nat.eq_dec i f) as [->|Hne].
  - assert (nf = n) by congruence. subst nf.
    eexists. rewrite list_lookup_insert_eq by (eapply lookup_lt_Some; exact Hn).
    repeat split. cbn [edge_list]. intros k e He.
    rewrite lookup_app_l; [exact He | eapply lookup_lt_Some; exact He].
  - exists n. rewrite list_lookup_insert_ne by congruence. auto.
Qed.

Lemma insertions_extend Directed Weighted (ops : list public_op) g r g' :
  forallb is_insertion ops = true ->
  run_ops vertex_equal intptr_of Directed Weighted ops g = Ok (r, g') ->
  extends (m_vertex_node_list g) (m_vertex_node_list g').
Proof using veq_sym.
  revert g. induction ops as [|o ops IH]; intros g Hins E; cbn in E.
  - inversion E; subst. apply extends_refl.
  - cbn [forallb] in Hins. apply andb_true_iff in Hins as [Ho Hins].
    destruct (run_op vertex_equal intptr_of Directed Weighted o g)
      as [[[] g1]| |] eqn:E1; try discriminate E.
    cbn [rbind] in E.
    apply (extends_trans _ (m_vertex_node_list g1)); [|now apply IH].
    apply (insertion_keeps (extends (m_vertex_node_list g))) with (3 := Ho) (5 := E1).
    + intros v l H. eapply extends_trans; [exact H | apply extends_insert_vertex].
    + intros W f t w l _ _ H. eapply extends_trans; [exact H | apply extends_insert_edge].
    + apply extends_refl.
Qed.

Lemma extends_vertex_pos l l' (x : V) i :
  extends l l' -> vpos x l = Some i -> vpos x l' = Some i.
Proof.
  intros Hext Hx.
  destruct (first_index_Some _ _ _ Hx) as [[n [Hn Hp]] Hbefore].
  destruct (Hext i n Hn) as [n' [Hn' [Hv' _]]].
  destruct (first_index_found (fun n => vertex_equal x (vertex n)) l' i n' Hn')
    as [j [Hj Hle]]; [cbn; now rewrite Hv'|].
  unfold vertex_pos. rewrite Hj. f_equal.
  destruct (Nat.eq_dec j i) as [|Hne]; [assumption|].
  assert (j < i)%nat as Hlt by lia.
  destruct (lookup_lt_is_Some_2 l j) as [m Hm];
    [apply lookup_lt_Some in Hn; lia|].
  destruct (Hext j m Hm) as [m' [Hm' [Hvm' _]]].
  destruct (first_index_Some _ _ _ Hj) as [[m'' [Hm'' Hp'']] _].
  assert (m'' = m') by congruence. subst m''.
  specialize (Hbefore j m Hlt Hm). cbn in Hbefore, Hp''. congruence.
Qed.

Lemma extends_edge_pos (es es' : list EdgeNode) to k :
  (forall j e, es !! j = Some e -> es' !! j = Some e) ->
  edge_pos to es = Some k -> edge_pos to es' = Some k.
Proof.
  intros Hext Hk.
  destruct (first_index_Some _ _ _ Hk) as [[e [He Hp]] Hbefore].
  destruct (first_index_found (fun e => vptr_eqb (vertex_node e) to) es' k e
              (Hext k e He) Hp) as [j [Hj Hle]].
  unfold edge_pos. rewrite Hj. f_equal.
  destruct (Nat.eq_dec j k) as [|Hne]; [assumption|].
  assert (j < k)%nat as Hlt by lia.
  destruct (lookup_lt_is_Some_2 es j) as [e1 He1];
    [apply lookup_lt_Some in He; lia|].
  destruct (first_index_Some _ _ _ Hj) as [[e2 [He2 Hp2]] _].
  rewrite (Hext j e1 He1) in He2. inversion He2; subst e2.
  specialize (Hbefore j e1 Hlt He1). cbn in Hbefore, Hp2. congruence.
Qed.

(** X9. Insertion never takes anything away and never invalidates a
    cursor: after any sequence of vertex and edge insertions, single or
    batch, a vertex cursor and an edge cursor obtained before still
    dereference to the same value and tuple, and [findVertex] and
    [findEdge] still return the cursors they returned before for whatever
    they found. *)
Theorem insertion_keeps_cursors (Directed Weighted : bool) (ops : list public_op)
  g r g' :
  forallb is_insertion ops = true ->
  run_ops vertex_equal intptr_of Directed Weighted ops g = Ok (r, g') ->
  (forall it x, VertexIter_deref g it = Ok x -> VertexIter_deref g' it = Ok x) /\
  (forall it t, EdgeIter_deref Weighted g it = Ok t ->
                EdgeIter_deref Weighted g' it = Ok t) /\
  (forall y it, findVertex vertex_equal g y = Ok it -> vertex_at_end it = false ->
                findVertex vertex_equal g' y = Ok it) /\
  (forall e it, findEdge vertex_equal g e = Ok it -> edge_at_end it = false ->
                findEdge vertex_equal g' e = Ok it).
Proof using veq_sym.
  intros Hins E.
  pose proof (insertions_extend Directed Weighted ops g r g' Hins E) as Hext.
  repeat apply conj.
  - intros [[i|]] x; unfold VertexIter_deref; cbn [vi_vertex_node at_vertex];
      [|discriminate].
    destruct (m_vertex_node_list g !! i) as [n|] eqn:Hn; [|discriminate].
    destruct (Hext i n Hn) as [n' [-> [Hv _]]]. cbn. now rewrite Hv.
  - intros [v [[f k]|]] t; unfold EdgeIter_deref, getTuple;
      cbn [m_edge_node m_vertex_node]; [|discriminate].
    destruct v as [i|]; [|discriminate]. cbn [at_vertex at_edge].
    destruct (m_vertex_node_list g !! i) as [src|] eqn:Hsrc; [|discriminate].
    destruct (Hext i src Hsrc) as [src' [-> [Hvs _]]]. cbn [rbind].
    destruct (m_vertex_node_list g !! f) as [n|] eqn:Hn; [|discriminate].
    destruct (Hext f n Hn) as [n' [-> [_ Hes]]]. cbn [rbind].
    destruct (edge_list n !! k) as [e|] eqn:He; [|discriminate].
    rewrite (Hes k e He). cbn [rbind].
    destruct (vertex_node e) as [j|]; cbn [at_vertex]; [|discriminate].
    destruct (m_vertex_node_list g !! j) as [dst|] eqn:Hdst; [|discriminate].
    destruct (Hext j dst Hdst) as [dst' [-> [Hvd _]]]. cbn [rbind].
    now rewrite Hvs, Hvd.
  - intros y it. rewrite !(findVertex_spec vertex_equal veq_sym).
    intros H Hend. inversion H; subst it.
    destruct (vpos y (m_vertex_node_list g)) as [i|] eqn:Hy; [|discriminate Hend].
    now rewrite (extends_vertex_pos _ _ y i Hext Hy).
  - intros e it Efind Hend.
    destruct (findEdge_found vertex_equal veq_sym g e it Efind Hend)
      as [f [t [n [k [e0 [-> [Hf [Ht [Hn [Hk _]]]]]]]]]].
    destruct (findEdge_spec vertex_equal veq_sym g' e) as [v [-> Hv]].
    revert Hv. unfold find_edge_ptr.
    rewrite (extends_vertex_pos _ _ _ f Hext Hf), (extends_vertex_pos _ _ _ t Hext Ht).
    unfold edge_cursor. destruct (Hext f n Hn) as [n' [-> [_ Hes]]].
    rewrite (extends_edge_pos _ _ _ k Hes Hk). intros Hv.
    now rewrite (Hv f k eq_refl).
Qed.

End Insertion.

(** * Further properties: the structure of the graphs one can build *)

Section Structure.

Context {V : Type}.
Variable vertex_equal : V -> V -> bool.
Variable intptr_of : V -> Z.

Hypothesis veq_refl : forall a, vertex_equal a a = true.
Hypothesis veq_sym :
  forall a b, vertex_equal a b = true -> vertex_equal b a = true.

Local Abbreviation vpos := (vertex_pos vertex_equal).
Local Abbreviation ins_vertex := (insert_vertex vertex_equal).
Implicit Types (g : Graph (V:=V)) (l : list (VertexNode (V:=V))).
Implicit Types (edge : edge_type (V:=V)).










(** X11. In an undirected graph built through the public interface lookup
    is symmetric: [findEdge] finds (a, b) exactly when it finds (b, a),
    and the two cursors dereference to tuples with swapped endpoints and
    one and the same weight. *)
Theorem undirected_lookup_symmetric (Weighted : bool) g edge :
  reachable vertex_equal intptr_of false Weighted g ->
  exists it it',
    findEdge vertex_equal g edge = Ok it /\
    findEdge vertex_equal g (mirror_edge edge) = Ok it' /\
    edge_at_end it' = edge_at_end it /\
    (edge_at_end it = false ->
     exists a b w,
       EdgeIter_deref Weighted g it = Ok (if Weighted then Edge3 a b w else Edge2 a b) /\
       EdgeIter_deref Weighted g it'
       = Ok (if Weighted then Edge3 b a w else Edge2 b a)).
Proof using veq_refl veq_sym.
  intros Hr.
  destruct (reachable_well_formed vertex_equal intptr_of veq_sym _ _ g Hr)
    as [_ [Hu [Hv Hm]]].
  specialize (Hm eq_refl).
  destruct (findEdge_spec vertex_equal veq_sym g edge) as [v [E Hptr]].
  destruct (findEdge_spec vertex_equal veq_sym g (mirror_edge edge)) as [v' [E' Hptr']].
  assert (get0 (mirror_edge edge) = get1 edge /\ get1 (mirror_edge edge) = get0 edge)
    as [M0 M1] by now destruct edge.
  rewrite M0, M1 in E', Hptr'.
  eexists _, _. split; [exact E|]. split; [exact E'|].
  assert (edge_at_end
            (mkEdgeIter v' (find_edge_ptr vertex_equal (m_vertex_node_list g)
                              (get1 edge) (get0 edge)))
          = edge_at_end
              (mkEdgeIter v (find_edge_ptr vertex_equal (m_vertex_node_list g)
                               (get0 edge) (get1 edge)))) as Hend.
  { unfold edge_at_end, find_edge_ptr. cbn [m_edge_node].
    destruct (vpos (get0 edge) (m_vertex_node_list g)) as [f|],
             (vpos (get1 edge) (m_vertex_node_list g)) as [t|]; try reflexivity.
    pose proof (linked_cursor (m_vertex_node_list g) f t) as Hft.
    pose proof (linked_cursor (m_vertex_node_list g) t f) as Htf.
    rewrite (linked_sym _ t f Hm) in Htf.
    destruct (edge_cursor (m_vertex_node_list g) f t) as [[]|],
             (edge_cursor (m_vertex_node_list g) t f) as [[]|]; cbn; congruence. }
  split; [exact Hend|]. intros Hne.
  destruct (findEdge_deref vertex_equal veq_sym Weighted g edge _ E Hne)
    as [f [t [n [m [e0 [k [_ [Hf [Ht [Hn [Hm' [He0 [_ [_ Hd]]]]]]]]]]]]]].
  rewrite <- Hend in Hne.
  destruct (findEdge_deref vertex_equal veq_sym Weighted g (mirror_edge edge) _
              E' Hne)
    as [f' [t' [n' [m' [e0' [k' [_ [Hf' [Ht' [Hn' [Hm'' [He0' [_ [_ Hd']]]]]]]]]]]]]].
  rewrite M0 in Hf'. rewrite M1 in Ht'.
  assert (f' = t) by congruence. assert (t' = f) by congruence. subst f' t'.
  assert (n' = m) by congruence. assert (m' = n) by congruence. subst n' m'.
  destruct (mirrored_Some _ _ _ _ Hm He0) as [e1 [He1 Hw]].
  assert (e1 = e0') by congruence. subst e1.
  exists (vertex n), (vertex m), (weight e0). split; [exact Hd|].
  rewrite Hd', Hw. reflexivity.
Qed.

End Structure.

(** * Further properties: directed graphs *)

Section DirectedRecords.

Context {V : Type}.
Variable vertex_equal : V -> V -> bool.
Variable intptr_of : V -> Z.

Hypothesis veq_refl : forall a, vertex_equal a a = true.
Hypothesis veq_sym :
  forall a b, vertex_equal a b = true -> vertex_equal b a = true.
Hypothesis veq_trans :
  forall a b c, vertex_equal a b = true -> vertex_equal b c = true ->
    vertex_equal a c = true.

Local Abbreviation vpos := (vertex_pos vertex_equal).
Local Abbreviation ins_vertex := (insert_vertex vertex_equal).
Local Abbreviation same := (same_ordered vertex_equal).
Local Abbreviation has := (has_edge vertex_equal).
Implicit Types (g : Graph (V:=V)) (l : list (VertexNode (V:=V))).
Implicit Types (e x : edge_type (V:=V)).

Lemma linked_valid l i j :
  targets_valid l -> linked l i j = true -> (i < length l)%nat /\ (j < length l)%nat.
Proof.
  unfold linked. intros Hv H.
  destruct (edge_between l i j) as [e|] eqn:E; [|discriminate H].
  destruct (edge_between_Some _ _ _ _ E) as [n [k [Hn [_ [He Hj]]]]].
  split; [eapply lookup_lt_Some; exact Hn|].
  destruct (Hv i n k e Hn He) as [t [m [Ht Hm]]].
  assert (t = j) by congruence. subst t. eapply lookup_lt_Some; exact Hm.
Qed.

(** Inserting a vertex does not change which edges [findEdge] finds. *)
Lemma has_edge_insert_vertex_valid l (v : V) x :
  targets_valid l -> has (ins_vertex v l).2 x = has l x.
Proof.
  intros Hv. rewrite !has_edge_linked.
  destruct (vpos (get0 x) l) as [i|] eqn:Ec.
  - rewrite (vertex_pos_insert_keep vertex_equal v l _ i Ec).
    destruct (vpos (get1 x) l) as [j|] eqn:Ed.
    + rewrite (vertex_pos_insert_keep vertex_equal v l _ j Ed).
      apply linked_insert_vertex.
    + destruct (vpos (get1 x) (ins_vertex v l).2) as [j|] eqn:Ed'; [|reflexivity].
      apply (vertex_pos_insert_new vertex_equal l v _ j Ed) in Ed'. subst j.
      rewrite linked_insert_vertex.
      destruct (linked l i (length l)) eqn:El; [|reflexivity].
      apply (linked_valid l _ _ Hv) in El. lia.
  - destruct (vpos (get0 x) (ins_vertex v l).2) as [i|] eqn:Ec'; [|reflexivity].
    apply (vertex_pos_insert_new vertex_equal l v _ i Ec) in Ec'. subst i.
    destruct (vpos (get1 x) (ins_vertex v l).2) as [j|]; [|reflexivity].
    rewrite linked_insert_vertex.
    destruct (linked l (length l) j) eqn:El; [|reflexivity].
    apply (linked_valid l _ _ Hv) in El. lia.
Qed.

Lemma linked_insert_edge Weighted f t w l i j :
  (f < length l)%nat ->
  linked (insert_edge Weighted f t w l) i j
  = linked l i j || (Nat.eqb i f && Nat.eqb j t).
Proof.
  intros Hf. unfold linked. rewrite edge_between_insert_edge by exact Hf.
  destruct (edge_between l f t) as [e|] eqn:Eft.
  - destruct (Nat.eqb_spec i f) as [->|], (Nat.eqb_spec j t) as [->|];
      cbn [andb]; rewrite ?orb_false_r; try reflexivity.
    now rewrite Eft.
  - destruct (Nat.eqb_spec i f) as [->|], (Nat.eqb_spec j t) as [->|];
      cbn [andb]; rewrite ?orb_false_r, ?orb_true_r; reflexivity.
Qed.

Lemma same_ordered_sym e x : same e x = true -> same x e = true.
Proof using veq_sym.
  unfold same_ordered. intros H. apply andb_true_iff in H as [H1 H2].
  apply andb_true_iff. auto.
Qed.

Lemma same_ordered_trans e x y : same e x = true -> same x y = true -> same e y = true.
Proof using veq_trans.
  unfold same_ordered. intros H1 H2.
  apply andb_true_iff in H1 as [H1a H1b]. apply andb_true_iff in H2 as [H2a H2b].
  apply andb_true_iff. split; eapply veq_trans; eauto.
Qed.

Lemma has_edge_same_ordered l e x : same e x = true -> has l e = has l x.
Proof using veq_sym veq_trans.
  intros H. rewrite !has_edge_linked. unfold same_ordered in H.
  apply andb_true_iff in H as [H1 H2].
  now rewrite (vertex_pos_compat vertex_equal veq_sym veq_trans _ _ l H1),
    (vertex_pos_compat vertex_equal veq_sym veq_trans _ _ l H2).
Qed.

(** Which edges [findEdge] finds once the record of [e] is there. *)
Lemma has_edge_insert_one Weighted f t w l e x :
  vpos (get0 e) l = Some f -> vpos (get1 e) l = Some t ->
  has (insert_edge Weighted f t w l) x = has l x || same x e.
Proof using veq_sym veq_trans.
  intros Hf Ht. rewrite !has_edge_linked, !vertex_pos_insert_edge.
  unfold same_ordered.
  destruct (vpos (get0 x) l) as [i|] eqn:Ec.
  - destruct (vpos (get1 x) l) as [j|] eqn:Ed.
    + rewrite linked_insert_edge by (eapply first_index_lt; exact Hf).
      now rewrite (vertex_pos_eqb vertex_equal veq_sym veq_trans l _ _ i f Ec Hf),
        (vertex_pos_eqb vertex_equal veq_sym veq_trans l _ _ j t Ed Ht).
    + rewrite (vertex_pos_None_neq vertex_equal veq_sym veq_trans l _ _ t Ed Ht).
      now rewrite andb_false_r.
  - now rewrite (vertex_pos_None_neq vertex_equal veq_sym veq_trans l _ _ f Ec Hf).
Qed.

(** One call of the directed [addEdge]. *)
Lemma addEdge_directed_step Weighted e g :
  targets_valid (m_vertex_node_list g) ->
  exists r g',
    addEdge vertex_equal intptr_of true Weighted e g = Ok (r, g') /\
    targets_valid (m_vertex_node_list g') /\
    (forall x, has (m_vertex_node_list g') x = has (m_vertex_node_list g) x || same x e) /\
    r.2 = negb (has (m_vertex_node_list g) e) /\
    edge_records g'
    = (edge_records g + if has (m_vertex_node_list g) e then 0 else 1)%nat.
Proof using veq_refl veq_sym veq_trans.
  intros Hv.
  destruct (addEdge_spec vertex_equal intptr_of veq_sym true Weighted e g)
    as [n [Hn E]].
  eexists _, _. split; [exact E|].
  revert Hn. cbn [m_vertex_node_list snd].
  set (l := m_vertex_node_list g) in *.
  set (l1 := (ins_vertex (get0 e) l).2).
  set (f := (ins_vertex (get0 e) l).1).
  set (l2 := (ins_vertex (get1 e) l1).2).
  set (t := (ins_vertex (get1 e) l1).1).
  assert (vpos (get0 e) l2 = Some f) as Hpf
    by (apply vertex_pos_insert_keep, (insert_vertex_pos vertex_equal veq_refl)).
  assert (vpos (get1 e) l2 = Some t) as Hpt
    by apply (insert_vertex_pos vertex_equal veq_refl).
  assert (targets_valid l1) as Hv1 by now apply targets_valid_insert_vertex.
  assert (targets_valid l2) as Hv2 by now apply targets_valid_insert_vertex.
  assert (forall x, has l2 x = has l x) as Hkeep.
  { intros x. subst l2. rewrite has_edge_insert_vertex_valid by exact Hv1.
    now apply has_edge_insert_vertex_valid. }
  intros Hn. split; [|split; [|split]].
  - apply targets_valid_insert_edge; [eapply first_index_lt; exact Hpt | exact Hv2].
  - intros x. rewrite (has_edge_insert_one Weighted f t _ l2 e x Hpf Hpt).
    now rewrite Hkeep.
  - rewrite <- (Hkeep e), (has_edge_linked vertex_equal l2 e), Hpf, Hpt.
    unfold linked, edge_between. rewrite Hn.
    destruct (edge_pos (Some t) (edge_list n)) as [k|] eqn:Hk; [|reflexivity].
    now destruct (edge_pos_Some _ _ _ Hk) as [e0 [-> _]].
  - rewrite (edge_records_insert_edge Weighted f t _ l2 _ 0)
      by (eapply first_index_lt; exact Hpf).
    rewrite <- (Hkeep e), (has_edge_linked vertex_equal l2 e), Hpf, Hpt.
    unfold linked.
    subst l2. rewrite (edge_records_insert_vertex vertex_equal _ l1 0 0).
    subst l1. rewrite (edge_records_insert_vertex vertex_equal _ l 0 (m_size g)).
    destruct g. cbn [m_vertex_node_list] in *.
    now destruct (edge_between _ f t).
Qed.

Lemma addEdge_list_directed_records Weighted (edges : list edge_type) g :
  targets_valid (m_vertex_node_list g) ->
  exists g',
    addEdge_list vertex_equal intptr_of true Weighted edges g = Ok (tt, g') /\
    targets_valid (m_vertex_node_list g') /\
    (forall x, has (m_vertex_node_list g') x
               = has (m_vertex_node_list g) x || existsb (same x) edges) /\
    edge_records g'
    = (edge_records g
       + count_new (fun _ => 1%nat) same (has (m_vertex_node_list g)) edges)%nat.
Proof using veq_refl veq_sym veq_trans.
  revert g. induction edges as [|e edges IH]; intros g Hv.
  - exists g. cbn. repeat split; [exact Hv | | lia].
    intros x. now rewrite orb_false_r.
  - destruct (addEdge_directed_step Weighted e g Hv)
      as [r [g1 [E [Hv1 [Hhas [_ Hrec]]]]]].
    destruct (IH g1 Hv1) as [g' [E' [Hv' [Hhas' Hrec']]]].
    exists g'. cbn [addEdge_list]. rewrite E. cbn [rbind].
    destruct r as [it ins]. split; [exact E'|]. split; [exact Hv'|]. split.
    { intros x. rewrite Hhas', Hhas. cbn [existsb]. now rewrite orb_assoc. }
    rewrite Hrec', Hrec. cbn [count_new].
    destruct (has (m_vertex_node_list g) e) eqn:He; cbn [orb].
    + rewrite (count_new_ext same (fun _ => 1%nat)
                 (has (m_vertex_node_list g1)) (has (m_vertex_node_list g)));
        [lia|].
      intros x. rewrite Hhas. destruct (same x e) eqn:Hs; [|apply orb_false_r].
      rewrite (has_edge_same_ordered _ x e Hs), He. reflexivity.
    + rewrite (count_new_extend same (fun _ => 1%nat)
                 same_ordered_sym same_ordered_trans (fun _ _ _ => eq_refl)
                 (has (m_vertex_node_list g)) (has (m_vertex_node_list g1)) e edges
                 (fun x y => has_edge_same_ordered _ x y) Hhas He).
      destruct (existsb (same e) edges); lia.
Qed.

Lemma addVertex_list_directed_records (values : list V) g :
  targets_valid (m_vertex_node_list g) ->
  exists g',
    addVertex_list vertex_equal values g = Ok (tt, g') /\
    targets_valid (m_vertex_node_list g') /\
    (forall x, has (m_vertex_node_list g') x = has (m_vertex_node_list g) x) /\
    edge_records g' = edge_records g.
Proof using veq_sym.
  revert g. induction values as [|v values IH]; intros g Hv.
  - exists g. cbn. auto.
  - cbn [addVertex_list]. rewrite (addVertex_spec vertex_equal veq_sym). cbn [rbind].
    set (g1 := mkGraph _ _).
    assert (targets_valid (m_vertex_node_list g1)) as Hv1
      by now apply targets_valid_insert_vertex.
    destruct (IH g1 Hv1) as [g' [E [Hv' [Hhas Hrec]]]].
    exists g'. split; [exact E|]. split; [exact Hv'|]. split.
    + intros x. rewrite Hhas. subst g1. cbn [m_vertex_node_list].
      now apply has_edge_insert_vertex_valid.
    + rewrite Hrec. subst g1.
      rewrite (edge_records_insert_vertex vertex_equal v _ _ (m_size g)).
      now destruct g.
Qed.

(** One inserting operation on a directed graph. *)
Lemma run_op_directed_records Weighted (o : public_op) g :
  is_insertion o = true ->
  targets_valid (m_vertex_node_list g) ->
  exists g',
    run_op vertex_equal intptr_of true Weighted o g = Ok (tt, g') /\
    targets_valid (m_vertex_node_list g') /\
    (forall x, has (m_vertex_node_list g') x
               = has (m_vertex_node_list g) x || existsb (same x) (inserted_edges_of o)) /\
    edge_records g'
    = (edge_records g
       + count_new (fun _ => 1%nat) same
           (has (m_vertex_node_list g)) (inserted_edges_of o))%nat.
Proof using veq_refl veq_sym veq_trans.
  intros Hins Hv.
  destruct o as [value|values|edge|edges|rhs|]; try discriminate Hins;
    cbn [run_op inserted_edges_of].
  - destruct (addVertex_list_directed_records [value] g Hv)
      as [g' [E [Hv' [Hhas Hrec]]]].
    cbn [addVertex_list] in E.
    destruct (addVertex vertex_equal value g) as [[r1 g1]| |]; try discriminate E.
    cbn [rbind] in *. inversion E; subst g1. exists g'.
    repeat split; [exact Hv' | | cbn; lia].
    intros x. rewrite Hhas. cbn. now rewrite orb_false_r.
  - destruct (addVertex_list_directed_records values g Hv)
      as [g' [E [Hv' [Hhas Hrec]]]].
    exists g'. repeat split; [exact E | exact Hv' | | cbn; lia].
    intros x. rewrite Hhas. cbn. now rewrite orb_false_r.
  - destruct (addEdge_list_directed_records Weighted [edge] g Hv)
      as [g' [E [Hv' [Hhas Hrec]]]].
    cbn [addEdge_list] in E.
    destruct (addEdge vertex_equal intptr_of true Weighted edge g)
      as [[r1 g1]| |]; try discriminate E.
    cbn [rbind] in *. inversion E; subst g1. exists g'.
    repeat split; assumption.
  - apply (addEdge_list_directed_records Weighted edges g Hv).
Qed.

Lemma run_ops_directed_records Weighted (ops : list public_op) g :
  forallb is_insertion ops = true ->
  targets_valid (m_vertex_node_list g) ->
  exists g',
    run_ops vertex_equal intptr_of true Weighted ops g = Ok (tt, g') /\
    (forall x, has (m_vertex_node_list g') x
               = has (m_vertex_node_list g) x || existsb (same x) (inserted_edges ops)) /\
    edge_records g'
    = (edge_records g
       + count_new (fun _ => 1%nat) same
           (has (m_vertex_node_list g)) (inserted_edges ops))%nat.
Proof using veq_refl veq_sym veq_trans.
  revert g. induction ops as [|o ops IH]; intros g Hins Hv.
  - exists g. cbn. split; [reflexivity|]. split; [|lia].
    intros x. now rewrite orb_false_r.
  - cbn [forallb] in Hins. apply andb_true_iff in Hins as [Ho Hins].
    destruct (run_op_directed_records Weighted o g Ho Hv)
      as [g1 [E [Hv1 [Hhas Hrec]]]].
    destruct (IH g1 Hins Hv1) as [g' [E' [Hhas' Hrec']]].
    exists g'. cbn [run_ops]. rewrite E. cbn [rbind]. split; [exact E'|].
    unfold inserted_edges. cbn [flat_map]. fold (inserted_edges ops).
    split; [intros x; now rewrite Hhas', Hhas, existsb_app, orb_assoc|].
    rewrite (count_new_app same (fun _ => 1%nat)
               same_ordered_sym same_ordered_trans (fun _ _ _ => eq_refl)
               (has (m_vertex_node_list g)) (has (m_vertex_node_list g1))
               (inserted_edges_of o) (inserted_edges ops)
               (fun x y => has_edge_same_ordered _ x y) Hhas).
    lia.
Qed.

(** What [findEdge] reports, in terms of the edges it finds. *)
Lemma findEdge_has g x :
  exists it, findEdge vertex_equal g x = Ok it /\
             edge_at_end it = negb (has (m_vertex_node_list g) x).
Proof using veq_sym.
  destruct (findEdge_spec vertex_equal veq_sym g x) as [v [E _]].
  eexists. split; [exact E|]. unfold has_edge, edge_at_end.
  now destruct (find_edge_ptr _ _ _ _) as [[]|].
Qed.

(** X12. A directed [addEdge((a, b))] adds one direction only: afterwards
    [findEdge] finds what it found before and the tuples with endpoints
    equal to a and b in that order, nothing else; so for a different from
    b the reverse edge (b, a) is found after the call exactly when it was
    found before.  The call adds one edge record if [findEdge] did not
    find (a, b) before, and none otherwise. *)
Theorem directed_addEdge_one_direction (Weighted : bool) g e :
  targets_valid (m_vertex_node_list g) ->
  exists it inserted g',
    addEdge vertex_equal intptr_of true Weighted e g = Ok (it, inserted, g') /\
    (forall x, exists before after,
       findEdge vertex_equal g x = Ok before /\
       findEdge vertex_equal g' x = Ok after /\
       edge_at_end after = edge_at_end before && negb (same x e)) /\
    (vertex_equal (get0 e) (get1 e) = false ->
     exists before after,
       findEdge vertex_equal g (mirror_edge e) = Ok before /\
       findEdge vertex_equal g' (mirror_edge e) = Ok after /\
       edge_at_end after = edge_at_end before) /\
    edge_records g' = (edge_records g + if inserted then 1 else 0)%nat /\
    (exists before, findEdge vertex_equal g e = Ok before /\
                    inserted = edge_at_end before).
Proof using veq_refl veq_sym veq_trans.
  intros Hv.
  destruct (addEdge_directed_step Weighted e g Hv)
    as [[it ins] [g' [E [_ [Hhas [Hins Hrec]]]]]].
  cbn [snd] in Hins.
  exists it, ins, g'. split; [exact E|].
  assert (forall x, exists before after,
            findEdge vertex_equal g x = Ok before /\
            findEdge vertex_equal g' x = Ok after /\
            edge_at_end after = edge_at_end before && negb (same x e)) as Hfind.
  { intros x. destruct (findEdge_has g x) as [b [Eb Hb]].
    destruct (findEdge_has g' x) as [a [Ea Ha]].
    exists b, a. split; [exact Eb|]. split; [exact Ea|].
    rewrite Ha, Hb, Hhas. apply negb_orb. }
  split; [exact Hfind|]. split.
  { intros Hne. destruct (Hfind (mirror_edge e)) as [b [a [Eb [Ea Hba]]]].
    exists b, a. split; [exact Eb|]. split; [exact Ea|]. rewrite Hba.
    unfold same_ordered.
    assert (get0 (mirror_edge e) = get1 e /\ get1 (mirror_edge e) = get0 e)
      as [-> ->] by now destruct e.
    rewrite Hne, andb_false_r. cbn. apply andb_true_r. }
  destruct (findEdge_has g e) as [b [Eb Hb]].
  split; [|exists b; split; [exact Eb | congruence]]. rewrite Hrec, Hins.
  now destruct (has (m_vertex_node_list g) e).
Qed.

(** X13. A directed graph built from a sequence of edge insertions stores
    one edge record for every distinct ordered pair of endpoints among
    the inserted tuples, and [findEdge] finds a tuple exactly when its
    endpoints equal, in order, those of an inserted one.  This holds for
    the constructor from an edge sequence and for every sequence of
    inserting operations, single or batch, on vertices and on edges. *)
Theorem directed_edge_records (Weighted : bool) :
  (forall edges : list edge_type,
     exists g,
       Graph_ctor_list vertex_equal intptr_of true Weighted edges = Ok g /\
       edge_records g = count_distinct same edges /\
       (forall x, exists it,
          findEdge vertex_equal g x = Ok it /\
          edge_at_end it = negb (existsb (same x) edges))) /\
  (forall ops : list public_op,
     forallb is_insertion ops = true ->
     exists g,
       run_ops vertex_equal intptr_of true Weighted ops Graph_ctor = Ok (tt, g) /\
       edge_records g = count_distinct same (inserted_edges ops) /\
       (forall x, exists it,
          findEdge vertex_equal g x = Ok it /\
          edge_at_end it = negb (existsb (same x) (inserted_edges ops)))).
Proof using veq_refl veq_sym veq_trans.
  assert (targets_valid (m_vertex_node_list (Graph_ctor (V:=V)))) as Hv0
    by (intros i n k e Hn; discriminate Hn).
  assert (forall edges : list edge_type,
            count_new (fun _ => 1%nat) same
              (has (m_vertex_node_list (Graph_ctor (V:=V)))) edges
            = count_distinct same edges) as Hcount.
  { intros edges. rewrite (count_new_ext same _ _ (fun _ => false)) by reflexivity.
    apply count_new_distinct. }
  assert (edge_records (Graph_ctor (V:=V)) = 0%nat) as Hrec0 by reflexivity.
  assert (forall x, has (m_vertex_node_list (Graph_ctor (V:=V))) x = false) as Hhas0
    by reflexivity.
  split.
  - intros edges.
    destruct (addEdge_list_directed_records Weighted edges Graph_ctor Hv0)
      as [g [E [_ [Hhas Hrec]]]].
    exists g. unfold Graph_ctor_list. rewrite E. cbn [rbind].
    rewrite Hcount, Hrec0 in Hrec. split; [reflexivity|]. split; [exact Hrec|].
    intros x. destruct (findEdge_has g x) as [it [Eit Hit]].
    exists it. split; [exact Eit|]. now rewrite Hit, Hhas, Hhas0.
  - intros ops Hins.
    destruct (run_ops_directed_records Weighted ops Graph_ctor Hins Hv0)
      as [g [E [Hhas Hrec]]].
    exists g. split; [exact E|]. rewrite Hcount, Hrec0 in Hrec. split; [exact Hrec|].
    intros x. destruct (findEdge_has g x) as [it [Eit Hit]].
    exists it. split; [exact Eit|]. now rewrite Hit, Hhas, Hhas0.
Qed.

End DirectedRecords.

(** * Further properties: lookup in undirected graphs *)

Section UndirectedLookup.

Context {V : Type}.
Variable vertex_equal : V -> V -> bool.
Variable intptr_of : V -> Z.

Hypothesis veq_refl : forall a, vertex_equal a a = true.
Hypothesis veq_sym :
  forall a b, vertex_equal a b = true -> vertex_equal b a = true.
Hypothesis veq_trans :
  forall a b c, vertex_equal a b = true -> vertex_equal b c = true ->
    vertex_equal a c = true.

Local Abbreviation same := (same_edge vertex_equal).
Local Abbreviation has := (has_edge vertex_equal).
Implicit Types (g : Graph (V:=V)) (l : list (VertexNode (V:=V))).
Implicit Types (e x : edge_type (V:=V)).

Lemma run_ops_undirected_has Weighted (ops : list public_op) g :
  forallb is_insertion ops = true ->
  mirrored (m_vertex_node_list g) ->
  exists g',
    run_ops vertex_equal intptr_of false Weighted ops g = Ok (tt, g') /\
    (forall x, has (m_vertex_node_list g') x
               = has (m_vertex_node_list g) x || existsb (same x) (inserted_edges ops)).
Proof using veq_refl veq_sym veq_trans.
  revert g. induction ops as [|o ops IH]; intros g Hins Hm.
  - exists g. cbn. split; [reflexivity|]. intros x. now rewrite orb_false_r.
  - cbn [forallb] in Hins. apply andb_true_iff in Hins as [Ho Hins].
    destruct (run_op_undirected_records vertex_equal intptr_of veq_refl veq_sym
                veq_trans Weighted o g Ho Hm) as [g1 [E [Hm1 [Hhas _]]]].
    destruct (IH g1 Hins Hm1) as [g' [E' Hhas']].
    exists g'. cbn [run_ops]. rewrite E. cbn [rbind]. split; [exact E'|].
    unfold inserted_edges. cbn [flat_map]. fold (inserted_edges ops).
    intros x. now rewrite Hhas', Hhas, existsb_app, orb_assoc.
Qed.

(** X14. In an undirected graph built from a sequence of insertions
    [findEdge] finds a tuple exactly when its endpoints equal, in either
    order, those of an inserted one: for the constructor from an edge
    sequence and for every sequence of inserting operations. *)
Theorem undirected_lookup_complete (Weighted : bool) :
  (forall (edges : list edge_type) x,
     exists g it,
       Graph_ctor_list vertex_equal intptr_of false Weighted edges = Ok g /\
       findEdge vertex_equal g x = Ok it /\
       edge_at_end it = negb (existsb (same x) edges)) /\
  (forall (ops : list public_op) x,
     forallb is_insertion ops = true ->
     exists g it,
       run_ops vertex_equal intptr_of false Weighted ops Graph_ctor = Ok (tt, g) /\
       findEdge vertex_equal g x = Ok it /\
       edge_at_end it = negb (existsb (same x) (inserted_edges ops))).
Proof using veq_refl veq_sym veq_trans.
  assert (mirrored (m_vertex_node_list (Graph_ctor (V:=V)))) as Hm0
    by (intros i j; reflexivity).
  assert (forall x, has (m_vertex_node_list (Graph_ctor (V:=V))) x = false) as Hhas0
    by reflexivity.
  split.
  - intros edges x.
    destruct (addEdge_list_undirected_records vertex_equal intptr_of veq_refl veq_sym
                veq_trans Weighted edges Graph_ctor Hm0) as [g [E [_ [Hhas _]]]].
    destruct (findEdge_has vertex_equal veq_sym g x) as [it [Eit Hit]].
    exists g, it. unfold Graph_ctor_list. rewrite E. cbn [rbind].
    split; [reflexivity|]. split; [exact Eit|]. now rewrite Hit, Hhas, Hhas0.
  - intros ops x Hins.
    destruct (run_ops_undirected_has Weighted ops Graph_ctor Hins Hm0)
      as [g [E Hhas]].
    destruct (findEdge_has vertex_equal veq_sym g x) as [it [Eit Hit]].
    exists g, it. split; [exact E|]. split; [exact Eit|].
    now rewrite Hit, Hhas, Hhas0.
Qed.

End UndirectedLookup.

(** * Further properties: the vertices that edges bring in, and the copy *)

Lemma first_occurrences_app {A : Type} (same : A -> A -> bool) (seen a b : list A) :
  first_occurrences same seen (a ++ b)
  = first_occurrences same seen a
    ++ first_occurrences same (seen ++ first_occurrences same seen a) b.
Proof.
  revert seen. induction a as [|x a IH]; intros seen; cbn [first_occurrences app].
  - now rewrite app_nil_r.
  - destruct (existsb (same x) seen); [apply IH|].
    rewrite IH. cbn [app]. now rewrite <- app_assoc.
Qed.




Lemma existsb_first_occurrences {A : Type} (same : A -> A -> bool)
  (same_sym : forall x y, same x y = true -> same y x = true)
  (same_trans : forall x y z, same x y = true -> same y z = true -> same x z = true)
  (y : A) (seen l : list A) :
  existsb (same y) (seen ++ first_occurrences same seen l)
  = existsb (same y) (seen ++ l).
Proof.
  revert seen. induction l as [|x l IH]; intros seen; cbn [first_occurrences].
  - reflexivity.
  - destruct (existsb (same x) seen) eqn:Hx.
    + rewrite IH, !existsb_app. cbn [existsb].
      destruct (same y x) eqn:Hyx; [|reflexivity].
      rewrite (existsb_same_compat same same_sym same_trans y x seen Hyx), Hx.
      reflexivity.
    + change (x :: first_occurrences same (seen ++ [x]) l)
        with ([x] ++ first_occurrences same (seen ++ [x]) l).
      rewrite app_assoc, IH, <- app_assoc. reflexivity.
Qed.

Section EdgeVertices.

Context {V : Type}.
Variable vertex_equal : V -> V -> bool.
Variable intptr_of : V -> Z.

Hypothesis veq_refl : forall a, vertex_equal a a = true.
Hypothesis veq_sym :
  forall a b, vertex_equal a b = true -> vertex_equal b a = true.
Hypothesis veq_trans :
  forall a b c, vertex_equal a b = true -> vertex_equal b c = true ->
    vertex_equal a c = true.

Local Abbreviation vpos := (vertex_pos vertex_equal).
Local Abbreviation ins_vertex := (insert_vertex vertex_equal).
Local Abbreviation has := (has_edge vertex_equal).
Implicit Types (g src : Graph (V:=V)) (l : list (VertexNode (V:=V))).
Implicit Types (x : edge_type (V:=V)).

Lemma map_vertex_insert l f n n' :
  l !! f = Some n -> vertex n' = vertex n -> map vertex (<[f := n']> l) = map vertex l.
Proof.
  revert f. induction l as [|m l IH]; intros f Hf Hv; [reflexivity|].
  destruct f as [|f]; simpl in *.
  - inversion Hf; subst m. now rewrite Hv.
  - now rewrite (IH f Hf Hv).
Qed.

Lemma map_vertex_insert_edge Weighted f t w l :
  map vertex (insert_edge Weighted f t w l) = map vertex l.
Proof.
  unfold insert_edge. destruct (l !! f) as [n|] eqn:Hf; [|reflexivity].
  destruct (edge_pos (Some t) (edge_list n)); [reflexivity|].
  now apply (map_vertex_insert l f n).
Qed.

Lemma map_vertex_insert_vertex (v : V) l :
  map vertex (ins_vertex v l).2
  = map vertex l ++ first_occurrences vertex_equal (map vertex l) [v].
Proof.
  cbn [first_occurrences]. rewrite <- has_vertex_values.
  unfold has_vertex, insert_vertex. destruct (vpos v l); cbn [snd].
  - now rewrite app_nil_r.
  - now rewrite map_app.
Qed.

Lemma addEdge_values Directed Weighted e g :
  exists r g',
    addEdge vertex_equal intptr_of Directed Weighted e g = Ok (r, g') /\
    map vertex (m_vertex_node_list g')
    = map vertex (m_vertex_node_list g)
      ++ first_occurrences vertex_equal (map vertex (m_vertex_node_list g))
           [get0 e; get1 e].
Proof using veq_sym.
  destruct (addEdge_spec vertex_equal intptr_of veq_sym Directed Weighted e g)
    as [n [_ E]].
  eexists _, _. split; [exact E|]. cbn [m_vertex_node_list].
  rewrite map_vertex_insert_edge.
  assert (forall l' : list (VertexNode (V:=V)),
            map vertex (if Directed then l'
                        else insert_edge Weighted
                               (ins_vertex (get1 e)
                                  (ins_vertex (get0 e) (m_vertex_node_list g)).2).1
                               (ins_vertex (get0 e) (m_vertex_node_list g)).1
                               (int_of_intptr (get_last_intptr intptr_of e)) l')
            = map vertex l') as ->
    by (intros l'; destruct Directed; [reflexivity | apply map_vertex_insert_edge]).
  rewrite !map_vertex_insert_vertex.
  change [get0 e; get1 e] with ([get0 e] ++ [get1 e]).
  now rewrite first_occurrences_app, app_assoc.
Qed.

Lemma addEdge_list_values Directed Weighted (edges : list edge_type) g :
  exists g',
    addEdge_list vertex_equal intptr_of Directed Weighted edges g = Ok (tt, g') /\
    map vertex (m_vertex_node_list g')
    = map vertex (m_vertex_node_list g)
      ++ first_occurrences vertex_equal (map vertex (m_vertex_node_list g))
           (endpoints edges).
Proof using veq_sym.
  revert g. induction edges as [|e edges IH]; intros g.
  - exists g. cbn. now rewrite app_nil_r.
  - destruct (addEdge_values Directed Weighted e g) as [r [g1 [E Hv]]].
    destruct (IH g1) as [g' [E' Hv']].
    exists g'. cbn [addEdge_list]. rewrite E. cbn [rbind].
    split; [exact E'|]. rewrite Hv', Hv.
    change (endpoints (e :: edges)) with ([get0 e; get1 e] ++ endpoints edges).
    now rewrite first_occurrences_app, app_assoc.
Qed.

Lemma existsb_endpoints (p : V -> bool) (edges : list edge_type) :
  existsb p (endpoints edges) = existsb (fun e => p (get0 e) || p (get1 e)) edges.
Proof.
  induction edges as [|e edges IH]; [reflexivity|].
  change (endpoints (e :: edges)) with ([get0 e; get1 e] ++ endpoints edges).
  rewrite existsb_app, IH. cbn [existsb]. now rewrite orb_false_r.
Qed.

Lemma findVertex_has g (y : V) :
  exists it, findVertex vertex_equal g y = Ok it /\
             vertex_at_end it = negb (has_vertex vertex_equal (m_vertex_node_list g) y).
Proof using veq_sym.
  rewrite (findVertex_spec vertex_equal veq_sym). eexists. split; [reflexivity|].
  unfold has_vertex, vertex_at_end.
  now destruct (vpos y (m_vertex_node_list g)).
Qed.

(** X15. The graph constructed from a sequence of edge tuples holds as
    vertices the endpoints of the tuples, each once, in the order of
    their first appearance (source before destination): the vertex
    traversal yields exactly that sequence, the count field tells its
    length, and [findVertex] finds a value exactly when it equals an
    endpoint of one of the tuples. *)
Theorem vertices_of_edge_sequence (Directed Weighted : bool)
  (edges : list edge_type) fuel :
  (2 * length edges <= fuel)%nat ->
  exists g,
    Graph_ctor_list vertex_equal intptr_of Directed Weighted edges = Ok g /\
    collect_vertices fuel g (vertex_begin g)
    = Some (Ok (first_occurrences vertex_equal [] (endpoints edges))) /\
    m_size g
    = Z.of_nat (length (first_occurrences vertex_equal [] (endpoints edges)))
      mod size_type_modulus /\
    (forall y, exists it,
       findVertex vertex_equal g y = Ok it /\
       vertex_at_end it = negb (existsb (touches vertex_equal y) edges)).
Proof using veq_sym veq_trans.
  intros Hfuel.
  destruct (addEdge_list_values Directed Weighted edges Graph_ctor) as [g [E Hv]].
  cbn [Graph_ctor m_vertex_node_list map app] in Hv.
  exists g. unfold Graph_ctor_list. rewrite E. cbn [rbind].
  split; [reflexivity|].
  assert (forall es : list (edge_type (V:=V)),
            length (endpoints es) = (2 * length es)%nat) as Hlen.
  { induction es as [|e es IH]; [reflexivity|].
    change (endpoints (e :: es)) with ([get0 e; get1 e] ++ endpoints es).
    rewrite length_app, IH. cbn [length]. lia. }
  specialize (Hlen edges).
  split; [|split].
  - rewrite <- Hv, vertex_begin_cursor.
    rewrite collect_vertices_from; [now rewrite drop_0|].
    rewrite <- (length_map vertex), Hv.
    pose proof (first_occurrences_length vertex_equal [] (endpoints edges)). lia.
  - rewrite <- Hv, length_map.
    assert (size_rep (Graph_ctor (V:=V))) as H0 by reflexivity.
    apply (addEdge_list_size_rep vertex_equal intptr_of veq_sym _ _ _ _ _ _ H0 E).
  - intros y. destruct (findVertex_has g y) as [it [Eit Hit]].
    exists it. split; [exact Eit|]. rewrite Hit, has_vertex_values, Hv. f_equal.
    rewrite <- (existsb_endpoints (vertex_equal y)).
    apply (existsb_first_occurrences vertex_equal veq_sym veq_trans y []).
Qed.






End EdgeVertices.

(** * The further properties on the sample graphs *)

Lemma sample_weighted_targets_valid : targets_valid (m_vertex_node_list sample_weighted).
Proof.
  intros [|[|i]] n k e Hn He; try discriminate Hn; inversion Hn; subst n;
    destruct k as [|k]; try discriminate He; inversion He; subst e;
    eexists _, _; split; reflexivity.
Qed.

Lemma sample_isolated_targets_valid : targets_valid (m_vertex_node_list sample_isolated).
Proof.
  intros [|[|[|i]]] n k e Hn He; try discriminate Hn; inversion Hn; subst n;
    destruct k as [|k]; try discriminate He; inversion He; subst e;
    eexists _, _; split; reflexivity.
Qed.

Lemma sample_star_reachable : reachable Z.eqb intptr_of_int false true sample_star.
Proof.
  apply (reachable_op _ _ _ _ (op_addEdge_list [Edge3 1 2 5; Edge3 1 3 7]) Graph_ctor);
    [constructor | reflexivity].
Qed.


Lemma vertex_traversal_witness :
  exists g,
    addVertex_list Z.eqb [3; 1; 3; 2; 1] Graph_ctor = Ok (tt, g) /\
    collect_vertices 5 g (vertex_begin g) = Some (Ok [3; 1; 2]).
Proof.
  destruct (vertex_traversal_in_insertion_order Z.eqb Zeqb_sym) as [_ H].
  destruct (H [3; 1; 3; 2; 1] 5%nat) as [g [E Hc]]; [cbn; lia|].
  exists g. split; [exact E | exact Hc].
Defined.

Lemma edge_traversal_witness :
  exists e0,
    getEdges sample_star (mkVertexIter (Some 0%nat)) = Ok e0 /\
    collect_edges true 2 sample_star e0 = Some (Ok [Edge3 1 2 5; Edge3 1 3 7]).
Proof.
  destruct (edge_traversal_of_vertex true sample_star 0
              (mkVertexNode 1 [mkEdgeNode 5 (Some 1%nat); mkEdgeNode 7 (Some 2%nat)]) 2)
    as (e0 & ts & Hg & Hc & Hts & _).
  - intros [|[|[|i]]] n k e Hn He; try discriminate Hn; inversion Hn; subst n;
      destruct k as [|[|k]]; try discriminate He; inversion He; subst e;
      eexists _, _; split; reflexivity.
  - reflexivity.
  - cbn; lia.
  - vm_compute in Hts. inversion Hts; subst. exists e0. split; [exact Hg | exact Hc].
Defined.

Lemma operator_assign_loops_witness :
  operator_assign_loops Z.eqb intptr_of_int true false 3 1
    (Other sample_isolated) sample_vertices
  = Some (Ok (tt, mkGraph [mkVertexNode 1 [mkEdgeNode 0 (Some 1%nat)];
                           mkVertexNode 2 []] 2)).
Proof.
  destruct (operator_assign_loops_terminate Z.eqb intptr_of_int true false) as [H _].
  rewrite (H sample_isolated sample_vertices 3%nat 1%nat).
  - reflexivity.
  - cbn; lia.
  - intros [|[|[|j]]] n Hn; try discriminate Hn; inversion Hn; cbn; lia.
Defined.

Lemma copy_is_reinsertion_witness :
  exists copy,
    Graph_ctor_list Z.eqb intptr_of_int true false [Edge2 1 2] = Ok copy /\
    Graph_ctor_copy Z.eqb intptr_of_int true false sample_isolated = Ok copy.
Proof.
  destruct (copy_is_reinsertion Z.eqb intptr_of_int Zeqb_sym true false sample_isolated
              sample_isolated_targets_valid) as (ts & copy & Hts & Hl & Hc & _).
  vm_compute in Hts. inversion Hts; subst.
  exists copy. split; [exact Hl | exact Hc].
Defined.

Lemma findVertex_first_equal_witness :
  exists it,
    findVertex Z.eqb sample_vertices 2 = Ok it /\
    VertexIter_deref sample_vertices it = Ok 2.
Proof.
  destruct (findVertex_first_equal Z.eqb Zeqb_sym Zeqb_trans sample_vertices 2)
    as (it & E & _ & _ & H).
  destruct (H 1%nat (mkVertexNode 2 []) eq_refl eq_refl)
    as (j & m & _ & _ & _ & Hv & Hd & _).
  apply Z.eqb_eq in Hv. rewrite Hv in Hd. exists it. split; [exact E | exact Hd].
Defined.

Lemma addVertex_then_findVertex_witness :
  exists it g',
    addVertex Z.eqb 3 sample_vertices = Ok (it, true, g') /\
    findVertex Z.eqb g' 3 = Ok it /\
    VertexIter_deref g' it = Ok 3.
Proof.
  destruct (addVertex_then_findVertex Z.eqb Z.eqb_refl Zeqb_sym Zeqb_trans
              sample_vertices 3) as (it & ins & g' & x & E & F & _ & D & _ & Hins & _).
  assert (ins = true) as Ht by (pose proof E as E'; vm_compute in E'; now inversion E').
  subst ins. rewrite (Hins eq_refl) in D.
  exists it, g'. split; [exact E|]. split; [exact F | exact D].
Defined.

Lemma findEdge_sound_witness :
  exists it w,
    findEdge Z.eqb sample_weighted (Edge3 2 1 0) = Ok it /\
    EdgeIter_deref true sample_weighted it = Ok (Edge3 2 1 w).
Proof.
  destruct (findEdge_sound Z.eqb Zeqb_sym true sample_weighted (Edge3 2 1 0))
    as (it & E & _ & H).
  assert (edge_at_end it = false) as Hend
    by (pose proof E as E'; vm_compute in E'; now inversion E').
  destruct (H Hend) as (a' & b' & w' & D & Ha & Hb & _).
  apply Z.eqb_eq in Ha, Hb. cbn in Ha, Hb. subst a' b'.
  exists it, w'. split; [exact E | exact D].
Defined.

Lemma addEdge_then_findEdge_witness :
  exists it inserted g' a b w,
    addEdge Z.eqb intptr_of_int false true (Edge3 2 3 4) sample_weighted
    = Ok (it, inserted, g') /\
    findEdge Z.eqb g' (Edge3 2 3 4) = Ok it /\
    EdgeIter_deref true g' it = Ok (Edge3 a b w).
Proof.
  destruct (addEdge_then_findEdge_deref Z.eqb intptr_of_int Z.eqb_refl Zeqb_sym
              Zeqb_trans false true sample_weighted (Edge3 2 3 4))
    as (it & ins & g' & a & b & w & E & F & _ & D & _).
  exists it, ins, g', a, b, w. split; [exact E|]. split; [exact F | exact D].
Defined.

Lemma insertion_keeps_cursors_witness :
  exists g',
    run_ops Z.eqb intptr_of_int false true
      [op_addEdge (Edge3 2 3 4); op_addVertex 9] sample_weighted = Ok (tt, g') /\
    EdgeIter_deref true g' (mkEdgeIter (Some 0%nat) (Some (0%nat, 0%nat)))
    = Ok (Edge3 1 2 5) /\
    findVertex Z.eqb g' 2 = Ok (mkVertexIter (Some 1%nat)).
Proof.
  eexists. split; [reflexivity|].
  destruct (insertion_keeps_cursors Z.eqb intptr_of_int Zeqb_sym false true
              [op_addEdge (Edge3 2 3 4); op_addVertex 9] sample_weighted tt _
              eq_refl eq_refl) as (_ & He & Hf & _).
  split; [apply He; reflexivity | apply Hf; reflexivity].
Defined.


Lemma undirected_lookup_symmetric_witness :
  exists it it',
    findEdge Z.eqb sample_star (Edge3 1 3 0) = Ok it /\
    findEdge Z.eqb sample_star (Edge3 3 1 0) = Ok it' /\
    edge_at_end it' = edge_at_end it.
Proof.
  destruct (undirected_lookup_symmetric Z.eqb intptr_of_int Z.eqb_refl Zeqb_sym
              true sample_star (Edge3 1 3 0) sample_star_reachable)
    as (it & it' & E & E' & Hend & _).
  exists it, it'. split; [exact E|]. split; [exact E' | exact Hend].
Defined.

Lemma directed_addEdge_witness :
  exists it inserted g' after,
    addEdge Z.eqb intptr_of_int true false (Edge2 2 3) sample_isolated
    = Ok (it, inserted, g') /\
    edge_records g' = (1 + if inserted then 1 else 0)%nat /\
    findEdge Z.eqb g' (Edge2 3 2) = Ok after /\
    edge_at_end after = true.
Proof.
  destruct (directed_addEdge_one_direction Z.eqb intptr_of_int Z.eqb_refl Zeqb_sym
              Zeqb_trans false sample_isolated (Edge2 2 3) sample_isolated_targets_valid)
    as (it & ins & g' & E & _ & Hmir & Hrec & _).
  destruct (Hmir eq_refl) as (before & after & Eb & Ea & Heq).
  vm_compute in Eb. inversion Eb; subst.
  exists it, ins, g', after.
  split; [exact E|]. split; [exact Hrec|]. split; [exact Ea | exact Heq].
Defined.

Lemma directed_edge_records_witness :
  exists g,
    Graph_ctor_list Z.eqb intptr_of_int true false
      [Edge2 1 2; Edge2 2 1; Edge2 1 2; Edge2 3 3] = Ok g /\
    edge_records g = 3%nat.
Proof.
  destruct (directed_edge_records Z.eqb intptr_of_int Z.eqb_refl Zeqb_sym Zeqb_trans
              false) as [H _].
  destruct (H [Edge2 1 2; Edge2 2 1; Edge2 1 2; Edge2 3 3]) as (g & E & Hrec & _).
  exists g. split; [exact E | exact Hrec].
Defined.

Lemma undirected_lookup_complete_witness :
  exists g it,
    Graph_ctor_list Z.eqb intptr_of_int false true [Edge3 1 2 5; Edge3 2 3 4] = Ok g /\
    findEdge Z.eqb g (Edge3 3 2 0) = Ok it /\
    edge_at_end it = false.
Proof.
  destruct (undirected_lookup_complete Z.eqb intptr_of_int Z.eqb_refl Zeqb_sym
              Zeqb_trans true) as [H _].
  destruct (H [Edge3 1 2 5; Edge3 2 3 4] (Edge3 3 2 0)) as (g & it & E & F & Hend).
  exists g, it. split; [exact E|]. split; [exact F | exact Hend].
Defined.

Lemma vertices_of_edge_sequence_witness :
  exists g,
    Graph_ctor_list Z.eqb intptr_of_int true false [Edge2 3 1; Edge2 1 2; Edge2 3 2]
    = Ok g /\
    collect_vertices 6 g (vertex_begin g) = Some (Ok [3; 1; 2]) /\
    m_size g = 3.
Proof.
  destruct (vertices_of_edge_sequence Z.eqb intptr_of_int Zeqb_sym Zeqb_trans true false
              [Edge2 3 1; Edge2 1 2; Edge2 3 2] 6) as (g & E & Hc & Hsize & _);
    [cbn; lia|].
  exists g. split; [exact E|]. split; [exact Hc | exact Hsize].
Defined.

